(** * PDF Match Analyzer: the comparison core of [PDF_MATCHA.py]

    A shallow embedding of the text pipeline of [PDFComparerApp]:
    [preprocess_text], [extract_content_units], [find_text_on_page],
    [highlight_text_on_page] and [compare_content_units], together with the
    parts of the Python runtime they call ([str] methods, the regular
    expressions of the file, and [difflib.SequenceMatcher.ratio]). The
    last sections add [compare_pdfs] with [update_progress] and
    [extract_text_from_pdf], the statistics of the summary and of the
    report, and the table loop of [extract_tables_from_pdf].

    Conventions.
    - A Python [str] is a list of Unicode code points ([list N]).
    - A Python [float] produced by [ratio], by a sum of ratios or by a
      quotient of lengths is modelled by the exact rational ([Q]) it rounds.
      The two comparisons of the source, [>= exact_match_threshold] and
      [> 0.7], have the same outcome on the rational and on its rounding as
      long as the compared texts are shorter than 2^25 characters, and so
      has the comparison of two ratios: two different quotients of that
      size lie further apart than two neighbouring floats.
    - [page.search_for] is the external search capability: a function from
      the query to the rectangles found. Every call is recorded in a trace,
      as is every annotation added to the page.
    - The values that [update_progress] receives are the rationals that
      the expressions of the source denote; rounding them to floats keeps
      their order.
    - The calls of the libraries ([fitz.open], [page.get_text],
      [page.search_for], [doc.save], [camelot.read_pdf]) are taken to
      return. *)

From Stdlib Require Import ZArith QArith Lqa Lia List String Ascii Bool.
From stdpp Require Import base tactics option list numbers gmap.

Open Scope nat_scope.

(* ===================================================================== *)
(** * Python strings *)
(* ===================================================================== *)

Module PyStr.

Definition char := N.
Definition str := list char.

(** String literals of the development are ASCII; [s] turns one into the
    Python string of the same characters. *)
Definition s (x : string) : str :=
  List.map N_of_ascii (list_ascii_of_string x).

Definition SP : char := 32%N.   (* ' '  *)
Definition NL : char := 10%N.   (* '\n' *)

(** [str.isspace] on one code point, which is also the class [\s] of [re]
    on [str] patterns and the set removed by [str.strip()] and used by
    [str.split()]. *)
Definition is_space (c : char) : bool :=
  ((9 <=? c) && (c <=? 13) || (28 <=? c) && (c <=? 32)
   || (c =? 133) || (c =? 160) || (c =? 5760)
   || (8192 <=? c) && (c <=? 8202)
   || (c =? 8232) || (c =? 8233) || (c =? 8239) || (c =? 8287)
   || (c =? 12288))%N.

(** [not l] for a Python string or list: it is empty. *)
Definition is_empty {A} (l : list A) : bool :=
  match l with [] => true | _ => false end.

(** [old] is a prefix of [text]. *)
Fixpoint starts_with (old text : str) : bool :=
  match old, text with
  | [], _ => true
  | _ :: _, [] => false
  | x :: old', y :: text' => (x =? y)%N && starts_with old' text'
  end.

(** [text.replace(old, new)] for a non-empty [old]: the occurrences of
    [old] are replaced from the left, without overlap. [skip] counts the
    characters of a match still to be dropped. *)
Fixpoint replace_from (old new : str) (skip : nat) (text : str) : str :=
  match text with
  | [] => []
  | c :: rest =>
      match skip with
      | S n => replace_from old new n rest
      | O =>
          if starts_with old text
          then new ++ replace_from old new (length old - 1) rest
          else c :: replace_from old new 0 rest
      end
  end.

Definition replace (old new text : str) : str := replace_from old new 0 text.

(** [text.lstrip()], [text.rstrip()] and [text.strip()]. *)
Fixpoint lstrip (text : str) : str :=
  match text with
  | [] => []
  | c :: rest => if is_space c then lstrip rest else text
  end.

Fixpoint rstrip (text : str) : str :=
  match text with
  | [] => []
  | c :: rest =>
      match rstrip rest with
      | [] => if is_space c then [] else [c]
      | r => c :: r
      end
  end.

Definition strip (text : str) : str := rstrip (lstrip text).

(** [sep.join(parts)]. *)
Fixpoint join (sep : str) (parts : list str) : str :=
  match parts with
  | [] => []
  | [p] => p
  | p :: ps => p ++ sep ++ join sep ps
  end.

(** [text.split(sep)] for a non-empty [sep]; [cur] is the piece being
    read, in reverse. *)
Fixpoint split_from (sep : str) (skip : nat) (cur text : str) : list str :=
  match text with
  | [] => [rev cur]
  | c :: rest =>
      match skip with
      | S n => split_from sep n cur rest
      | O =>
          if starts_with sep text
          then rev cur :: split_from sep (length sep - 1) [] rest
          else split_from sep 0 (c :: cur) rest
      end
  end.

Definition split (sep text : str) : list str := split_from sep 0 [] text.

(** [text.split()]: the maximal runs of non-whitespace characters. *)
Fixpoint words_from (cur text : str) : list str :=
  match text with
  | [] => match cur with [] => [] | _ => [rev cur] end
  | c :: rest =>
      if is_space c
      then match cur with
           | [] => words_from [] rest
           | _ => rev cur :: words_from [] rest
           end
      else words_from (c :: cur) rest
  end.

Definition words (text : str) : list str := words_from [] text.

(** [l[lo:hi]] for [0 <= lo]. *)
Definition slice {A} (l : list A) (lo hi : nat) : list A :=
  take (hi - lo) (drop lo l).

End PyStr.
Import PyStr.

(* ===================================================================== *)
(** * [difflib.SequenceMatcher(None, a, b).ratio()] *)
(* ===================================================================== *)

(** The matcher of the Python standard library, as [compare_content_units]
    calls it: no junk predicate ([isjunk = None], so [bjunk] is empty and
    the two junk-extension loops of [find_longest_match] never run) and
    [autojunk = True]. *)
Module Difflib.

Record Match := mkMatch { m_a : nat; m_b : nat; m_size : nat }.

(** The indices of [x] in [b], ascending, counted from [start]. *)
Fixpoint indices_from (start : nat) (x : char) (b : str) : list nat :=
  match b with
  | [] => []
  | y :: b' =>
      if (x =? y)%N then start :: indices_from (S start) x b'
      else indices_from (S start) x b'
  end.

(** [b2j.get(x, [])] after [__chain_b]: when [b] has 200 elements or more,
    an element that occurs more than [len(b) // 100 + 1] times is popular
    and has been deleted from [b2j]. *)
Definition b2j (b : str) (x : char) : list nat :=
  let idxs := indices_from 0 x b in
  if (200 <=? length b) && (length b / 100 + 1 <? length idxs)
  then [] else idxs.

Section find_longest_match.
Variables a b : str.
Variables alo ahi blo bhi : nat.

(** [j2len.get(j-1, 0)]; the key [-1] is never present. *)
Definition j2lenget (j2len : gmap nat nat) (j : nat) : nat :=
  match j with
  | O => 0
  | S j' => default 0 (j2len !! j')
  end.

(** The loop [for j in b2j.get(a[i], nothing)] of one row [i]. *)
Fixpoint row_loop (i : nat) (js : list nat) (j2len newj2len : gmap nat nat)
    (best : Match) : gmap nat nat * Match :=
  match js with
  | [] => (newj2len, best)
  | j :: js' =>
      if j <? blo then row_loop i js' j2len newj2len best
      else if bhi <=? j then (newj2len, best)
      else
        let k := j2lenget j2len j + 1 in
        let newj2len' := <[j := k]> newj2len in
        let best' :=
          if m_size best <? k then mkMatch (i + 1 - k) (j + 1 - k) k
          else best in
        row_loop i js' j2len newj2len' best'
  end.

(** The loop [for i in range(alo, ahi)]. *)
Fixpoint rows_loop (rows : list nat) (j2len : gmap nat nat) (best : Match)
    : Match :=
  match rows with
  | [] => best
  | i :: rows' =>
      match a !! i with
      | Some x =>
          let '(newj2len, best') := row_loop i (b2j b x) j2len ∅ best in
          rows_loop rows' newj2len best'
      | None => best
      end
  end.

Definition same_at (i j : nat) : bool :=
  match a !! i, b !! j with
  | Some x, Some y => (x =? y)%N
  | _, _ => false
  end.

(** The first [while]: extend the match to the left. *)
Fixpoint extend_left (besti bestj bestsize : nat) : Match :=
  match besti, bestj with
  | S i', S j' =>
      if (alo <? besti) && (blo <? bestj) && same_at i' j'
      then extend_left i' j' (bestsize + 1)
      else mkMatch besti bestj bestsize
  | _, _ => mkMatch besti bestj bestsize
  end.

(** The second [while]: extend the match to the right; [fuel] is the
    distance of [besti + bestsize] to [ahi]. *)
Fixpoint extend_right (fuel : nat) (besti bestj bestsize : nat) : Match :=
  match fuel with
  | O => mkMatch besti bestj bestsize
  | S fuel' =>
      if (besti + bestsize <? ahi) && (bestj + bestsize <? bhi)
         && same_at (besti + bestsize) (bestj + bestsize)
      then extend_right fuel' besti bestj (bestsize + 1)
      else mkMatch besti bestj bestsize
  end.

Definition find_longest_match : Match :=
  let best := rows_loop (seq alo (ahi - alo)) ∅ (mkMatch alo blo 0) in
  let best := extend_left (m_a best) (m_b best) (m_size best) in
  extend_right (ahi - (m_a best + m_size best))
    (m_a best) (m_b best) (m_size best).
End find_longest_match.

(** The work list of [get_matching_blocks]: [queue.pop()] takes the last
    element appended, so the head of the list is the top of the stack. *)
Definition region := (nat * nat * nat * nat)%type.

Fixpoint blocks_loop (a b : str) (fuel : nat) (queue : list region)
    (matching_blocks : list Match) : list Match :=
  match fuel with
  | O => matching_blocks
  | S fuel' =>
      match queue with
      | [] => matching_blocks
      | (alo, ahi, blo, bhi) :: queue =>
          let x := find_longest_match a b alo ahi blo bhi in
          let i := m_a x in
          let j := m_b x in
          let k := m_size x in
          if k =? 0 then blocks_loop a b fuel' queue matching_blocks
          else
            let queue :=
              if (alo <? i) && (blo <? j) then (alo, i, blo, j) :: queue
              else queue in
            let queue :=
              if (i + k <? ahi) && (j + k <? bhi)
              then (i + k, ahi, j + k, bhi) :: queue
              else queue in
            blocks_loop a b fuel' queue (matching_blocks ++ [x])
      end
  end.

(** The blocks found by the [while queue] loop. Every pass of the loop
    removes a region and adds regions that are shorter by at least one
    element of [a] altogether, so [2 * len(a) + 1] passes empty the
    queue. *)
Definition found_blocks (a b : str) : list Match :=
  blocks_loop a b (2 * length a + 1) [(0, length a, 0, length b)] [].

(** [matching_blocks.sort()]: the order of tuples, by insertion. *)
Definition match_leb (x y : Match) : bool :=
  (m_a x <? m_a y)
  || (m_a x =? m_a y)
     && ((m_b x <? m_b y) || (m_b x =? m_b y) && (m_size x <=? m_size y)).

Fixpoint insert_sorted (x : Match) (l : list Match) : list Match :=
  match l with
  | [] => [x]
  | y :: l' => if match_leb x y then x :: l else y :: insert_sorted x l'
  end.

Definition sort_blocks (l : list Match) : list Match :=
  fold_right insert_sorted [] l.

(** The loop that merges adjacent blocks, with the [if k1] that follows
    it. *)
Fixpoint merge_adjacent (blocks : list Match) (i1 j1 k1 : nat)
    (non_adjacent : list Match) : list Match :=
  match blocks with
  | [] =>
      if k1 =? 0 then non_adjacent
      else non_adjacent ++ [mkMatch i1 j1 k1]
  | x :: blocks =>
      let i2 := m_a x in
      let j2 := m_b x in
      let k2 := m_size x in
      if (i1 + k1 =? i2) && (j1 + k1 =? j2)
      then merge_adjacent blocks i1 j1 (k1 + k2) non_adjacent
      else
        merge_adjacent blocks i2 j2 k2
          (if k1 =? 0 then non_adjacent
           else non_adjacent ++ [mkMatch i1 j1 k1])
  end.

Definition get_matching_blocks (a b : str) : list Match :=
  merge_adjacent (sort_blocks (found_blocks a b)) 0 0 0 []
  ++ [mkMatch (length a) (length b) 0].

(** [sum(triple[-1] for triple in self.get_matching_blocks())]. *)
Definition matches (a b : str) : nat :=
  list_sum (List.map m_size (get_matching_blocks a b)).

(** [_calculate_ratio(matches, len(a) + len(b))]. *)
Definition calculate_ratio (m length : nat) : Q :=
  match length with
  | O => 1
  | S _ => (2 * Z.of_nat m # Pos.of_nat length)%Q
  end.

Definition ratio (a b : str) : Q :=
  calculate_ratio (matches a b) (length a + length b).

End Difflib.

(* ===================================================================== *)
(** * The regular expressions of the file *)
(* ===================================================================== *)

Module Re.

(** [re.sub(r'\s+', ' ', text)]: every maximal run of whitespace becomes
    one space. [in_run] tells that the previous character was whitespace. *)
Fixpoint sub_spaces_from (in_run : bool) (text : str) : str :=
  match text with
  | [] => []
  | c :: rest =>
      if is_space c
      then if in_run then sub_spaces_from true rest
           else SP :: sub_spaces_from true rest
      else c :: sub_spaces_from false rest
  end.

Definition sub_spaces (text : str) : str := sub_spaces_from false text.

(** The character class of the second [re.sub]: comma, semicolon, colon,
    double quote and single quote. *)
Definition is_minor_punct (c : char) : bool :=
  ((c =? 44) || (c =? 59) || (c =? 58) || (c =? 34) || (c =? 39))%N.

(** The second [re.sub]: each of these characters becomes a space. *)
Definition sub_punct (text : str) : str :=
  List.map (fun c => if is_minor_punct c then SP else c) text.

(** The length of the longest match of [\s*\n] at the start of [text]:
    the greedy [\s*] backs up to the last newline of the leading run of
    whitespace. [seen] is the number of characters read so far. *)
Fixpoint blank_tail_from (seen : nat) (text : str) : option nat :=
  match text with
  | [] => None
  | c :: rest =>
      if is_space c
      then match blank_tail_from (S seen) rest with
           | Some n => Some n
           | None => if (c =? NL)%N then Some (S seen) else None
           end
      else None
  end.

Definition blank_tail (text : str) : option nat := blank_tail_from 0 text.

(** [re.split(r'\n\s*\n', text)]. *)
Fixpoint split_blank_lines_from (skip : nat) (cur text : str) : list str :=
  match text with
  | [] => [rev cur]
  | c :: rest =>
      match skip with
      | S n => split_blank_lines_from n cur rest
      | O =>
          if (c =? NL)%N
          then match blank_tail rest with
               | Some n => rev cur :: split_blank_lines_from n [] rest
               | None => split_blank_lines_from 0 (c :: cur) rest
               end
          else split_blank_lines_from 0 (c :: cur) rest
      end
  end.

Definition split_blank_lines (text : str) : list str :=
  split_blank_lines_from 0 [] text.

(** The class [[.!?]]. *)
Definition is_sentence_end (c : char) : bool :=
  ((c =? 46) || (c =? 33) || (c =? 63))%N.

(** [re.split(r'(?<=[.!?])\s+', text)]: a run of whitespace that follows
    one of [. ! ?] separates two sentences. [in_sep] tells that the scan is
    inside a separator, [prev_end] that the previous character is one of
    [. ! ?]. *)
Fixpoint split_sentences_from (in_sep prev_end : bool) (cur text : str)
    : list str :=
  match text with
  | [] => [rev cur]
  | c :: rest =>
      if is_space c
      then if in_sep then split_sentences_from true false cur rest
           else if prev_end
                then rev cur :: split_sentences_from true false [] rest
                else split_sentences_from false false (c :: cur) rest
      else split_sentences_from false (is_sentence_end c) (c :: cur) rest
  end.

Definition split_sentences (text : str) : list str :=
  split_sentences_from false false [] text.

End Re.

(* ===================================================================== *)
(** * Configuration *)
(* ===================================================================== *)

(** The entries of [self.comparison_config] that the comparison reads. *)
Record Config := mkConfig {
  exact_match_threshold : Q;
  min_meaningful_text_length : Z;
  fuzzy_chunk_size : Z;
  enable_enhanced_preprocessing : bool
}.

(** The dictionary that [PDFComparerApp.__init__] builds. It is the only
    place where the configuration is written. *)
Definition comparison_config : Config :=
  {| exact_match_threshold := 92 # 100;
     min_meaningful_text_length := 13;
     fuzzy_chunk_size := 5;
     enable_enhanced_preprocessing := true |}.

(** [len(text) > min_length]. *)
Definition longer_than (text : str) (min_length : Z) : bool :=
  (min_length <? Z.of_nat (length text))%Z.

(* ===================================================================== *)
(** * [preprocess_text] and [extract_content_units] *)
(* ===================================================================== *)

(** The items of the dictionary [replacements], in insertion order. Line
    634 of the source holds ASCII quotes only, so Python reads the three
    quotes in a row there as the start of a triple-quoted key: the seven
    characters colon, space, double quote, quote, double quote, comma,
    space, mapped to one quote. The key after it is the double quote,
    mapped to itself (written twice, one entry). *)
Definition replacements : list (str * str) :=
  [ ([64257%N], s "fi"); ([64258%N], s "fl"); ([64256%N], s "ff");
    ([64259%N], s "ffi"); ([64260%N], s "ffl");
    ([8211%N], s "-"); ([8212%N], s "-"); ([8722%N], s "-");
    ([58; 32; 34; 39; 34; 44; 32]%N, [39%N]);
    ([34%N], [34%N]);
    ([8230%N], s "...");
    ([8203%N], []); ([8204%N], []); ([8205%N], []); ([65279%N], []) ].

Definition content_unit := (str * nat * str)%type.

Definition unit_text (u : content_unit) : str := u.1.1.
Definition unit_page (u : content_unit) : nat := u.1.2.
Definition unit_original (u : content_unit) : str := u.2.

(** [enumerate(l)]. *)
Definition enumerate {A} (l : list A) : list (nat * A) :=
  zip (seq 0 (length l)) l.

Section Preprocessing.
(** [str.lower] is the lowercasing of the Python runtime, a table over
    all of Unicode; the functions below take it as a parameter. *)
Variable lower : str -> str.
Variable cfg : Config.

Definition preprocess_text (text : str) : str :=
  if negb (enable_enhanced_preprocessing cfg) then
    let text := Re.sub_spaces text in
    strip text
  else
    let text := lower text in
    let text :=
      fold_left (fun text '(old, new) => replace old new text)
                replacements text in
    let text := Re.sub_spaces text in
    let text := Re.sub_punct text in
    let text := Re.sub_spaces text in
    strip text.

(** The loop [for paragraph in paragraphs] of one page. *)
Definition paragraph_units (page_num : nat) (content_units : list content_unit)
    (paragraphs : list str) : list content_unit :=
  fold_left
    (fun content_units paragraph =>
       let original := paragraph in
       let processed := preprocess_text paragraph in
       if negb (is_empty processed)
          && longer_than processed (min_meaningful_text_length cfg)
       then content_units ++ [(processed, page_num, original)]
       else content_units)
    paragraphs content_units.

Definition extract_content_units (text_by_page : list str)
    : list content_unit :=
  fold_left
    (fun content_units '(page_num, page_text) =>
       let paragraphs := Re.split_blank_lines page_text in
       paragraph_units page_num content_units paragraphs)
    (enumerate text_by_page) [].
End Preprocessing.

(** The lowercasing of ASCII text: [str.lower] on the code points below
    128. *)
Definition ascii_lower (text : str) : str :=
  List.map (fun c => if (65 <=? c) && (c <=? 90) then c + 32 else c)%N text.

(* ===================================================================== *)
(** * Pages: search, annotations and the trace of a run *)
(* ===================================================================== *)

(** A rectangle returned by [page.search_for]. *)
Record Rect := mkRect { x0 : Q; y0 : Q; x1 : Q; y1 : Q }.

(** A highlight annotation once [highlight.update()] has run: its
    rectangle, and the stroke colour and opacity if they were set. *)
Record Highlight := mkHighlight {
  h_rect : Rect;
  h_stroke : option (Z * Z * Z);
  h_opacity : option Q
}.

(** What a run does to the page, in order. *)
Inductive event :=
  | SearchFor (query : str)
  | AddHighlight (h : Highlight).

Inductive exn := ValueError | UnboundLocalError.

Inductive outcome (A : Type) :=
  | Ok (a : A)
  | Raise (e : exn).
Arguments Ok {A} a.
Arguments Raise {A} e.

(** A computation on a page: it extends the trace and returns a value or
    raises. *)
Definition PageM (A : Type) : Type := list event -> outcome A * list event.

#[global] Instance PageM_ret : MRet PageM := fun A a tr => (Ok a, tr).
#[global] Instance PageM_bind : MBind PageM := fun A B f m tr =>
  match m tr with
  | (Ok a, tr') => f a tr'
  | (Raise e, tr') => (Raise e, tr')
  end.

Definition raise {A} (e : exn) : PageM A := fun tr => (Raise e, tr).
Definition emit (e : event) : PageM () := fun tr => (Ok (), tr ++ [e]).
Definition run {A} (m : PageM A) : outcome A * list event := m [].

(** [range(start, stop, step)]. *)
Definition py_range (start stop step : Z) : outcome (list Z) :=
  if (step =? 0)%Z then Raise ValueError
  else
    let count :=
      if (0 <? step)%Z then ((stop - start + step - 1) / step)%Z
      else ((start - stop - step - 1) / (- step))%Z in
    Ok (List.map (fun k => (start + Z.of_nat k * step)%Z)
                 (seq 0 (Z.to_nat count))).

Section Page.
(** [page.search_for]. *)
Variable search_for : str -> list Rect.
Variable cfg : Config.

Definition search (query : str) : PageM (list Rect) := fun tr =>
  (Ok (search_for query), tr ++ [SearchFor query]).

(** The local names [instances] and [min_length] of [find_text_on_page].
    [min_length] is first assigned in the body of the sentence loop of
    the paragraph tier; until then it is unbound ([None]). *)
Definition locals := (list Rect * option Z)%type.

(** The loop [for sentence in sentences] of the paragraph tier. *)
Fixpoint sentence_loop (sentences : list str) (instances : list Rect)
    (min_length : option Z) : PageM locals :=
  match sentences with
  | [] => mret (instances, min_length)
  | sentence :: sentences =>
      let sentence := strip sentence in
      let min_length := min_meaningful_text_length cfg in
      if longer_than sentence min_length then
        sentence_instances ← search sentence;
        sentence_loop sentences (instances ++ sentence_instances)
                      (Some min_length)
      else sentence_loop sentences instances (Some min_length)
  end.

(** The loop [for paragraph in paragraphs]. *)
Fixpoint paragraph_loop (paragraphs : list str) (instances : list Rect)
    (min_length : option Z) : PageM locals :=
  match paragraphs with
  | [] => mret (instances, min_length)
  | paragraph :: paragraphs =>
      let paragraph := strip paragraph in
      if is_empty paragraph then paragraph_loop paragraphs instances min_length
      else
        paragraph_instances ← search paragraph;
        if negb (is_empty paragraph_instances) then
          paragraph_loop paragraphs (instances ++ paragraph_instances)
                         min_length
        else
          let sentences := Re.split_sentences paragraph in
          vars ← sentence_loop sentences instances min_length;
          paragraph_loop paragraphs vars.1 vars.2
  end.

(** The list comprehension that builds [chunks]. *)
Definition chunks_of (words : list str) (chunk_size : Z)
    : outcome (list str) :=
  match py_range 0 (Z.of_nat (length words)) chunk_size with
  | Raise e => Raise e
  | Ok starts =>
      Ok (List.map
            (fun i => join [SP]
                        (slice words (Z.to_nat i) (Z.to_nat (i + chunk_size))))
            (List.filter
               (fun i => (i + chunk_size <=? Z.of_nat (length words))%Z)
               starts))
  end.

(** The loop [for chunk in chunks]. It reads [min_length], which the
    fuzzy tier does not assign: the read raises if the name is unbound. *)
Fixpoint chunk_loop (chunks : list str) (instances : list Rect)
    (min_length : option Z) : PageM (list Rect) :=
  match chunks with
  | [] => mret instances
  | chunk :: chunks =>
      match min_length with
      | None => raise UnboundLocalError
      | Some bound =>
          if longer_than chunk bound then
            chunk_instances ← search chunk;
            chunk_loop chunks (instances ++ chunk_instances) min_length
          else chunk_loop chunks instances min_length
      end
  end.

(** The loop [for sentence in sentences] of the fuzzy tier. *)
Fixpoint fuzzy_loop (sentences : list str) (instances : list Rect)
    (min_length : option Z) : PageM (list Rect) :=
  match sentences with
  | [] => mret instances
  | sentence :: sentences =>
      let sentence := strip sentence in
      if longer_than sentence 20 then
        let words := words sentence in
        let chunk_size := fuzzy_chunk_size cfg in
        match chunks_of words chunk_size with
        | Raise e => raise e
        | Ok chunks =>
            instances ← chunk_loop chunks instances min_length;
            fuzzy_loop sentences instances min_length
        end
      else fuzzy_loop sentences instances min_length
  end.

Definition find_text_on_page (text : str) (fuzzy : bool)
    : PageM (list Rect) :=
  let text := strip text in
  if is_empty text then mret []
  else
    whole_text_instances ← search text;
    if negb (is_empty whole_text_instances) then mret whole_text_instances
    else
      let paragraphs := split [NL; NL] text in
      vars ← paragraph_loop paragraphs [] None;
      let instances := vars.1 in
      let min_length := vars.2 in
      if fuzzy && is_empty instances then
        let sentences := Re.split_sentences text in
        fuzzy_loop sentences instances min_length
      else mret instances.

(** [page.add_highlight_annot(rect)] followed by the colour branch and
    [highlight.update()]. *)
Definition add_highlight (rect : Rect) (color : str) : PageM () :=
  let h :=
    if bool_decide (color = s "red")
    then mkHighlight rect (Some (1, 0, 0)%Z) (Some (1 # 2))
    else if bool_decide (color = s "green")
    then mkHighlight rect (Some (0, 1, 0)%Z) (Some (1 # 2))
    else mkHighlight rect None None in
  emit (AddHighlight h).

(** The loop [for rect in line_instances]; [Some b] is [return b] taken
    inside the loop, [None] is the loop running to its end. *)
Fixpoint line_rect_loop (line_instances rects : list Rect) (color : str)
    : PageM (option bool) :=
  match rects with
  | [] => mret None
  | rect :: rects =>
      add_highlight rect color;;
      if 0 <? length line_instances then mret (Some true)
      else line_rect_loop line_instances rects color
  end.

(** The loop [for line in lines]. *)
Fixpoint line_loop (lines : list str) (color : str) : PageM (option bool) :=
  match lines with
  | [] => mret None
  | line :: lines =>
      let line := strip line in
      let min_length := min_meaningful_text_length cfg in
      if longer_than line min_length then
        line_instances ← search line;
        returned ← line_rect_loop line_instances line_instances color;
        match returned with
        | Some b => mret (Some b)
        | None => line_loop lines color
        end
      else line_loop lines color
  end.

(** The loop [for rect in instances] of the [else] branch. *)
Fixpoint rect_loop (rects : list Rect) (color : str) : PageM () :=
  match rects with
  | [] => mret ()
  | rect :: rects => add_highlight rect color;; rect_loop rects color
  end.

Definition highlight_text_on_page (text color : str) (fuzzy : bool)
    : PageM bool :=
  if is_empty (strip text) then mret false
  else
    instances ← find_text_on_page text fuzzy;
    if is_empty instances then
      let lines := split [NL] text in
      returned ← line_loop lines color;
      match returned with
      | Some b => mret b
      | None => mret false
      end
    else
      rect_loop instances color;;
      mret true.
End Page.

(* ===================================================================== *)
(** * [compare_content_units] *)
(* ===================================================================== *)

Definition matched_pair := (content_unit * content_unit * Q)%type.

Definition pair_old (p : matched_pair) : content_unit := p.1.1.
Definition pair_new (p : matched_pair) : content_unit := p.1.2.
Definition pair_similarity (p : matched_pair) : Q := p.2.

(** The containers that the first pass updates. *)
Record match_state := mkState {
  removed : list content_unit;
  matched_pairs : list matched_pair;
  unmatched_new : list content_unit;
  old_matched : list bool
}.

(** How the scan of [unmatched_new] for one old unit ends: by [break] at
    candidate [j], or at the end of the list with the best index and the
    best similarity seen. *)
Inductive scan_result :=
  | Break (j : nat) (similarity : Q)
  | Exhausted (best_match_idx : Z) (best_similarity : Q).

Record SimilarityScores := mkScores {
  avg_content_similarity : Q;
  document_similarity : Q;
  retention_rate : Q;
  text_similarity : Q;
  matched_content_pairs : list matched_pair
}.

(** [x < y] on the rationals that stand for floats. *)
Definition Qlt_bool (x y : Q) : bool := negb (Qle_bool y x).

Definition Qnat (n : nat) : Q := inject_Z (Z.of_nat n).

Section Compare.
Variable cfg : Config.

(** The loop [for j, (new_text, new_page, new_original) in
    enumerate(unmatched_new)]; [candidates] is what is left to scan,
    from index [j] on. *)
Fixpoint scan (old_text : str) (j : nat) (candidates : list content_unit)
    (best_match_idx : Z) (best_similarity : Q) : scan_result :=
  match candidates with
  | [] => Exhausted best_match_idx best_similarity
  | (new_text, new_page, new_original) :: candidates =>
      let similarity := Difflib.ratio old_text new_text in
      let improved := Qlt_bool best_similarity similarity in
      let best_similarity' :=
        if improved then similarity else best_similarity in
      let best_match_idx' :=
        if improved then Z.of_nat j else best_match_idx in
      if Qle_bool (exact_match_threshold cfg) similarity
      then Break j similarity
      else scan old_text (S j) candidates best_match_idx' best_similarity'
  end.

(** One pass of the loop [for i, (old_text, old_page, old_original) in
    enumerate(old_units)]; [old_units[i]] is the unit [u] itself. *)
Definition match_step (st : match_state) (iu : nat * content_unit)
    : match_state :=
  let '(i, u) := iu in
  let '(old_text, old_page, old_original) := u in
  match scan old_text 0 (unmatched_new st) (-1) 0%Q with
  | Break j similarity =>
      {| removed := removed st;
         matched_pairs :=
           matched_pairs st ++ [(u, unmatched_new st !!! j, similarity)];
         unmatched_new := delete j (unmatched_new st);
         old_matched := <[i := true]> (old_matched st) |}
  | Exhausted best_match_idx best_similarity =>
      if (0 <=? best_match_idx)%Z
         && Qlt_bool (7 # 10) best_similarity
      then
        {| removed := removed st ++ [(old_text, old_page, old_original)];
           matched_pairs :=
             matched_pairs st ++
             [(u, unmatched_new st !!! Z.to_nat best_match_idx,
               best_similarity)];
           unmatched_new := unmatched_new st;
           old_matched := old_matched st |}
      else
        {| removed := removed st ++ [(old_text, old_page, old_original)];
           matched_pairs := matched_pairs st;
           unmatched_new := unmatched_new st;
           old_matched := old_matched st |}
  end.

Definition initial_state (old_units new_units : list content_unit)
    : match_state :=
  {| removed := [];
     matched_pairs := [];
     unmatched_new := new_units;
     old_matched := replicate (length old_units) false |}.

(** The first pass. *)
Definition match_units (old_units new_units : list content_unit)
    : match_state :=
  fold_left match_step (enumerate old_units)
            (initial_state old_units new_units).

(** [total_similarity] after the loop over [matched_pairs]. *)
Definition total_similarity (pairs : list matched_pair) : Q :=
  fold_left (fun total p => total + pair_similarity p)%Q pairs 0%Q.

Definition compare_content_units (old_units new_units : list content_unit)
    : list content_unit * list content_unit * SimilarityScores :=
  let old_texts := List.map unit_text old_units in
  let new_texts := List.map unit_text new_units in
  let st := match_units old_units new_units in
  let removed := removed st in
  let matched_pairs := matched_pairs st in
  let added := unmatched_new st in
  let total_old_content := length old_units in
  let total_new_content := length new_units in
  let matched_content := length matched_pairs in
  let avg_similarity :=
    if negb (is_empty matched_pairs)
    then (total_similarity matched_pairs / Qnat (length matched_pairs))%Q
    else 0%Q in
  let doc_similarity :=
    if (0 <? total_old_content) && (0 <? total_new_content) then
      let common_elements := Z.of_nat matched_content in
      let total_elements :=
        (Z.of_nat total_old_content + Z.of_nat total_new_content
         - common_elements)%Z in
      if (0 <? total_elements)%Z
      then (inject_Z common_elements / inject_Z total_elements * 100)%Q
      else 0%Q
    else 0%Q in
  let retention_rate :=
    if 0 <? total_old_content
    then ((Qnat total_old_content - Qnat (length removed))
          / Qnat total_old_content * 100)%Q
    else 0%Q in
  let all_old_text := join [SP] old_texts in
  let all_new_text := join [SP] new_texts in
  let text_similarity := (Difflib.ratio all_old_text all_new_text * 100)%Q in
  let similarity_scores :=
    {| avg_content_similarity := (avg_similarity * 100)%Q;
       document_similarity := doc_similarity;
       retention_rate := retention_rate;
       text_similarity := text_similarity;
       matched_content_pairs := matched_pairs |} in
  (removed, added, similarity_scores).
End Compare.

(* ===================================================================== *)
(** * Facts about the matcher *)
(* ===================================================================== *)

Module DifflibFacts.
Import Difflib.

Section bounds.
Variables a b : str.
Variables alo ahi blo bhi : nat.
Hypothesis a_range : alo ≤ ahi.
Hypothesis b_range : blo ≤ bhi.

(** A match lies inside [a[alo:row]] and [b[blo:bhi]]. *)
Definition inside (row : nat) (x : Match) : Prop :=
  alo ≤ m_a x ∧ m_a x + m_size x ≤ row ∧
  blo ≤ m_b x ∧ m_b x + m_size x ≤ bhi.

(** The lengths stored in [j2len] after [n] rows. *)
Definition lengths_ok (n : nat) (j2len : gmap nat nat) : Prop :=
  ∀ j k, j2len !! j = Some k → k ≤ n ∧ blo + k ≤ j + 1 ∧ j < bhi.

Lemma inside_mono row row' x : row ≤ row' → inside row x → inside row' x.
Proof. unfold inside. lia. Qed.

Lemma row_loop_ok i js j2len newj2len best :
  alo ≤ i →
  lengths_ok (i - alo) j2len →
  lengths_ok (S i - alo) newj2len →
  inside (S i) best →
  lengths_ok (S i - alo) (row_loop blo bhi i js j2len newj2len best).1 ∧
  inside (S i) (row_loop blo bhi i js j2len newj2len best).2.
Proof.
  intros Hi Hold. revert newj2len best.
  induction js as [|j js IH]; intros newj2len best Hnew Hbest; simpl.
  - done.
  - destruct (j <? blo) eqn:Hlo; [by apply IH|].
    destruct (bhi <=? j) eqn:Hhi; [done|].
    apply Nat.ltb_ge in Hlo. apply Nat.leb_gt in Hhi.
    assert (Hk : j2lenget j2len j + 1 ≤ S i - alo
                 ∧ blo + (j2lenget j2len j + 1) ≤ j + 1).
    { destruct j as [|j']; simpl; [lia|].
      destruct (j2len !! j') as [k'|] eqn:Hj'; simpl; [|lia].
      destruct (Hold _ _ Hj') as (? & ? & ?). lia. }
    destruct Hk as [Hk1 Hk2].
    apply IH.
    + intros j0 k0. destruct (decide (j0 = j)) as [->|Hne].
      * rewrite lookup_insert_eq. intros [= <-]. lia.
      * rewrite lookup_insert_ne by done. apply Hnew.
    + destruct (m_size best <? j2lenget j2len j + 1); [|done].
      unfold inside; simpl. lia.
Qed.

Lemma rows_loop_ok n : ∀ start j2len best,
  alo ≤ start → start + n ≤ ahi →
  lengths_ok (start - alo) j2len →
  inside start best →
  inside ahi (rows_loop a b blo bhi (seq start n) j2len best).
Proof.
  induction n as [|n IH]; intros start j2len best Hs He Hl Hb; simpl.
  - eapply inside_mono; [|done]. lia.
  - destruct (a !! start) as [x|]; [|eapply inside_mono; [|done]; lia].
    destruct (row_loop blo bhi start (b2j b x) j2len ∅ best)
      as [newj2len best'] eqn:Hrow.
    destruct (row_loop_ok start (b2j b x) j2len ∅ best) as [Hl' Hb'];
      [done|done| |eapply inside_mono; [|done]; lia|].
    { intros j k. by rewrite lookup_empty. }
    rewrite Hrow in Hl', Hb'. simpl in *.
    apply IH; [lia|lia| |done].
    by replace (S start - alo) with (S (start - alo)) in * by lia.
Qed.

Lemma extend_left_ok : ∀ besti bestj bestsize,
  inside ahi (mkMatch besti bestj bestsize) →
  inside ahi (extend_left a b alo blo besti bestj bestsize).
Proof.
  induction besti as [|i' IH]; intros bestj bestsize Hin; simpl; [done|].
  destruct bestj as [|j']; [done|].
  destruct (_ && _) eqn:Hguard; [|done].
  apply andb_prop in Hguard as [Hguard _].
  apply andb_prop in Hguard as [H1 H2].
  apply Nat.ltb_lt in H1, H2.
  apply IH. unfold inside in *; simpl in *. lia.
Qed.

Lemma extend_right_ok fuel : ∀ besti bestj bestsize,
  inside ahi (mkMatch besti bestj bestsize) →
  inside ahi (extend_right a b ahi bhi fuel besti bestj bestsize).
Proof.
  induction fuel as [|fuel IH]; intros besti bestj bestsize Hin; simpl;
    [done|].
  destruct (_ && _) eqn:Hguard; [|done].
  apply andb_prop in Hguard as [Hguard _].
  apply andb_prop in Hguard as [H1 H2].
  apply Nat.ltb_lt in H1, H2.
  apply IH. unfold inside in *; simpl in *. lia.
Qed.

(** The fuel of [extend_right] is never what stops it. *)
Lemma extend_right_fuel fuel : ∀ besti bestj bestsize extra,
  ahi - (besti + bestsize) ≤ fuel →
  extend_right a b ahi bhi (fuel + extra) besti bestj bestsize
  = extend_right a b ahi bhi fuel besti bestj bestsize.
Proof.
  induction fuel as [|fuel IH]; intros besti bestj bestsize extra Hf.
  - destruct extra as [|extra]; simpl; [done|].
    destruct (besti + bestsize <? ahi) eqn:H1; [|done].
    apply Nat.ltb_lt in H1. lia.
  - simpl. destruct (_ && _) eqn:Hguard; [|done].
    apply IH.
    apply andb_prop in Hguard as [Hguard _].
    apply andb_prop in Hguard as [H1 _].
    apply Nat.ltb_lt in H1. lia.
Qed.

Lemma find_longest_match_inside :
  inside ahi (find_longest_match a b alo ahi blo bhi).
Proof.
  unfold find_longest_match.
  apply extend_right_ok.
  set (best := rows_loop _ _ _ _ _ _ _).
  assert (Hbest : inside ahi best).
  { apply rows_loop_ok; [done|lia| |].
    - intros j k. by rewrite lookup_empty.
    - unfold inside; simpl. lia. }
  pose proof (extend_left_ok (m_a best) (m_b best) (m_size best)) as H.
  destruct (extend_left a b alo blo (m_a best) (m_b best) (m_size best)).
  apply H. by destruct best.
Qed.
End bounds.

Definition region_ok (r : region) : Prop :=
  let '(alo, ahi, blo, bhi) := r in alo ≤ ahi ∧ blo ≤ bhi.

Definition width_a (r : region) : nat := let '(alo, ahi, _, _) := r in ahi - alo.
Definition width_b (r : region) : nat := let '(_, _, blo, bhi) := r in bhi - blo.

Definition total_size (blocks : list Match) : nat :=
  list_sum (List.map m_size blocks).

Lemma total_size_app l1 l2 : total_size (l1 ++ l2) = total_size l1 + total_size l2.
Proof. unfold total_size. by rewrite List.map_app, list_sum_app. Qed.

(** What one pass of the loop of [get_matching_blocks] does to the queue. *)
Definition push_regions (r : region) (x : Match) (queue : list region)
    : list region :=
  let '(alo, ahi, blo, bhi) := r in
  let queue :=
    if (alo <? m_a x) && (blo <? m_b x) then (alo, m_a x, blo, m_b x) :: queue
    else queue in
  if (m_a x + m_size x <? ahi) && (m_b x + m_size x <? bhi)
  then (m_a x + m_size x, ahi, m_b x + m_size x, bhi) :: queue
  else queue.

Lemma blocks_loop_step a b fuel r queue acc :
  blocks_loop a b (S fuel) (r :: queue) acc =
  let '(alo, ahi, blo, bhi) := r in
  let x := find_longest_match a b alo ahi blo bhi in
  if m_size x =? 0 then blocks_loop a b fuel queue acc
  else blocks_loop a b fuel (push_regions r x queue) (acc ++ [x]).
Proof. by destruct r as [[[alo ahi] blo] bhi]. Qed.

Lemma push_regions_ok r x queue :
  region_ok r →
  (let '(alo, ahi, blo, bhi) := r in inside alo blo bhi ahi x) →
  Forall region_ok queue →
  Forall region_ok (push_regions r x queue).
Proof.
  destruct r as [[[alo ahi] blo] bhi]. intros [Ha Hb] (H1 & H2 & H3 & H4) Hq.
  unfold push_regions.
  repeat (destruct (_ && _)); repeat constructor; simpl; try done; lia.
Qed.

Lemma push_regions_widths r x queue (w : region → nat) :
  (w = width_a ∨ w = width_b) →
  (let '(alo, ahi, blo, bhi) := r in inside alo blo bhi ahi x) →
  m_size x + list_sum (List.map w (push_regions r x queue))
  ≤ w r + list_sum (List.map w queue).
Proof.
  destruct r as [[[alo ahi] blo] bhi]. intros Hw (H1 & H2 & H3 & H4).
  unfold push_regions.
  destruct Hw as [-> | ->];
    repeat (destruct (_ && _)); simpl; lia.
Qed.

(** The sizes of the blocks found add up to no more than the elements of
    either sequence that the regions still waiting cover. *)
Lemma blocks_loop_total a b (w : region → nat) fuel : ∀ queue acc,
  (w = width_a ∨ w = width_b) →
  Forall region_ok queue →
  total_size (blocks_loop a b fuel queue acc)
  ≤ total_size acc + list_sum (List.map w queue).
Proof.
  induction fuel as [|fuel IH]; intros queue acc Hw Hq; simpl; [lia|].
  destruct queue as [|r queue]; [simpl; lia|].
  change (total_size (blocks_loop a b (S fuel) (r :: queue) acc)
          ≤ total_size acc + list_sum (List.map w (r :: queue))).
  rewrite blocks_loop_step.
  destruct r as [[[alo ahi] blo] bhi].
  apply Forall_cons in Hq as [[Ha Hb] Hq].
  pose proof (find_longest_match_inside a b alo ahi blo bhi Ha Hb) as Hin.
  set (x := find_longest_match a b alo ahi blo bhi) in *. clearbody x.
  cbv beta iota zeta. destruct (m_size x =? 0).
  - etrans; [apply IH; done|]. simpl. lia.
  - etrans; [apply IH; [done|]|].
    + by apply (push_regions_ok (alo, ahi, blo, bhi)).
    + rewrite total_size_app. unfold total_size at 2; simpl.
      pose proof (push_regions_widths (alo, ahi, blo, bhi) x queue w Hw Hin).
      simpl in *. lia.
Qed.

(** The budget of passes that a queue needs. *)
Definition passes (queue : list region) : nat :=
  list_sum (List.map (fun r => 2 * width_a r + 1) queue).

Lemma passes_cons r queue :
  passes (r :: queue) = 2 * width_a r + 1 + passes queue.
Proof. reflexivity. Qed.

Lemma push_regions_passes r x queue :
  (let '(alo, ahi, blo, bhi) := r in inside alo blo bhi ahi x) →
  m_size x ≠ 0 →
  passes (push_regions r x queue) < passes (r :: queue).
Proof.
  destruct r as [[[alo ahi] blo] bhi]. intros (H1 & H2 & H3 & H4) Hk.
  unfold push_regions.
  repeat (destruct (_ && _)); rewrite !passes_cons; simpl; lia.
Qed.

(** [blocks_loop] stops because its queue is empty, not because its fuel
    is spent: with the budget of its queue, more fuel changes nothing. *)
Lemma blocks_loop_fuel a b fuel : ∀ queue acc extra,
  Forall region_ok queue →
  passes queue ≤ fuel →
  blocks_loop a b (fuel + extra) queue acc = blocks_loop a b fuel queue acc.
Proof.
  induction fuel as [|fuel IH]; intros queue acc extra Hq Hf.
  - destruct queue as [|r queue]; [by destruct extra|].
    rewrite passes_cons in Hf. lia.
  - destruct queue as [|r queue]; [done|].
    change (S fuel + extra) with (S (fuel + extra)).
    rewrite !blocks_loop_step.
    destruct r as [[[alo ahi] blo] bhi].
    apply Forall_cons in Hq as [[Ha Hb] Hq].
    pose proof (find_longest_match_inside a b alo ahi blo bhi Ha Hb) as Hin.
    set (x := find_longest_match a b alo ahi blo bhi) in *. clearbody x.
    cbv beta iota zeta. destruct (m_size x =? 0) eqn:Hk.
    + apply IH; [done|]. rewrite passes_cons in Hf. lia.
    + apply IH.
      * by apply (push_regions_ok (alo, ahi, blo, bhi)).
      * apply Nat.eqb_neq in Hk.
        pose proof (push_regions_passes (alo, ahi, blo, bhi) x queue Hin Hk)
          as Hlt.
        apply Nat.lt_succ_r. eapply Nat.lt_le_trans; [exact Hlt|exact Hf].
Qed.

Lemma found_blocks_fuel a b extra :
  blocks_loop a b (2 * length a + 1 + extra) [(0, length a, 0, length b)] []
  = found_blocks a b.
Proof.
  apply blocks_loop_fuel.
  - repeat constructor; simpl; lia.
  - unfold passes; simpl. lia.
Qed.

(** Sorting and merging keep the sum of the sizes. *)
Lemma total_size_cons x l : total_size (x :: l) = m_size x + total_size l.
Proof. reflexivity. Qed.

Lemma insert_sorted_total x l :
  total_size (insert_sorted x l) = m_size x + total_size l.
Proof.
  induction l as [|y l IH]; simpl; [done|].
  destruct (match_leb x y); [done|].
  rewrite !total_size_cons, IH. lia.
Qed.

Lemma sort_blocks_total l : total_size (sort_blocks l) = total_size l.
Proof.
  induction l as [|x l IH]; simpl; [done|].
  by rewrite insert_sorted_total, total_size_cons, IH.
Qed.

Lemma merge_adjacent_total blocks : ∀ i1 j1 k1 non_adjacent,
  total_size (merge_adjacent blocks i1 j1 k1 non_adjacent)
  = total_size non_adjacent + k1 + total_size blocks.
Proof.
  induction blocks as [|x blocks IH]; intros i1 j1 k1 non_adjacent; simpl.
  - destruct (k1 =? 0) eqn:Hk.
    + apply Nat.eqb_eq in Hk. unfold total_size at 3; simpl. lia.
    + rewrite total_size_app. unfold total_size at 2 4; simpl. lia.
  - rewrite total_size_cons.
    destruct (_ && _); rewrite IH; [lia|].
    destruct (k1 =? 0) eqn:Hk.
    + apply Nat.eqb_eq in Hk. lia.
    + rewrite total_size_app. unfold total_size at 2; simpl. lia.
Qed.

Lemma matches_found a b : matches a b = total_size (found_blocks a b).
Proof.
  unfold matches, get_matching_blocks.
  fold (total_size
          (merge_adjacent (sort_blocks (found_blocks a b)) 0 0 0 []
           ++ [mkMatch (length a) (length b) 0])).
  rewrite total_size_app, merge_adjacent_total, sort_blocks_total.
  unfold total_size at 1 3; simpl. lia.
Qed.

Lemma matches_le_a a b : matches a b ≤ length a.
Proof.
  rewrite matches_found. unfold found_blocks.
  etrans; [apply (blocks_loop_total a b width_a); [by left|]|].
  - repeat constructor; simpl; lia.
  - simpl. lia.
Qed.

Lemma matches_le_b a b : matches a b ≤ length b.
Proof.
  rewrite matches_found. unfold found_blocks.
  etrans; [apply (blocks_loop_total a b width_b); [by right|]|].
  - repeat constructor; simpl; lia.
  - simpl. lia.
Qed.

(** The ratio is a number between 0 and 1. *)
Lemma ratio_range a b : (0 <= ratio a b <= 1)%Q.
Proof.
  unfold ratio, calculate_ratio.
  pose proof (matches_le_a a b). pose proof (matches_le_b a b).
  destruct (length a + length b) as [|n] eqn:Hlen.
  - split; [apply Qle_bool_imp_le|apply Qle_refl]; done.
  - unfold Qle; cbn [Qnum Qden].
    rewrite <- Pos.of_nat_succ, Zpos_P_of_succ_nat. lia.
Qed.

(** Two empty texts have ratio 1; an empty and a non-empty text have
    ratio 0. *)
Lemma ratio_empty_empty : ratio [] [] = 1%Q.
Proof. reflexivity. Qed.

Lemma ratio_empty_l b : b ≠ [] → (ratio [] b == 0)%Q.
Proof.
  intros Hb. unfold ratio, calculate_ratio.
  pose proof (matches_le_a [] b) as H. simpl in H.
  assert (matches [] b = 0) as -> by lia.
  destruct b; [done|]. simpl. done.
Qed.

Lemma ratio_empty_r a : a ≠ [] → (ratio a [] == 0)%Q.
Proof.
  intros Ha. unfold ratio, calculate_ratio.
  pose proof (matches_le_b a []) as H. simpl in H.
  assert (matches a [] = 0) as -> by lia.
  destruct a; [done|]. simpl. done.
Qed.

End DifflibFacts.

(* ===================================================================== *)
(** * Facts about the first pass of [compare_content_units] *)
(* ===================================================================== *)

Lemma Qlt_bool_iff x y : Qlt_bool x y = true ↔ (x < y)%Q.
Proof.
  unfold Qlt_bool. rewrite negb_true_iff.
  split.
  - intros H. apply Qnot_le_lt. intros Hle.
    apply Qle_bool_iff in Hle. congruence.
  - intros H. destruct (Qle_bool y x) eqn:E; [|done].
    apply Qle_bool_iff in E. by apply Qlt_not_le in H.
Qed.

Lemma Qle_bool_false x y : Qle_bool x y = false ↔ ¬ (x <= y)%Q.
Proof.
  rewrite <- Qle_bool_iff. destruct (Qle_bool x y); split; done.
Qed.

Section CompareFacts.
Variable cfg : Config.

(** The similarity of an old text and a candidate, and whether it reaches
    the threshold. *)
Definition sim (old_text : str) (c : content_unit) : Q :=
  Difflib.ratio old_text (unit_text c).

Definition reaches (old_text : str) (c : content_unit) : Prop :=
  (exact_match_threshold cfg <= sim old_text c)%Q.

Lemma scan_cons old_text j c candidates best_match_idx best_similarity :
  scan cfg old_text j (c :: candidates) best_match_idx best_similarity =
  if Qle_bool (exact_match_threshold cfg) (sim old_text c)
  then Break j (sim old_text c)
  else scan cfg old_text (S j) candidates
         (if Qlt_bool best_similarity (sim old_text c)
          then Z.of_nat j else best_match_idx)
         (if Qlt_bool best_similarity (sim old_text c)
          then sim old_text c else best_similarity).
Proof. by destruct c as [[new_text new_page] new_original]. Qed.

(** The scan stops at the first candidate that reaches the threshold. *)
Lemma scan_break old_text pre c post : ∀ j best_match_idx best_similarity,
  Forall (fun n => ¬ reaches old_text n) pre →
  reaches old_text c →
  scan cfg old_text j (pre ++ c :: post) best_match_idx best_similarity
  = Break (j + length pre) (sim old_text c).
Proof.
  induction pre as [|n pre IH]; intros j bi bs Hpre Hc.
  - simpl app. rewrite scan_cons.
    apply Qle_bool_iff in Hc. rewrite Hc. f_equal. simpl. lia.
  - apply Forall_cons in Hpre as [Hn Hpre].
    simpl app. rewrite scan_cons.
    apply Qle_bool_false in Hn. rewrite Hn.
    rewrite IH by done. f_equal. simpl. lia.
Qed.

(** Candidates that neither reach the threshold nor beat the best
    similarity leave the scan where it is. *)
Lemma scan_no_better old_text candidates :
  ∀ j best_match_idx best_similarity,
  Forall (fun n => ¬ reaches old_text n
                   ∧ (sim old_text n <= best_similarity)%Q) candidates →
  scan cfg old_text j candidates best_match_idx best_similarity
  = Exhausted best_match_idx best_similarity.
Proof.
  induction candidates as [|n candidates IH]; intros j bi bs Hall; [done|].
  apply Forall_cons in Hall as [[Hn Hle] Hall].
  rewrite scan_cons.
  apply Qle_bool_false in Hn. rewrite Hn.
  assert (Qlt_bool bs (sim old_text n) = false) as ->.
  { destruct (Qlt_bool bs (sim old_text n)) eqn:E; [|done].
    apply Qlt_bool_iff in E. by apply Qlt_not_le in E. }
  by apply IH.
Qed.

(** Without a candidate at the threshold, the scan ends on the first
    candidate of highest similarity. *)
Lemma scan_best old_text pre c post : ∀ j best_match_idx best_similarity,
  Forall (fun n => ¬ reaches old_text n
                   ∧ (sim old_text n < sim old_text c)%Q) pre →
  ¬ reaches old_text c →
  (best_similarity < sim old_text c)%Q →
  Forall (fun n => ¬ reaches old_text n
                   ∧ (sim old_text n <= sim old_text c)%Q) post →
  scan cfg old_text j (pre ++ c :: post) best_match_idx best_similarity
  = Exhausted (Z.of_nat (j + length pre)) (sim old_text c).
Proof.
  induction pre as [|n pre IH]; intros j bi bs Hpre Hc Hbs Hpost.
  - simpl app. rewrite scan_cons.
    apply Qle_bool_false in Hc. rewrite Hc.
    apply Qlt_bool_iff in Hbs. rewrite Hbs.
    rewrite scan_no_better by done. do 2 f_equal. simpl. lia.
  - apply Forall_cons in Hpre as [[Hn Hlt] Hpre].
    simpl app. rewrite scan_cons.
    apply Qle_bool_false in Hn. rewrite Hn.
    rewrite IH; try done.
    + do 2 f_equal. simpl. lia.
    + by destruct (Qlt_bool bs (sim old_text n)).
Qed.

(** What a scan that ended by [break] has seen. *)
Lemma scan_Break_inv old_text candidates :
  ∀ j best_match_idx best_similarity j' similarity,
  scan cfg old_text j candidates best_match_idx best_similarity
  = Break j' similarity →
  ∃ pre c post,
    candidates = pre ++ c :: post ∧ j' = j + length pre ∧
    similarity = sim old_text c ∧ reaches old_text c ∧
    Forall (fun n => ¬ reaches old_text n) pre.
Proof.
  induction candidates as [|n candidates IH]; intros j bi bs j' sm Hscan;
    [done|].
  rewrite scan_cons in Hscan.
  destruct (Qle_bool _ _) eqn:Hn.
  - injection Hscan as <- <-. exists [], n, candidates.
    apply Qle_bool_iff in Hn. repeat split; simpl; [lia|done|done].
  - apply IH in Hscan as (pre & c & post & -> & -> & -> & Hc & Hpre).
    exists (n :: pre), c, post.
    apply Qle_bool_false in Hn.
    repeat split; simpl; [lia|done|by constructor].
Qed.

(** What a scan that ran to the end has seen: nothing at the threshold,
    and either no improvement or the similarity of the candidate at the
    best index. *)
Lemma scan_Exhausted_inv old_text candidates :
  ∀ j best_match_idx best_similarity best_match_idx' best_similarity',
  scan cfg old_text j candidates best_match_idx best_similarity
  = Exhausted best_match_idx' best_similarity' →
  Forall (fun n => ¬ reaches old_text n) candidates ∧
  ((best_match_idx' = best_match_idx ∧ best_similarity' = best_similarity)
   ∨ ∃ k c, candidates !! k = Some c ∧
            best_match_idx' = Z.of_nat (j + k) ∧
            best_similarity' = sim old_text c).
Proof.
  induction candidates as [|n candidates IH]; intros j bi bs bi' bs' Hscan.
  - injection Hscan as <- <-. split; [constructor|by left].
  - rewrite scan_cons in Hscan.
    destruct (Qle_bool _ _) eqn:Hn; [done|].
    apply Qle_bool_false in Hn.
    apply IH in Hscan as [Hall Hbest].
    split; [by constructor|].
    destruct Hbest as [[-> ->] | (k & c & Hk & -> & ->)].
    + destruct (Qlt_bool bs (sim old_text n)); [|by left].
      right. exists 0, n. repeat split. f_equal. lia.
    + right. exists (S k), c. repeat split; [done|f_equal; lia].
Qed.
End CompareFacts.


(** ** The invariant of the first pass *)

(** The units of [units] whose flag in [mask] is [flag], in order. *)
Definition select (flag : bool) (mask : list bool) (units : list content_unit)
    : list content_unit :=
  List.map snd (List.filter (fun bu => Bool.eqb (fst bu) flag) (zip mask units)).

Lemma select_snoc flag mask units b u :
  length mask = length units →
  select flag (mask ++ [b]) (units ++ [u])
  = select flag mask units ++ (if Bool.eqb b flag then [u] else []).
Proof.
  intros Hlen. unfold select.
  rewrite zip_with_app by done.
  rewrite List.filter_app, List.map_app. simpl.
  by destruct (Bool.eqb b flag).
Qed.

Lemma select_partition mask : ∀ units,
  length mask = length units →
  select false mask units ++ select true mask units ≡ₚ units.
Proof.
  induction mask as [|b mask IH]; intros [|u units] Hlen; try done.
  injection Hlen as Hlen. specialize (IH units Hlen).
  unfold select in *. destruct b; simpl.
  - rewrite <- Permutation_middle. by constructor.
  - by constructor.
Qed.

(** A sublist is the selection of the units that some mask leaves
    unset. *)
Lemma sublist_select (l1 l2 : list content_unit) :
  l1 `sublist_of` l2 →
  ∃ mask, length mask = length l2 ∧ l1 = select false mask l2.
Proof.
  induction 1 as [|x l1 l2 Hsub (mask & Hlen & ->)
                   |x l1 l2 Hsub (mask & Hlen & ->)].
  - by exists [].
  - exists (false :: mask). split; [simpl; by rewrite Hlen|done].
  - exists (true :: mask). split; [simpl; by rewrite Hlen|done].
Qed.

Lemma select_length mask units :
  length mask = length units →
  length (select false mask units) + length (select true mask units)
  = length units.
Proof.
  intros Hlen. rewrite <- length_app.
  by rewrite (select_partition mask units Hlen).
Qed.

Section PassInvariant.
Variable cfg : Config.
Variables old_units new_units : list content_unit.

(** The pairs recorded by a threshold match: a pair recorded for a partial
    match has a similarity below the threshold. *)
Definition exact_pairs (pairs : list matched_pair) : list matched_pair :=
  List.filter
    (fun p => Qle_bool (exact_match_threshold cfg) (pair_similarity p)) pairs.

(** The state after the first [k] old units. *)
Record pass_inv (k : nat) (st : match_state) : Prop := {
  inv_mask_length : length (old_matched st) = length old_units;
  inv_mask_rest :
    ∀ i, k ≤ i → i < length old_units → old_matched st !! i = Some false;
  inv_removed :
    removed st = select false (take k (old_matched st)) (take k old_units);
  inv_consumed_old :
    List.map pair_old (exact_pairs (matched_pairs st))
    = select true (take k (old_matched st)) (take k old_units);
  inv_new :
    List.map pair_new (exact_pairs (matched_pairs st)) ++ unmatched_new st
    ≡ₚ new_units;
  inv_unmatched : unmatched_new st `sublist_of` new_units;
  inv_similarity :
    Forall (fun p => (0 <= pair_similarity p <= 1)%Q) (matched_pairs st);
  inv_pairs_length : length (matched_pairs st) ≤ k
}.

Lemma exact_pairs_snoc_reach pairs o n sm :
  Qle_bool (exact_match_threshold cfg) sm = true →
  exact_pairs (pairs ++ [(o, n, sm)]) = exact_pairs pairs ++ [(o, n, sm)].
Proof.
  intros H. unfold exact_pairs. rewrite List.filter_app. simpl.
  unfold pair_similarity at 2; simpl. by rewrite H.
Qed.

Lemma exact_pairs_snoc_below pairs o n sm :
  Qle_bool (exact_match_threshold cfg) sm = false →
  exact_pairs (pairs ++ [(o, n, sm)]) = exact_pairs pairs.
Proof.
  intros H. unfold exact_pairs. rewrite List.filter_app. simpl.
  unfold pair_similarity at 2; simpl. by rewrite H, app_nil_r.
Qed.

Lemma match_step_eq st i u :
  match_step cfg st (i, u) =
  match scan cfg (unit_text u) 0 (unmatched_new st) (-1) 0%Q with
  | Break j similarity =>
      {| removed := removed st;
         matched_pairs :=
           matched_pairs st ++ [(u, unmatched_new st !!! j, similarity)];
         unmatched_new := delete j (unmatched_new st);
         old_matched := <[i := true]> (old_matched st) |}
  | Exhausted best_match_idx best_similarity =>
      if (0 <=? best_match_idx)%Z && Qlt_bool (7 # 10) best_similarity
      then
        {| removed := removed st ++ [u];
           matched_pairs :=
             matched_pairs st ++
             [(u, unmatched_new st !!! Z.to_nat best_match_idx,
               best_similarity)];
           unmatched_new := unmatched_new st;
           old_matched := old_matched st |}
      else
        {| removed := removed st ++ [u];
           matched_pairs := matched_pairs st;
           unmatched_new := unmatched_new st;
           old_matched := old_matched st |}
  end.
Proof. by destruct u as [[old_text old_page] old_original]. Qed.

Lemma initial_state_inv : pass_inv 0 (initial_state old_units new_units).
Proof.
  split; simpl; try done.
  - apply length_replicate.
  - intros i _ Hi. by apply lookup_replicate_2.
Qed.

Lemma match_step_inv k st u :
  old_units !! k = Some u →
  pass_inv k st →
  pass_inv (S k) (match_step cfg st (k, u)).
Proof.
  intros Hu [Hlen Hrest Hrem Hcons Hnew Hsub Hsim Hpl].
  assert (Hk : k < length old_units) by by eapply lookup_lt_Some.
  assert (Hlk : length (take k (old_matched st)) = length (take k old_units)).
  { rewrite !length_take. lia. }
  rewrite match_step_eq.
  destruct (scan cfg (unit_text u) 0 (unmatched_new st) (-1) 0%Q)
    as [j sm | bi bs] eqn:Hscan.
  - (* a threshold match *)
    apply scan_Break_inv in Hscan
      as (pre & c & post & Hun & -> & -> & Hc & Hpre).
    simpl in *. rewrite Hun in *.
    rewrite list_lookup_total_middle by done. rewrite delete_middle.
    assert (Htrue : take (S k) (<[k:=true]> (old_matched st))
                    = take k (old_matched st) ++ [true]).
    { rewrite (take_S_r _ _ true).
      - by rewrite take_insert_ge by lia.
      - apply list_lookup_insert_eq. lia. }
    apply Qle_bool_iff in Hc.
    split; simpl.
    + by rewrite length_insert.
    + intros i Hi1 Hi2. rewrite list_lookup_insert_ne by lia.
      apply Hrest; lia.
    + rewrite Htrue, (take_S_r _ _ u) by done.
      rewrite select_snoc by done. simpl. by rewrite app_nil_r.
    + rewrite Htrue, (take_S_r _ _ u) by done.
      rewrite select_snoc by done. simpl.
      rewrite exact_pairs_snoc_reach by done.
      by rewrite List.map_app, Hcons.
    + rewrite exact_pairs_snoc_reach by done.
      rewrite List.map_app. simpl. unfold pair_new at 2; simpl.
      rewrite <- Hnew. rewrite <- !app_assoc. apply Permutation_app_head.
      simpl. by rewrite Permutation_middle.
    + etrans; [|exact Hsub]. apply sublist_app; [done|]. by apply sublist_cons.
    + apply Forall_app. split; [done|]. constructor; [|done].
      apply DifflibFacts.ratio_range.
    + rewrite length_app. simpl. lia.
  - (* no threshold match *)
    apply scan_Exhausted_inv in Hscan as [Hall Hbest].
    assert (Hfalse : take (S k) (old_matched st)
                     = take k (old_matched st) ++ [false]).
    { apply take_S_r. apply Hrest; lia. }
    destruct ((0 <=? bi)%Z && Qlt_bool (7 # 10) bs) eqn:Hpartial.
    + (* a partial match *)
      apply andb_prop in Hpartial as [Hbi Hbs]. apply Z.leb_le in Hbi.
      destruct Hbest as [[-> ->] | (n & c & Hn & -> & ->)]; [lia|].
      assert (Hnot : Qle_bool (exact_match_threshold cfg) (sim (unit_text u) c)
                     = false).
      { apply Qle_bool_false.
        rewrite Forall_forall in Hall. apply Hall.
        apply list_elem_of_lookup. eauto. }
      split; simpl.
      * done.
      * intros i Hi1 Hi2. apply Hrest; lia.
      * rewrite Hfalse, (take_S_r _ _ u) by done.
        rewrite select_snoc by done. simpl. by rewrite Hrem.
      * rewrite Hfalse, (take_S_r _ _ u) by done.
        rewrite select_snoc by done. simpl. rewrite app_nil_r.
        by rewrite exact_pairs_snoc_below.
      * by rewrite exact_pairs_snoc_below.
      * done.
      * apply Forall_app. split; [done|]. constructor; [|done].
        apply DifflibFacts.ratio_range.
      * rewrite length_app. simpl. lia.
    + split; simpl.
      * done.
      * intros i Hi1 Hi2. apply Hrest; lia.
      * rewrite Hfalse, (take_S_r _ _ u) by done.
        rewrite select_snoc by done. simpl. by rewrite Hrem.
      * rewrite Hfalse, (take_S_r _ _ u) by done.
        rewrite select_snoc by done. simpl. by rewrite app_nil_r.
      * done.
      * done.
      * done.
      * lia.
Qed.
End PassInvariant.

Section PassFacts.
Variable cfg : Config.

Lemma match_fold_inv old_units new_units suffix : ∀ k st,
  drop k old_units = suffix →
  k ≤ length old_units →
  pass_inv cfg old_units new_units k st →
  pass_inv cfg old_units new_units (length old_units)
    (fold_left (match_step cfg) (zip (seq k (length suffix)) suffix) st).
Proof.
  induction suffix as [|u suffix IH]; intros k st Hdrop Hk Hinv; simpl.
  - assert (length (drop k old_units) = 0) as Hl by by rewrite Hdrop.
    rewrite length_drop in Hl.
    by replace (length old_units) with k by lia.
  - assert (Hu : old_units !! k = Some u).
    { rewrite <- (Nat.add_0_r k), <- lookup_drop. by rewrite Hdrop. }
    apply IH.
    + rewrite (drop_S _ u k Hu) in Hdrop. by injection Hdrop.
    + by apply lookup_lt_Some in Hu.
    + by apply match_step_inv.
Qed.

(** The invariant holds when the first pass is over. *)
Lemma match_units_inv old_units new_units :
  pass_inv cfg old_units new_units (length old_units)
    (match_units cfg old_units new_units).
Proof.
  unfold match_units, enumerate.
  apply (match_fold_inv old_units new_units old_units 0).
  - done.
  - lia.
  - apply initial_state_inv.
Qed.

(** The three results of [compare_content_units] in terms of the final
    state of the first pass. *)
Lemma compare_content_units_state old_units new_units :
  let st := match_units cfg old_units new_units in
  let '(removed_units, added, scores) :=
    compare_content_units cfg old_units new_units in
  removed_units = removed st ∧ added = unmatched_new st
  ∧ matched_content_pairs scores = matched_pairs st.
Proof. done. Qed.

(** A step on a state in which no candidate reaches the threshold changes
    neither the candidates nor the flags, and removes the old unit. *)
Lemma match_step_no_reach st i u :
  Forall (fun n => ¬ reaches cfg (unit_text u) n) (unmatched_new st) →
  let st' := match_step cfg st (i, u) in
  removed st' = removed st ++ [u]
  ∧ unmatched_new st' = unmatched_new st
  ∧ old_matched st' = old_matched st.
Proof.
  intros Hall. rewrite match_step_eq.
  destruct (scan cfg (unit_text u) 0 (unmatched_new st) (-1) 0%Q)
    as [j sm | bi bs] eqn:Hscan.
  - apply scan_Break_inv in Hscan
      as (pre & c & post & Hun & _ & _ & Hc & _).
    rewrite Hun in Hall. apply Forall_app in Hall as [_ Hall].
    apply Forall_cons in Hall as [Hnc _]. done.
  - by destruct (_ && _).
Qed.
End PassFacts.

(* ===================================================================== *)
(** * Rational arithmetic of the metrics *)
(* ===================================================================== *)

Lemma Qnat_S n : (Qnat (S n) == Qnat n + 1)%Q.
Proof.
  unfold Qnat. rewrite Nat2Z.inj_succ. unfold Z.succ.
  by rewrite inject_Z_plus.
Qed.

Lemma Qnat_nonneg n : (0 <= Qnat n)%Q.
Proof. unfold Qnat, Qle; simpl. lia. Qed.

Lemma Qnat_pos n : 0 < n → (0 < Qnat n)%Q.
Proof. intros H. unfold Qnat, Qlt; simpl. lia. Qed.

Lemma Qnat_le n m : n ≤ m → (Qnat n <= Qnat m)%Q.
Proof. intros H. unfold Qnat, Qle; simpl. lia. Qed.

Lemma fold_similarity_bounds pairs : ∀ total,
  Forall (fun p => (0 <= pair_similarity p <= 1)%Q) pairs →
  (total <= fold_left (fun total p => total + pair_similarity p) pairs total
   <= total + Qnat (length pairs))%Q.
Proof.
  induction pairs as [|p pairs IH]; intros total Hall; simpl.
  - change (Qnat 0) with 0%Q. lra.
  - apply Forall_cons in Hall as [Hp Hall].
    specialize (IH (total + pair_similarity p)%Q Hall).
    pose proof (Qnat_S (length pairs)) as HS.
    lra.
Qed.

Lemma total_similarity_bounds pairs :
  Forall (fun p => (0 <= pair_similarity p <= 1)%Q) pairs →
  (0 <= total_similarity pairs <= Qnat (length pairs))%Q.
Proof.
  intros Hall. unfold total_similarity.
  pose proof (fold_similarity_bounds pairs 0%Q Hall). lra.
Qed.

(** A quotient [x / d] with [0 <= x <= d] and [0 < d], as a percentage. *)
Lemma percentage_range x d :
  (0 < d)%Q → (0 <= x <= d)%Q → (0 <= x / d * 100 <= 100)%Q.
Proof.
  intros Hd [H0 H1].
  assert (0 <= x / d)%Q by (apply Qle_shift_div_l; lra).
  assert (x / d <= 1)%Q by (apply Qle_shift_div_r; lra).
  lra.
Qed.

Lemma percentage_nonneg x d :
  (0 < d)%Q → (0 <= x)%Q → (0 <= x / d * 100)%Q.
Proof.
  intros Hd H0.
  assert (0 <= x / d)%Q by (apply Qle_shift_div_l; lra).
  lra.
Qed.

(* ===================================================================== *)
(** * The metrics of [compare_content_units] *)
(* ===================================================================== *)

Section Metrics.
Variable cfg : Config.
Variables old_units new_units : list content_unit.

Let result := compare_content_units cfg old_units new_units.
Let scores := result.2.
Let st := match_units cfg old_units new_units.

Lemma removed_length : length (removed st) ≤ length old_units.
Proof.
  destruct (match_units_inv cfg old_units new_units) as [Hlen _ Hrem _ _ _ _ _].
  fold st in Hlen, Hrem. rewrite Hrem.
  rewrite !take_ge by lia.
  pose proof (select_length (old_matched st) old_units Hlen). lia.
Qed.

Lemma avg_content_similarity_range :
  (0 <= avg_content_similarity scores <= 100)%Q.
Proof.
  destruct (match_units_inv cfg old_units new_units)
    as [_ _ _ _ _ _ Hsim _].
  fold st in Hsim.
  unfold scores, result, compare_content_units; simpl. fold st.
  destruct (matched_pairs st) as [|p pairs] eqn:Hpairs; simpl.
  - lra.
  - pose proof (total_similarity_bounds (p :: pairs) Hsim) as Htotal.
    apply percentage_range; [|done].
    apply Qnat_pos. simpl. lia.
Qed.

Lemma document_similarity_nonneg : (0 <= document_similarity scores)%Q.
Proof.
  unfold scores, result, compare_content_units; simpl. fold st.
  destruct (_ && _); [|lra].
  destruct (0 <? _)%Z eqn:Htotal; [|lra].
  apply Z.ltb_lt in Htotal.
  apply percentage_nonneg.
  - unfold Qlt; simpl. lia.
  - unfold Qle; simpl. lia.
Qed.

Lemma retention_rate_range : (0 <= retention_rate scores <= 100)%Q.
Proof.
  pose proof removed_length as Hrem.
  unfold scores, result, compare_content_units; simpl. fold st.
  destruct (0 <? length old_units) eqn:Hold; [|lra].
  apply Nat.ltb_lt in Hold.
  apply percentage_range; [by apply Qnat_pos|].
  pose proof (Qnat_le _ _ Hrem). pose proof (Qnat_nonneg (length (removed st))).
  lra.
Qed.

Lemma text_similarity_range : (0 <= text_similarity scores <= 100)%Q.
Proof.
  unfold scores, result, compare_content_units; simpl.
  pose proof (DifflibFacts.ratio_range
                (join [SP] (List.map unit_text old_units))
                (join [SP] (List.map unit_text new_units))).
  lra.
Qed.
End Metrics.

(** The inputs of the two counterexamples to the bounds of the metrics:
    three old paragraphs that are each a partial match, at 58/74, 62/74
    and 64/75, of the only new paragraph. *)
Definition paragraph_unit (text : string) (page : nat) : content_unit :=
  (s text, page, s text).

Definition three_rewrites : list content_unit :=
  [ paragraph_unit "the budget for last year was rejected" 0;
    paragraph_unit "the budget for this year got approved" 0;
    paragraph_unit "a budget for next year is approved now" 1 ].

Definition one_paragraph : list content_unit :=
  [ paragraph_unit "the budget for next year was approved" 0 ].

(** C1, as stated, fails twice. With three old units that each partially
    match the one new unit, [matched_pairs] has three entries and
    [document_similarity] is 300. With no unit on either side,
    [text_similarity] is 100 although its denominator, the total length of
    the two joined texts, is zero. *)
Lemma metrics_counterexample :
  (three_rewrites ≠ [] ∧ one_paragraph ≠ [] ∧
   ¬ (document_similarity
        (compare_content_units comparison_config
           three_rewrites one_paragraph).2 <= 100)%Q)
  ∧ ¬ (text_similarity (compare_content_units comparison_config [] []).2
       == 0)%Q.
Proof.
  split; [split; [done|split; [done|]]|].
  - assert (document_similarity
              (compare_content_units comparison_config
                 three_rewrites one_paragraph).2 = 300%Q) as ->
      by (vm_compute; reflexivity).
    intros H. by apply Qle_bool_iff in H.
  - assert (text_similarity (compare_content_units comparison_config [] []).2
            = 100%Q) as -> by (vm_compute; reflexivity).
    intros H. by apply Qeq_bool_iff in H.
Qed.

(** C1 (amended). For every configuration and every two lists of units,
    [avg_content_similarity], [retention_rate] and [text_similarity] lie in
    [[0,100]] and [document_similarity] is at least 0.
    [avg_content_similarity] is 0 when no pair was recorded,
    [document_similarity] is 0 when either list is empty and
    [retention_rate] is 0 when the old list is empty. [text_similarity] is
    0 when exactly one of the two joined texts is empty and 100 when both
    lists are empty. *)
Theorem metrics_ranges cfg old_units new_units :
  let scores := (compare_content_units cfg old_units new_units).2 in
  let all_old_text := join [SP] (List.map unit_text old_units) in
  let all_new_text := join [SP] (List.map unit_text new_units) in
  ((0 <= avg_content_similarity scores <= 100)%Q
   ∧ (0 <= document_similarity scores)%Q
   ∧ (0 <= retention_rate scores <= 100)%Q
   ∧ (0 <= text_similarity scores <= 100)%Q)
  ∧ (matched_content_pairs scores = [] →
     avg_content_similarity scores = 0%Q)
  ∧ (old_units = [] ∨ new_units = [] → document_similarity scores = 0%Q)
  ∧ (old_units = [] → retention_rate scores = 0%Q)
  ∧ (all_old_text = [] → all_new_text ≠ [] → (text_similarity scores == 0)%Q)
  ∧ (all_old_text ≠ [] → all_new_text = [] → (text_similarity scores == 0)%Q)
  ∧ (old_units = [] → new_units = [] → text_similarity scores = 100%Q).
Proof.
  intros scores all_old_text all_new_text.
  split; [|split; [|split; [|split; [|split; [|split]]]]].
  - repeat split;
      first [ apply avg_content_similarity_range
            | apply document_similarity_nonneg
            | apply retention_rate_range
            | apply text_similarity_range ].
  - unfold scores, compare_content_units; simpl. by intros ->.
  - unfold scores, compare_content_units; simpl.
    intros [-> | ->]; simpl; [done|].
    by rewrite andb_false_r.
  - unfold scores, compare_content_units; simpl. by intros ->.
  - intros Hold Hnew.
    unfold scores, compare_content_units; simpl.
    fold all_old_text all_new_text. rewrite Hold.
    rewrite (DifflibFacts.ratio_empty_l _ Hnew). lra.
  - intros Hold Hnew.
    unfold scores, compare_content_units; simpl.
    fold all_old_text all_new_text. rewrite Hnew.
    rewrite (DifflibFacts.ratio_empty_r _ Hold). lra.
  - intros -> ->. reflexivity.
Qed.

(* ===================================================================== *)
(** * The partition laws *)
(* ===================================================================== *)

(** C2. For every configuration and every input, the flags [old_matched]
    that the first pass sets at a threshold match classify every old unit
    exactly once: [removed] is the old units whose flag is unset, in
    order, and the old units of the pairs recorded at a threshold match
    are the old units whose flag is set, in order, so that the two lists
    together are [old_units] as a multiset. The new units of those pairs
    together with [added] are [new_units] as a multiset: [added] is the
    new units that some mask leaves unset, in the order of [new_units],
    and the new units of those pairs are the ones it sets. *)
Theorem partition_laws cfg old_units new_units :
  let st := match_units cfg old_units new_units in
  let removed_units := (compare_content_units cfg old_units new_units).1.1 in
  let added := (compare_content_units cfg old_units new_units).1.2 in
  let pairs :=
    matched_content_pairs (compare_content_units cfg old_units new_units).2 in
  let consumed_old := List.map pair_old (exact_pairs cfg pairs) in
  let consumed_new := List.map pair_new (exact_pairs cfg pairs) in
  length (old_matched st) = length old_units
  ∧ removed_units = select false (old_matched st) old_units
  ∧ consumed_old = select true (old_matched st) old_units
  ∧ removed_units ++ consumed_old ≡ₚ old_units
  ∧ consumed_new ++ added ≡ₚ new_units
  ∧ added `sublist_of` new_units
  ∧ (∃ new_matched,
       length new_matched = length new_units
       ∧ added = select false new_matched new_units
       ∧ consumed_new ≡ₚ select true new_matched new_units)
  ∧ length removed_units + length consumed_old = length old_units
  ∧ length consumed_new + length added = length new_units.
Proof.
  intros st removed_units added pairs consumed_old consumed_new.
  destruct (match_units_inv cfg old_units new_units)
    as [Hlen _ Hrem Hcons Hnew Hsub _ _].
  fold st in Hlen, Hrem, Hcons, Hnew, Hsub.
  rewrite !take_ge in Hrem, Hcons by lia.
  change removed_units with (removed st).
  change added with (unmatched_new st).
  change consumed_old
    with (List.map pair_old (exact_pairs cfg (matched_pairs st))).
  change consumed_new
    with (List.map pair_new (exact_pairs cfg (matched_pairs st))).
  assert (Hperm : removed st
                  ++ List.map pair_old (exact_pairs cfg (matched_pairs st))
                  ≡ₚ old_units).
  { rewrite Hrem, Hcons. by apply select_partition. }
  repeat split; try done.
  - destruct (sublist_select _ _ Hsub) as (new_matched & Hl & Hadded).
    exists new_matched. repeat split; try done.
    pose proof (select_partition new_matched new_units Hl) as Hpart.
    apply (Permutation_app_inv_r (unmatched_new st)).
    etrans; [exact Hnew|]. symmetry. etrans; [|exact Hpart].
    rewrite Hadded. apply Permutation_app_comm.
  - by rewrite <- length_app, Hperm.
  - by rewrite <- length_app, Hnew.
Qed.

(* ===================================================================== *)
(** * One old unit at a time *)
(* ===================================================================== *)

Section Steps.
Variable cfg : Config.

(** Whatever a step records, it takes from the candidates it was given,
    and it hands on a sublist of them. *)
Lemma match_step_later st iu :
  let st' := match_step cfg st iu in
  unmatched_new st' `sublist_of` unmatched_new st
  ∧ ∃ later, matched_pairs st' = matched_pairs st ++ later
             ∧ Forall (fun p => pair_new p ∈ unmatched_new st) later.
Proof.
  destruct iu as [i u]. rewrite match_step_eq.
  destruct (scan cfg (unit_text u) 0 (unmatched_new st) (-1) 0%Q)
    as [j sm | bi bs] eqn:Hscan.
  - apply scan_Break_inv in Hscan
      as (pre & c & post & Hun & -> & -> & Hc & Hpre).
    simpl. rewrite Hun.
    rewrite list_lookup_total_middle by done. rewrite delete_middle.
    split.
    + apply sublist_app; [done|]. by apply sublist_cons.
    + eexists; split; [done|]. constructor; [|done].
      unfold pair_new; simpl. set_solver.
  - apply scan_Exhausted_inv in Hscan as [_ Hbest].
    destruct ((0 <=? bi)%Z && Qlt_bool (7 # 10) bs) eqn:Hpartial; simpl.
    + apply andb_prop in Hpartial as [Hbi _]. apply Z.leb_le in Hbi.
      destruct Hbest as [[-> ->] | (n & c & Hn & -> & ->)]; [lia|].
      split; [done|].
      eexists; split; [done|]. constructor; [|done].
      unfold pair_new; simpl. rewrite Nat2Z.id. simpl.
      rewrite (list_lookup_total_correct _ _ _ Hn).
      apply list_elem_of_lookup. eauto.
    + split; [done|]. exists []. by rewrite app_nil_r.
Qed.

Lemma match_fold_later rest : ∀ st,
  let st' := fold_left (match_step cfg) rest st in
  unmatched_new st' `sublist_of` unmatched_new st
  ∧ ∃ later, matched_pairs st' = matched_pairs st ++ later
             ∧ Forall (fun p => pair_new p ∈ unmatched_new st) later.
Proof.
  induction rest as [|iu rest IH]; intros st; simpl.
  - split; [done|]. exists []. by rewrite app_nil_r.
  - destruct (match_step_later st iu) as [Hsub (l1 & Hl1 & Hin1)].
    destruct (IH (match_step cfg st iu)) as [Hsub' (l2 & Hl2 & Hin2)].
    split; [by etrans|].
    exists (l1 ++ l2). split.
    + by rewrite Hl2, Hl1, app_assoc.
    + apply Forall_app. split; [done|].
      eapply Forall_impl; [exact Hin2|].
      intros p Hp. simpl in Hp. eapply elem_of_sublist; done.
Qed.
End Steps.

(** C3. When the candidates of an old unit are [pre ++ c :: post], no
    candidate of [pre] reaches the threshold and [c] does, whatever the
    similarities of the candidates of [post], the step records the pair of
    the old unit and [c] with their similarity, removes [c] at its
    position from the candidates, sets the flag of the old unit and does
    not add it to [removed]. Whatever old units follow, the candidates
    they see form a sublist of [pre ++ post], every pair they record takes
    its new unit from [pre ++ post], and so does [added]; when the
    candidates are pairwise distinct, [c] itself is in none of them. *)
Theorem first_qualifying_candidate_wins cfg st i u pre c post rest :
  unmatched_new st = pre ++ c :: post →
  Forall (fun n => ¬ reaches cfg (unit_text u) n) pre →
  reaches cfg (unit_text u) c →
  let st' := match_step cfg st (i, u) in
  let st'' := fold_left (match_step cfg) rest st' in
  (matched_pairs st' = matched_pairs st ++ [(u, c, sim (unit_text u) c)]
   ∧ unmatched_new st' = pre ++ post
   ∧ old_matched st' = <[i := true]> (old_matched st)
   ∧ removed st' = removed st)
  ∧ (unmatched_new st'' `sublist_of` (pre ++ post)
     ∧ ∃ later, matched_pairs st'' = matched_pairs st' ++ later
                ∧ Forall (fun p => pair_new p ∈ pre ++ post) later
                ∧ (NoDup (unmatched_new st) →
                   (c ∉ unmatched_new st'')
                   ∧ Forall (fun p => pair_new p ≠ c) later)).
Proof.
  intros Hun Hpre Hc st' st''.
  assert (Hstep : st' =
    {| removed := removed st;
       matched_pairs := matched_pairs st ++ [(u, c, sim (unit_text u) c)];
       unmatched_new := pre ++ post;
       old_matched := <[i := true]> (old_matched st) |}).
  { unfold st'. rewrite match_step_eq, Hun.
    rewrite (scan_break cfg (unit_text u) pre c post 0 (-1)%Z 0%Q Hpre Hc).
    simpl. by rewrite list_lookup_total_middle, delete_middle. }
  split; [by rewrite Hstep|].
  destruct (match_fold_later cfg rest st') as [Hsub (later & Hl & Hin)].
  fold st'' in Hsub, Hl.
  assert (Hun' : unmatched_new st' = pre ++ post) by by rewrite Hstep.
  rewrite Hun' in Hsub, Hin.
  split; [done|]. exists later. split; [done|]. split; [done|].
  intros Hnodup. rewrite Hun in Hnodup.
  assert (Hc' : c ∉ pre ++ post).
  { apply NoDup_app in Hnodup as (_ & Hdisj & Hnd).
    apply NoDup_cons in Hnd as [Hcp _].
    intros [Hin'|Hin']%elem_of_app; [|done].
    apply (Hdisj c Hin'). by left. }
  split.
  - intros Hin'. apply Hc'. eapply elem_of_sublist; done.
  - eapply Forall_impl; [exact Hin|]. intros p Hp Heq.
    simpl in Hp. by rewrite Heq in Hp.
Qed.

Definition near_copy : content_unit :=
  paragraph_unit "the budget for next year was approved." 2.

Definition exact_copy : content_unit :=
  paragraph_unit "the budget for next year was approved" 3.

Definition state_of (candidates : list content_unit) : match_state :=
  {| removed := []; matched_pairs := []; unmatched_new := candidates;
     old_matched := [false; false] |}.

(** C3 at a concrete input: the old unit matches the first candidate at
    74/75 although the second candidate is the same text, at 1; a second
    old unit with the same text then matches that second candidate. *)
Lemma first_qualifying_candidate_wins_witness :
  let u := paragraph_unit "the budget for next year was approved" 0 in
  let st := state_of [near_copy; exact_copy] in
  let st' := match_step comparison_config st (0, u) in
  let st'' := fold_left (match_step comparison_config) [(1, u)] st' in
  (sim (unit_text u) near_copy < sim (unit_text u) exact_copy)%Q
  ∧ (matched_pairs st' = [(u, near_copy, 74 # 75)]
     ∧ unmatched_new st' = [exact_copy]
     ∧ old_matched st' = [true; false]
     ∧ removed st' = [])
  ∧ unmatched_new st'' = [].
Proof.
  intros u st st' st''.
  pose proof (first_qualifying_candidate_wins comparison_config st 0 u
                [] near_copy [exact_copy] [(1, u)]) as H.
  destruct H as [(H1 & H2 & H3 & H4) _].
  - reflexivity.
  - constructor.
  - apply Qle_bool_iff. vm_compute. reflexivity.
  - split; [vm_compute; reflexivity|].
    split; [|vm_compute; reflexivity].
    split; [etrans; [exact H1|vm_compute; reflexivity]|].
    split; [exact H2|]. split; [exact H3|exact H4].
Defined.

(** C4. When the candidates of an old unit are [pre ++ c :: post], no
    candidate reaches the threshold, [c] is the first candidate of highest
    similarity and that similarity is above 7/10, the step records the
    pair of the old unit and [c] with their similarity, adds the old unit
    to [removed], and leaves the candidates and the flags as they were, so
    that [c] is still a candidate for the old units that follow. *)
Theorem partial_match_still_removed cfg st i u pre c post :
  unmatched_new st = pre ++ c :: post →
  Forall (fun n => ¬ reaches cfg (unit_text u) n
                   ∧ (sim (unit_text u) n < sim (unit_text u) c)%Q) pre →
  Forall (fun n => ¬ reaches cfg (unit_text u) n
                   ∧ (sim (unit_text u) n <= sim (unit_text u) c)%Q) post →
  ¬ reaches cfg (unit_text u) c →
  (7 # 10 < sim (unit_text u) c)%Q →
  let st' := match_step cfg st (i, u) in
  matched_pairs st' = matched_pairs st ++ [(u, c, sim (unit_text u) c)]
  ∧ removed st' = removed st ++ [u]
  ∧ unmatched_new st' = unmatched_new st
  ∧ old_matched st' = old_matched st
  ∧ c ∈ unmatched_new st'.
Proof.
  intros Hun Hpre Hpost Hc Hsim st'.
  assert (Hstep : st' =
    {| removed := removed st ++ [u];
       matched_pairs := matched_pairs st ++ [(u, c, sim (unit_text u) c)];
       unmatched_new := unmatched_new st;
       old_matched := old_matched st |}).
  { unfold st'. rewrite match_step_eq, Hun.
    rewrite (scan_best cfg (unit_text u) pre c post 0 (-1)%Z 0%Q);
      [|done|done|lra|done].
    assert ((0 <=? Z.of_nat (0 + length pre))%Z = true) as ->
      by (apply Z.leb_le; lia).
    apply Qlt_bool_iff in Hsim. rewrite Hsim. simpl.
    by rewrite Nat2Z.id, list_lookup_total_middle. }
  rewrite Hstep; simpl. repeat split; try done.
  rewrite Hun. set_solver.
Qed.

(** C4 at a concrete input: the first old unit is a partial match, at
    62/74, of the only candidate, which the second old unit then takes by
    a threshold match. When only partial matches follow, as for the three
    old units above, the candidate ends in [added]. *)
Lemma partial_match_still_removed_witness :
  let u := paragraph_unit "the budget for this year got approved" 0 in
  let st := state_of [exact_copy] in
  let st' := match_step comparison_config st (0, u) in
  let st'' := match_step comparison_config st'
                (1, paragraph_unit "the budget for next year was approved" 1) in
  (matched_pairs st' = [(u, exact_copy, 62 # 74)]
   ∧ removed st' = [u]
   ∧ unmatched_new st' = [exact_copy]
   ∧ old_matched st' = [false; false]
   ∧ exact_copy ∈ unmatched_new st')
  ∧ (unmatched_new st'' = [] ∧ old_matched st'' = [false; true])
  ∧ (compare_content_units comparison_config
       three_rewrites one_paragraph).1.2 = one_paragraph.
Proof.
  intros u st st' st''.
  pose proof (partial_match_still_removed comparison_config st 0 u
                [] exact_copy []) as H.
  destruct H as (H1 & H2 & H3 & H4 & H5).
  - reflexivity.
  - constructor.
  - constructor.
  - intros Hr. apply Qle_bool_iff in Hr. vm_compute in Hr. discriminate.
  - apply Qlt_bool_iff. vm_compute. reflexivity.
  - split; [|split; [vm_compute; split; reflexivity|vm_compute; reflexivity]].
    split; [etrans; [exact H1|vm_compute; reflexivity]|].
    split; [exact H2|]. split; [exact H3|]. split; [exact H4|exact H5].
Defined.

(* ===================================================================== *)
(** * The configuration is never validated *)
(* ===================================================================== *)

(** A configuration outside the ranges of the specification: a threshold
    of 3/2 and a chunk size of 0. *)
Definition out_of_range_config : Config :=
  {| exact_match_threshold := 3 # 2;
     min_meaningful_text_length := 13;
     fuzzy_chunk_size := 0;
     enable_enhanced_preprocessing := true |}.

Definition no_hit : str -> list Rect := fun _ => [].

Definition eight_words : str :=
  s "alpha beta gamma delta epsilon zeta eta theta".

(** C5, as stated, fails: nothing rejects a configuration. With a
    threshold of 3/2 the comparison of a unit with itself runs to its end
    and reports the unit as removed and as added; with a chunk size of 0
    the search of a page has already made three queries when [range]
    raises in the fuzzy tier. *)
Lemma config_not_validated_counterexample :
  ¬ (0 < exact_match_threshold out_of_range_config <= 1)%Q
  ∧ ¬ (1 <= fuzzy_chunk_size out_of_range_config)%Z
  ∧ (compare_content_units out_of_range_config
       [exact_copy] [exact_copy]).1 = ([exact_copy], [exact_copy])
  ∧ run (find_text_on_page no_hit out_of_range_config eight_words true)
    = (Raise ValueError,
       [SearchFor eight_words; SearchFor eight_words; SearchFor eight_words]).
Proof.
  split; [|split; [|split]].
  - intros [_ H]. by apply Qle_bool_iff in H.
  - simpl. lia.
  - vm_compute. reflexivity.
  - vm_compute. reflexivity.
Qed.

Lemma match_fold_no_reach cfg rest : ∀ st,
  (∀ u c, ¬ reaches cfg (unit_text u) c) →
  let st' := fold_left (match_step cfg) rest st in
  removed st' = removed st ++ List.map snd rest
  ∧ unmatched_new st' = unmatched_new st.
Proof.
  induction rest as [|[i u] rest IH]; intros st Hno; simpl.
  - by rewrite app_nil_r.
  - destruct (match_step_no_reach cfg st i u) as (Hr & Hu & _).
    { apply Forall_forall. intros c _. apply Hno. }
    destruct (IH (match_step cfg st (i, u)) Hno) as [Hr' Hu'].
    simpl in *. rewrite Hr', Hu', Hr, Hu. by rewrite <- app_assoc.
Qed.

Lemma enumerate_snd {A} (l : list A) : List.map snd (enumerate l) = l.
Proof. unfold enumerate. apply snd_zip. by rewrite length_seq. Qed.

(** C5 (amended). The configuration that [__init__] builds lies in the
    ranges of the specification, and it is never checked: the comparison
    and the search use whatever values a configuration holds. With a
    threshold above 1 no candidate is ever matched: every old unit is
    reported removed and every new unit added. With a chunk size of 0 the
    list of chunks raises [ValueError] when it is built, inside the fuzzy
    tier, and with a negative chunk size it is empty. *)
Theorem config_not_validated :
  ((0 < exact_match_threshold comparison_config <= 1)%Q
   ∧ (0 <= min_meaningful_text_length comparison_config)%Z
   ∧ (1 <= fuzzy_chunk_size comparison_config)%Z)
  ∧ (∀ cfg old_units new_units,
       (1 < exact_match_threshold cfg)%Q →
       (compare_content_units cfg old_units new_units).1
       = (old_units, new_units))
  ∧ (∀ words, chunks_of words 0 = Raise ValueError)
  ∧ (∀ words chunk_size, (chunk_size < 0)%Z → chunks_of words chunk_size = Ok []).
Proof.
  split; [|split; [|split]].
  - split; [|simpl; lia].
    split; [by apply Qlt_bool_iff|by apply Qle_bool_iff].
  - intros cfg old_units new_units Hthr.
    destruct (match_fold_no_reach cfg (enumerate old_units)
                (initial_state old_units new_units)) as [Hr Hu].
    { intros u c Hreach. unfold reaches, sim in Hreach.
      pose proof (DifflibFacts.ratio_range (unit_text u) (unit_text c)).
      lra. }
    unfold compare_content_units, match_units; simpl.
    rewrite Hr, Hu. simpl. by rewrite enumerate_snd.
  - done.
  - intros words chunk_size Hneg. unfold chunks_of, py_range.
    assert ((chunk_size =? 0)%Z = false) as -> by lia.
    assert ((0 <? chunk_size)%Z = false) as -> by lia.
    assert (Z.to_nat ((0 - Z.of_nat (length words) - chunk_size - 1)
                      / - chunk_size) = 0) as ->.
    { assert ((0 - Z.of_nat (length words) - chunk_size - 1) / - chunk_size
              < 1)%Z; [|lia].
      apply Z.div_lt_upper_bound; lia. }
    done.
Qed.

(* ===================================================================== *)
(** * Facts about the string operations of [preprocess_text] *)
(* ===================================================================== *)

Module PreprocessFacts.

(** Whitespace occurs in [text] only as single spaces; with [in_run] set,
    [text] does not start with whitespace either. *)
Fixpoint single_spaced (in_run : bool) (text : str) : bool :=
  match text with
  | [] => true
  | c :: rest =>
      if is_space c
      then negb in_run && (c =? SP)%N && single_spaced true rest
      else single_spaced false rest
  end.

Lemma is_space_SP : is_space SP = true.
Proof. reflexivity. Qed.

Lemma sub_spaces_from_spaced text : ∀ in_run,
  single_spaced in_run (Re.sub_spaces_from in_run text) = true.
Proof.
  induction text as [|c rest IH]; intros in_run; simpl; [done|].
  destruct (is_space c) eqn:Hc.
  - destruct in_run; [apply IH|].
    simpl. by rewrite IH.
  - simpl. by rewrite Hc, IH.
Qed.

Lemma sub_spaces_from_fixed text : ∀ in_run,
  single_spaced in_run text = true →
  Re.sub_spaces_from in_run text = text.
Proof.
  induction text as [|c rest IH]; intros in_run H; simpl in *; [done|].
  destruct (is_space c) eqn:Hc.
  - apply andb_prop in H as [H Hrest]. apply andb_prop in H as [Hrun Heq].
    destruct in_run; [done|].
    apply N.eqb_eq in Heq. subst c. by rewrite IH.
  - by rewrite IH.
Qed.

Lemma single_spaced_weaken text :
  single_spaced true text = true → single_spaced false text = true.
Proof.
  destruct text as [|c rest]; simpl; [done|].
  by destruct (is_space c).
Qed.

Lemma single_spaced_lstrip text : ∀ in_run,
  single_spaced in_run text = true →
  single_spaced true (lstrip text) = true.
Proof.
  induction text as [|c rest IH]; intros in_run H; simpl in *; [done|].
  destruct (is_space c) eqn:Hc.
  - apply andb_prop in H as [_ Hrest]. by eapply IH.
  - simpl. by rewrite Hc.
Qed.

Lemma single_spaced_rstrip text : ∀ in_run,
  single_spaced in_run text = true →
  single_spaced in_run (rstrip text) = true.
Proof.
  induction text as [|c rest IH]; intros in_run H; simpl in *; [done|].
  destruct (is_space c) eqn:Hc.
  - apply andb_prop in H as [H Hrest].
    specialize (IH true Hrest).
    destruct (rstrip rest) as [|c' r'] eqn:Hr; [done|].
    change (single_spaced in_run (c :: c' :: r') = true).
    cbn [single_spaced]. rewrite Hc. by rewrite H.
  - specialize (IH false H).
    destruct (rstrip rest) as [|c' r'] eqn:Hr.
    + simpl. by rewrite Hc.
    + change (single_spaced in_run (c :: c' :: r') = true).
      cbn [single_spaced]. by rewrite Hc.
Qed.

(** [text] does not start with whitespace. *)
Definition no_lead (text : str) : Prop :=
  match text with
  | [] => True
  | c :: _ => is_space c = false
  end.

Lemma lstrip_no_lead text : no_lead (lstrip text).
Proof.
  induction text as [|c rest IH]; simpl; [done|].
  destruct (is_space c) eqn:Hc; [done|]. by simpl.
Qed.

Lemma lstrip_fixed text : no_lead text → lstrip text = text.
Proof. destruct text as [|c rest]; simpl; [done|]. by intros ->. Qed.

Lemma rstrip_no_lead text : no_lead text → no_lead (rstrip text).
Proof.
  destruct text as [|c rest]; simpl; [done|]. intros Hc.
  destruct (rstrip rest); simpl; [by rewrite Hc|done].
Qed.

Lemma rstrip_cons c rest :
  rstrip (c :: rest) =
  match rstrip rest with
  | [] => if is_space c then [] else [c]
  | r => c :: r
  end.
Proof. reflexivity. Qed.

Lemma rstrip_idempotent text : rstrip (rstrip text) = rstrip text.
Proof.
  induction text as [|c rest IH]; [done|].
  rewrite (rstrip_cons c rest).
  destruct (rstrip rest) as [|c' r'] eqn:Hr.
  - destruct (is_space c) eqn:Hc; [done|]. simpl. by rewrite Hc.
  - rewrite rstrip_cons. by rewrite IH.
Qed.

Lemma strip_no_lead text : no_lead (strip text).
Proof. apply rstrip_no_lead, lstrip_no_lead. Qed.

Lemma strip_idempotent text : strip (strip text) = strip text.
Proof.
  unfold strip at 1. rewrite (lstrip_fixed _ (strip_no_lead text)).
  apply rstrip_idempotent.
Qed.

Lemma strip_spaced text in_run :
  single_spaced in_run text = true → single_spaced false (strip text) = true.
Proof.
  intros H. apply single_spaced_rstrip, single_spaced_weaken.
  by eapply single_spaced_lstrip.
Qed.

(** The basic mode, and the last two steps of the enhanced mode. *)
Lemma strip_sub_spaces_fixed text :
  single_spaced false text = true → no_lead text → rstrip text = text →
  strip (Re.sub_spaces text) = text.
Proof.
  intros Hs Hl Hr. unfold Re.sub_spaces.
  rewrite sub_spaces_from_fixed by done.
  unfold strip. by rewrite lstrip_fixed.
Qed.

Lemma strip_sub_spaces_idempotent text :
  strip (Re.sub_spaces (strip (Re.sub_spaces text)))
  = strip (Re.sub_spaces text).
Proof.
  apply strip_sub_spaces_fixed.
  - eapply strip_spaced. apply sub_spaces_from_spaced.
  - apply strip_no_lead.
  - apply rstrip_idempotent.
Qed.

(** ** Properties of every character *)

Lemma Forall_sub_spaces_from (P : char → Prop) text : ∀ in_run,
  P SP → Forall P text → Forall P (Re.sub_spaces_from in_run text).
Proof.
  induction text as [|c rest IH]; intros in_run HSP Hall; simpl; [done|].
  apply Forall_cons in Hall as [Hc Hall].
  destruct (is_space c); [destruct in_run|]; try constructor; auto.
Qed.

Lemma Forall_lstrip (P : char → Prop) text :
  Forall P text → Forall P (lstrip text).
Proof.
  induction text as [|c rest IH]; intros Hall; simpl; [done|].
  destruct (is_space c); [|done].
  apply Forall_cons in Hall as [_ Hall]. auto.
Qed.

Lemma Forall_rstrip (P : char → Prop) text :
  Forall P text → Forall P (rstrip text).
Proof.
  induction text as [|c rest IH]; intros Hall; simpl; [done|].
  apply Forall_cons in Hall as [Hc Hall]. specialize (IH Hall).
  destruct (rstrip rest) as [|c' r']; [destruct (is_space c)|].
  - constructor.
  - by repeat constructor.
  - by constructor.
Qed.

Lemma Forall_strip (P : char → Prop) text :
  Forall P text → Forall P (strip text).
Proof. intros H. by apply Forall_rstrip, Forall_lstrip. Qed.

Lemma Forall_replace_from (P : char → Prop) old new text : ∀ skip,
  Forall P new → Forall P text → Forall P (replace_from old new skip text).
Proof.
  induction text as [|c rest IH]; intros skip Hnew Hall; simpl; [done|].
  apply Forall_cons in Hall as [Hc Hall].
  destruct skip; [|by apply IH].
  destruct (starts_with old (c :: rest)).
  - apply Forall_app. split; [done|by apply IH].
  - constructor; [done|by apply IH].
Qed.

(** After [text.replace(k, new)] for a character [k] that is not in
    [new], [k] is gone. *)
Lemma replace_from_removes k new text : ∀ skip,
  k ∉ new → k ∉ replace_from [k] new skip text.
Proof.
  induction text as [|c rest IH]; intros skip Hnew; simpl; [set_solver|].
  destruct skip; [|by apply IH].
  destruct (k =? c)%N eqn:Hkc; simpl.
  - rewrite not_elem_of_app. split; [done|by apply IH].
  - apply N.eqb_neq in Hkc. rewrite not_elem_of_cons. split; [done|by apply IH].
Qed.

(** A character that is neither in the text nor in [new] is not in the
    result of a replacement. *)
Lemma replace_from_absent c old new text : ∀ skip,
  c ∉ new → c ∉ text → c ∉ replace_from old new skip text.
Proof.
  induction text as [|x rest IH]; intros skip Hnew Habs; simpl; [set_solver|].
  apply not_elem_of_cons in Habs as [Hx Habs].
  destruct skip; [|by apply IH].
  destruct (starts_with old (x :: rest)).
  - rewrite not_elem_of_app. split; [done|by apply IH].
  - rewrite not_elem_of_cons. split; [done|by apply IH].
Qed.

(** Replacing a string whose first character does not occur changes
    nothing. *)
Lemma replace_fixed k old new text :
  k ∉ text → replace (k :: old) new text = text.
Proof.
  unfold replace.
  induction text as [|c rest IH]; intros Habs; simpl; [done|].
  apply not_elem_of_cons in Habs as [Hc Habs].
  assert ((k =? c)%N = false) as -> by by apply N.eqb_neq.
  simpl. by rewrite IH.
Qed.

Lemma sub_punct_removes text :
  Forall (fun c => Re.is_minor_punct c = false) (Re.sub_punct text).
Proof.
  unfold Re.sub_punct. apply Forall_forall. intros c Hc.
  apply list_elem_of_fmap in Hc as (x & -> & _).
  by destruct (Re.is_minor_punct x) eqn:Hx.
Qed.

Lemma Forall_sub_punct (P : char → Prop) text :
  P SP → Forall P text → Forall P (Re.sub_punct text).
Proof.
  intros HSP Hall. unfold Re.sub_punct.
  induction Hall as [|c rest Hc Hall IH]; simpl; [done|].
  constructor; [|done]. by destruct (Re.is_minor_punct c).
Qed.

Lemma sub_punct_fixed text :
  Forall (fun c => Re.is_minor_punct c = false) text →
  Re.sub_punct text = text.
Proof.
  unfold Re.sub_punct.
  induction 1 as [|c rest Hc Hall IH]; simpl; [done|].
  by rewrite Hc, IH.
Qed.

End PreprocessFacts.

(* ===================================================================== *)
(** * [preprocess_text] is idempotent *)
(* ===================================================================== *)

(** The one-character keys of [replacements] whose value does not contain
    them: the ligatures, the dashes, the ellipsis and the zero-width
    characters. *)
Definition single_keys : list char :=
  [64257; 64258; 64256; 64259; 64260; 8211; 8212; 8722; 8230;
   8203; 8204; 8205; 65279]%N.

Definition is_single_key (c : char) : bool := existsb (N.eqb c) single_keys.

Lemma replace_removes k new text : k ∉ new → k ∉ replace [k] new text.
Proof. apply PreprocessFacts.replace_from_removes. Qed.

Lemma replace_absent c old new text :
  c ∉ new → c ∉ text → c ∉ replace old new text.
Proof. apply PreprocessFacts.replace_from_absent. Qed.

Ltac not_in_literal :=
  let H := fresh in
  intros H; vm_compute in H;
  repeat (apply elem_of_cons in H as [H | H]; [discriminate H|]);
  by apply elem_of_nil in H.

Ltac key_is_gone :=
  first [ apply replace_removes; not_in_literal
        | apply replace_absent; [not_in_literal | key_is_gone] ].

(** After the loop over [replacements], none of [single_keys] is left. *)
Lemma replacements_remove_keys text :
  Forall (fun c => is_single_key c = false)
    (fold_left (fun text '(old, new) => replace old new text)
               replacements text).
Proof.
  set (result := fold_left _ replacements text).
  assert (Hgone : Forall (fun k => k ∉ result) single_keys).
  { unfold result. cbv [fold_left replacements].
    unfold single_keys.
    repeat (constructor; [cbv beta; key_is_gone|]). constructor. }
  apply Forall_forall. intros c Hc.
  destruct (is_single_key c) eqn:Hkey; [exfalso|done].
  apply existsb_exists in Hkey as (k & Hk & Heq).
  apply N.eqb_eq in Heq. subst k.
  rewrite Forall_forall in Hgone.
  apply (Hgone c); [|done]. by apply list_elem_of_In.
Qed.

Lemma Forall_replacements (P : char → Prop) table : ∀ text,
  Forall (fun on => Forall P on.2) table →
  Forall P text →
  Forall P (fold_left (fun text '(old, new) => replace old new text)
                      table text).
Proof.
  induction table as [|[old new] table IH]; intros text Htable Htext; simpl;
    [done|].
  apply Forall_cons in Htable as [Hnew Htable].
  apply IH; [done|].
  by apply PreprocessFacts.Forall_replace_from.
Qed.

(** A text without the first character of any key goes through the loop
    over [replacements] unchanged. *)
Lemma replacements_fixed text :
  Forall (fun c => is_single_key c = false ∧ Re.is_minor_punct c = false)
         text →
  fold_left (fun text '(old, new) => replace old new text) replacements text
  = text.
Proof.
  intros Hclean.
  assert (Habs : ∀ k, is_single_key k || Re.is_minor_punct k = true →
                      k ∉ text).
  { intros k Hk Hin. rewrite Forall_forall in Hclean.
    destruct (Hclean k Hin) as [H1 H2]. by rewrite H1, H2 in Hk. }
  cbv [fold_left replacements].
  by rewrite !(PreprocessFacts.replace_fixed _ _ _ text) by by apply Habs.
Qed.

Lemma preprocess_text_basic lower cfg :
  enable_enhanced_preprocessing cfg = false →
  ∀ text, preprocess_text lower cfg text = strip (Re.sub_spaces text).
Proof. intros H text. unfold preprocess_text. by rewrite H. Qed.

Lemma preprocess_text_enhanced lower cfg :
  enable_enhanced_preprocessing cfg = true →
  ∀ text,
    preprocess_text lower cfg text =
    strip (Re.sub_spaces (Re.sub_punct (Re.sub_spaces
      (fold_left (fun text '(old, new) => replace old new text)
                 replacements (lower text))))).
Proof. intros H text. unfold preprocess_text. by rewrite H. Qed.

Section Idempotence.
(** What the proof needs to know of [str.lower]: the characters it
    produces are characters it leaves alone, in any text, and it leaves
    alone the space and the characters that [replacements] writes. *)
Variable lower : str → str.
Variable stable : char → Prop.
Hypothesis lower_stable : ∀ text, Forall stable (lower text).
Hypothesis lower_fixed : ∀ text, Forall stable text → lower text = text.
Hypothesis stable_space : stable SP.
Hypothesis stable_values : Forall (fun on => Forall stable on.2) replacements.

(** What [preprocess_text] guarantees of its result in the enhanced
    mode. *)
Definition clean (c : char) : Prop :=
  stable c ∧ is_single_key c = false ∧ Re.is_minor_punct c = false.

Lemma clean_space : clean SP.
Proof. by split. Qed.

Lemma enhanced_clean text :
  Forall clean
    (strip (Re.sub_spaces (Re.sub_punct (Re.sub_spaces
       (fold_left (fun text '(old, new) => replace old new text)
                  replacements (lower text)))))).
Proof.
  set (t1 := fold_left _ replacements (lower text)).
  assert (H1 : Forall (fun c => stable c ∧ is_single_key c = false) t1).
  { apply Forall_and. split.
    - by apply Forall_replacements.
    - apply replacements_remove_keys. }
  apply PreprocessFacts.Forall_strip.
  apply PreprocessFacts.Forall_sub_spaces_from; [apply clean_space|].
  unfold clean.
  apply Forall_and. split; [|apply Forall_and; split].
  - apply PreprocessFacts.Forall_sub_punct; [done|].
    apply PreprocessFacts.Forall_sub_spaces_from; [done|].
    eapply Forall_impl; [exact H1|]. by intros c [? ?].
  - apply PreprocessFacts.Forall_sub_punct; [done|].
    apply PreprocessFacts.Forall_sub_spaces_from; [done|].
    eapply Forall_impl; [exact H1|]. by intros c [? ?].
  - apply PreprocessFacts.sub_punct_removes.
Qed.

(** A text in which whitespace occurs only as single spaces between other
    characters. *)
Definition trimmed (y : str) : Prop :=
  PreprocessFacts.single_spaced false y = true
  ∧ PreprocessFacts.no_lead y ∧ rstrip y = y.

(** C6. In both modes, [preprocess_text] applied to its own result
    returns that result, for every text, provided [str.lower] leaves alone
    the characters it produces, the space and the characters written by
    [replacements]. *)
Theorem preprocess_text_idempotent cfg text :
  preprocess_text lower cfg (preprocess_text lower cfg text)
  = preprocess_text lower cfg text.
Proof.
  destruct (enable_enhanced_preprocessing cfg) eqn:Hmode.
  - rewrite (preprocess_text_enhanced _ _ Hmode text).
    set (y := strip _).
    rewrite (preprocess_text_enhanced _ _ Hmode y).
    assert (Hclean : Forall clean y) by apply enhanced_clean.
    assert (Hspaced : trimmed y).
    2: {
      destruct Hspaced as (Hs & Hl & Hr).
      rewrite lower_fixed
        by (eapply Forall_impl; [exact Hclean|]; by intros c [? _]).
      rewrite replacements_fixed
        by (eapply Forall_impl; [exact Hclean|]; by intros c (_ & ? & ?)).
      rewrite (PreprocessFacts.sub_spaces_from_fixed y false Hs
               : Re.sub_spaces y = y).
      rewrite PreprocessFacts.sub_punct_fixed
        by (eapply Forall_impl; [exact Hclean|]; by intros c (_ & _ & ?)).
      by apply PreprocessFacts.strip_sub_spaces_fixed. }
    unfold trimmed, y. split; [|split].
    + eapply PreprocessFacts.strip_spaced.
      apply PreprocessFacts.sub_spaces_from_spaced.
    + apply PreprocessFacts.strip_no_lead.
    + apply PreprocessFacts.rstrip_idempotent.
  - rewrite !(preprocess_text_basic _ _ Hmode).
    apply PreprocessFacts.strip_sub_spaces_idempotent.
Qed.
End Idempotence.

(** ** The ASCII instance of [str.lower] *)

Definition is_ascii_upper (c : char) : bool := ((65 <=? c) && (c <=? 90))%N.

Definition ascii_stable (c : char) : Prop := is_ascii_upper c = false.

Lemma ascii_lower_stable text : Forall ascii_stable (ascii_lower text).
Proof.
  unfold ascii_lower. apply Forall_forall. intros c Hc.
  apply list_elem_of_fmap in Hc as (x & -> & _).
  unfold ascii_stable, is_ascii_upper.
  destruct ((65 <=? x) && (x <=? 90))%N eqn:Hx; [|done].
  apply andb_prop in Hx as [H1 H2].
  apply N.leb_le in H1, H2.
  apply andb_false_iff. right. apply N.leb_gt. lia.
Qed.

Lemma ascii_lower_fixed text :
  Forall ascii_stable text → ascii_lower text = text.
Proof.
  unfold ascii_lower, ascii_stable, is_ascii_upper.
  induction 1 as [|c rest Hc Hall IH]; simpl; [done|].
  by rewrite Hc, IH.
Qed.

Lemma ascii_stable_values :
  Forall (fun on : str * str => Forall ascii_stable on.2) replacements.
Proof. unfold replacements. repeat constructor. Qed.

(** A text with capitals, runs of blanks, minor punctuation, a ligature,
    an ellipsis and a final newline. *)
Definition untidy_text : str :=
  s "  The  FINAL,  Draft: " ++ [64257%N] ++ s "ne" ++ [8230%N; NL].

(** C6 at a concrete input, with the lowercasing of ASCII. *)
Lemma preprocess_text_idempotent_witness :
  preprocess_text ascii_lower comparison_config
    (preprocess_text ascii_lower comparison_config untidy_text)
  = preprocess_text ascii_lower comparison_config untidy_text
  ∧ preprocess_text ascii_lower comparison_config untidy_text
    = s "the final draft fine...".
Proof.
  split.
  - apply (preprocess_text_idempotent ascii_lower ascii_stable
             ascii_lower_stable ascii_lower_fixed).
    + reflexivity.
    + apply ascii_stable_values.
  - vm_compute. reflexivity.
Defined.

(* ===================================================================== *)
(** * [extract_content_units] *)
(* ===================================================================== *)

(** Every piece of [re.split] is a part of the text it splits. *)
Lemma split_blank_lines_from_infix text : ∀ skip cur p,
  p ∈ Re.split_blank_lines_from skip cur text →
  (∃ l1 l2, text = l1 ++ p ++ l2)
  ∨ (∃ l1 t1 t2, text = l1 ++ t1 ++ t2 ∧ p = rev cur ++ t1
                 ∧ (skip = 0 → l1 = [])).
Proof.
  induction text as [|c rest IH]; intros skip cur p Hp.
  - simpl in Hp. apply list_elem_of_singleton in Hp as ->.
    right. exists [], [], []. repeat split; by rewrite ?app_nil_r.
  - simpl in Hp. destruct skip as [|n].
    + destruct (c =? NL)%N; [destruct (Re.blank_tail rest) as [n|]|].
      * apply elem_of_cons in Hp as [-> | Hp].
        { right. exists [], [], (c :: rest).
          repeat split; by rewrite ?app_nil_r. }
        apply IH in Hp as [(l1 & l2 & ->) | (l1 & t1 & t2 & -> & -> & _)].
        { left. by exists (c :: l1), l2. }
        left. by exists (c :: l1), t2.
      * apply IH in Hp as [(l1 & l2 & ->) | (l1 & t1 & t2 & -> & -> & Hl)].
        { left. by exists (c :: l1), l2. }
        rewrite Hl by done. right. exists [], (c :: t1), t2.
        repeat split. simpl. by rewrite <- app_assoc.
      * apply IH in Hp as [(l1 & l2 & ->) | (l1 & t1 & t2 & -> & -> & Hl)].
        { left. by exists (c :: l1), l2. }
        rewrite Hl by done. right. exists [], (c :: t1), t2.
        repeat split. simpl. by rewrite <- app_assoc.
    + apply IH in Hp as [(l1 & l2 & ->) | (l1 & t1 & t2 & -> & -> & _)].
      * left. by exists (c :: l1), l2.
      * right. by exists (c :: l1), t1, t2.
Qed.

Lemma split_blank_lines_infix text p :
  p ∈ Re.split_blank_lines text → ∃ l1 l2, text = l1 ++ p ++ l2.
Proof.
  intros Hp. apply split_blank_lines_from_infix in Hp
    as [H | (l1 & t1 & t2 & -> & -> & Hl)]; [done|].
  rewrite Hl by done. by exists [], t2.
Qed.

Section Extraction.
Variable lower : str → str.
Variable cfg : Config.

(** The unit of a paragraph, if it is long enough. *)
Definition unit_of (page_num : nat) (paragraph : str) : list content_unit :=
  let processed := preprocess_text lower cfg paragraph in
  if negb (is_empty processed)
     && longer_than processed (min_meaningful_text_length cfg)
  then [(processed, page_num, paragraph)] else [].

Lemma paragraph_units_eq page_num paragraphs : ∀ content_units,
  paragraph_units lower cfg page_num content_units paragraphs
  = content_units ++ flat_map (unit_of page_num) paragraphs.
Proof.
  unfold paragraph_units.
  induction paragraphs as [|p paragraphs IH]; intros content_units; simpl.
  - by rewrite app_nil_r.
  - rewrite IH. unfold unit_of at 2.
    destruct (_ && _); simpl; [by rewrite <- app_assoc|done].
Qed.

Lemma extract_fold_eq pages : ∀ content_units,
  fold_left
    (fun content_units '(page_num, page_text) =>
       paragraph_units lower cfg page_num content_units
         (Re.split_blank_lines page_text))
    pages content_units
  = content_units
    ++ flat_map (fun '(page_num, page_text) =>
                   flat_map (unit_of page_num)
                            (Re.split_blank_lines page_text)) pages.
Proof.
  induction pages as [|[n page_text] pages IH]; intros content_units; simpl.
  - by rewrite app_nil_r.
  - rewrite IH, paragraph_units_eq. by rewrite <- app_assoc.
Qed.

(** The units are those of the paragraphs of the pages, in the order of
    the pages and of the paragraphs. *)
Lemma extract_content_units_eq text_by_page :
  extract_content_units lower cfg text_by_page
  = flat_map (fun '(page_num, page_text) =>
                flat_map (unit_of page_num)
                         (Re.split_blank_lines page_text))
             (enumerate text_by_page).
Proof. unfold extract_content_units. by rewrite extract_fold_eq. Qed.

Lemma enumerate_lookup {A} (l : list A) n x :
  (n, x) ∈ enumerate l → l !! n = Some x.
Proof.
  unfold enumerate. intros Hin.
  apply list_elem_of_lookup in Hin as [i Hi].
  apply lookup_zip_with_Some in Hi as (a & b & [= <- <-] & Ha & Hb).
  apply lookup_seq in Ha as [-> _]. done.
Qed.

(** C7. Every tuple that [extract_content_units] returns holds a
    processed text longer than [min_meaningful_text_length], which is
    [preprocess_text] of the original text of the tuple, and a page index
    at which [text_by_page] holds a page that the split divides into
    paragraphs of which the original text is one, so that the page text
    contains it. The tuples are those of the paragraphs of the pages, in
    order, and a paragraph whose processed text is not longer than the
    minimum yields no tuple. *)
Theorem extract_content_units_sound text_by_page :
  Forall
    (fun u =>
       longer_than (unit_text u) (min_meaningful_text_length cfg) = true
       ∧ (min_meaningful_text_length cfg < Z.of_nat (length (unit_text u)))%Z
       ∧ unit_text u = preprocess_text lower cfg (unit_original u)
       ∧ ∃ page_text,
           text_by_page !! unit_page u = Some page_text
           ∧ unit_original u ∈ Re.split_blank_lines page_text
           ∧ ∃ before after,
               page_text = before ++ unit_original u ++ after)
    (extract_content_units lower cfg text_by_page)
  ∧ extract_content_units lower cfg text_by_page
    = flat_map (fun '(page_num, page_text) =>
                  flat_map (unit_of page_num)
                           (Re.split_blank_lines page_text))
               (enumerate text_by_page)
  ∧ ∀ page_num paragraph,
      (Z.of_nat (length (preprocess_text lower cfg paragraph))
       <= min_meaningful_text_length cfg)%Z →
      unit_of page_num paragraph = [].
Proof.
  split; [|split; [apply extract_content_units_eq|]].
  - rewrite extract_content_units_eq. apply Forall_forall. intros u Hu.
    apply list_elem_of_In, in_flat_map in Hu as ([n page_text] & Hpage & Hu).
    apply in_flat_map in Hu as (paragraph & Hpar & Hu).
    apply list_elem_of_In in Hpage, Hpar.
    unfold unit_of in Hu.
    destruct (_ && _) eqn:Hlong; [|done].
    destruct Hu as [<- | []].
    apply andb_prop in Hlong as [_ Hlong].
    unfold unit_text, unit_page, unit_original; simpl.
    split; [done|]. split; [by apply Z.ltb_lt in Hlong|]. split; [done|].
    exists page_text. split; [by apply enumerate_lookup|].
    split; [done|]. by apply split_blank_lines_infix.
  - intros page_num paragraph Hshort. unfold unit_of, longer_than.
    assert ((min_meaningful_text_length cfg
             <? Z.of_nat (length (preprocess_text lower cfg paragraph)))%Z
            = false) as -> by lia.
    by rewrite andb_false_r.
Qed.
End Extraction.

(** Two pages; the second paragraph of the first page is too short. *)
Example extract_content_units_two_pages :
  extract_content_units ascii_lower comparison_config
    [ s "First Paragraph, page one." ++ [NL; SP; NL] ++ s "too short"
        ++ [NL; NL] ++ s "Third paragraph of page one.";
      s "Only paragraph of page two." ]
  = [ (s "first paragraph page one.", 0, s "First Paragraph, page one.");
      (s "third paragraph of page one.", 0, s "Third paragraph of page one.");
      (s "only paragraph of page two.", 1, s "Only paragraph of page two.") ].
Proof. vm_compute. reflexivity. Qed.

(* ===================================================================== *)
(** * A text that is not blank has a paragraph that is not blank *)
(* ===================================================================== *)

Lemma starts_with_app old : ∀ text,
  starts_with old text = true → text = old ++ drop (length old) text.
Proof.
  induction old as [|x old IH]; intros [|c text] H; simpl in *; try done.
  apply andb_prop in H as [Hx H]. apply N.eqb_eq in Hx. subst c.
  f_equal. by apply IH.
Qed.

Lemma split_from_nonempty sep text : ∀ skip cur,
  split_from sep skip cur text ≠ [].
Proof.
  induction text as [|c rest IH]; intros skip cur; simpl; [done|].
  destruct skip; [|apply IH].
  destruct (starts_with sep (c :: rest)); [done|apply IH].
Qed.

Lemma split_from_cons sep cur c rest :
  split_from sep 0 cur (c :: rest) =
  if starts_with sep (c :: rest)
  then rev cur :: split_from sep (length sep - 1) [] rest
  else split_from sep 0 (c :: cur) rest.
Proof. reflexivity. Qed.

Lemma join_cons sep p ps :
  ps ≠ [] → join sep (p :: ps) = p ++ sep ++ join sep ps.
Proof. by destruct ps. Qed.

(** Joining the pieces of a split with the separator gives the text
    back. *)
Lemma join_split_from x sep text : ∀ skip cur,
  join (x :: sep) (split_from (x :: sep) skip cur text)
  = rev cur ++ drop skip text.
Proof.
  induction text as [|c rest IH]; intros skip cur.
  - simpl. by rewrite drop_nil, app_nil_r.
  - destruct skip as [|n]; [|apply IH].
    rewrite split_from_cons.
    destruct (starts_with (x :: sep) (c :: rest)) eqn:Hstart.
    + rewrite join_cons by apply split_from_nonempty.
      rewrite IH. apply starts_with_app in Hstart.
      simpl in *. rewrite Nat.sub_0_r. by rewrite <- Hstart.
    + rewrite IH. simpl. by rewrite <- app_assoc.
Qed.

Lemma join_split x sep text : join (x :: sep) (split (x :: sep) text) = text.
Proof. unfold split. by rewrite join_split_from. Qed.

Definition blank (text : str) : Prop :=
  Forall (fun c => is_space c = true) text.

Lemma lstrip_blank text : blank text → lstrip text = [].
Proof.
  induction 1 as [|c rest Hc Hrest IH]; simpl; [done|]. by rewrite Hc.
Qed.

Lemma blank_lstrip text : blank (lstrip text) → blank text.
Proof.
  induction text as [|c rest IH]; simpl; [done|].
  destruct (is_space c) eqn:Hc; [|done].
  intros H. constructor; [done|by apply IH].
Qed.

Lemma blank_rstrip text : rstrip text = [] → blank text.
Proof.
  induction text as [|c rest IH]; [constructor|].
  rewrite PreprocessFacts.rstrip_cons.
  destruct (rstrip rest) as [|c' r']; [|done].
  destruct (is_space c) eqn:Hc; [|done].
  intros _. constructor; [done|by apply IH].
Qed.

Lemma strip_blank text : strip text = [] ↔ blank text.
Proof.
  unfold strip. split.
  - intros H. by apply blank_lstrip, blank_rstrip.
  - intros H. by rewrite lstrip_blank.
Qed.

Lemma blank_join sep parts :
  blank sep → Forall blank parts → blank (join sep parts).
Proof.
  intros Hsep. induction 1 as [|p ps Hp Hps IH]; [constructor|].
  destruct ps as [|p' ps]; [done|].
  rewrite join_cons by done. unfold blank in *.
  rewrite !Forall_app. auto.
Qed.

(** One of the paragraphs of a text that is not blank is not blank. *)
Lemma split_not_blank text :
  strip text ≠ [] →
  existsb (fun p => negb (is_empty (strip p))) (split [NL; NL] text) = true.
Proof.
  intros Htext.
  destruct (existsb _ _) eqn:Hex; [done|]. exfalso. apply Htext.
  apply strip_blank. rewrite <- (join_split NL [NL] text).
  apply blank_join; [by repeat constructor|].
  apply Forall_forall. intros p Hp. apply strip_blank.
  assert (Hp' : negb (is_empty (strip p)) = false).
  { destruct (negb (is_empty (strip p))) eqn:E; [|done].
    assert (existsb (fun p => negb (is_empty (strip p)))
              (split [NL; NL] text) = true); [|congruence].
    apply existsb_exists. exists p. split; [by apply list_elem_of_In|done]. }
  by destruct (strip p).
Qed.

Lemma split_sentences_from_nonempty text : ∀ in_sep prev_end cur,
  Re.split_sentences_from in_sep prev_end cur text ≠ [].
Proof.
  induction text as [|c rest IH]; intros in_sep prev_end cur; simpl; [done|].
  destruct (is_space c); [destruct in_sep; [|destruct prev_end]|];
    first [done | apply IH].
Qed.

(* ===================================================================== *)
(** * Runs on a page *)
(* ===================================================================== *)

Lemma bind_Ok {A B} (m : PageM A) (f : A → PageM B) tr a tr' :
  m tr = (Ok a, tr') → (m ≫= f) tr = f a tr'.
Proof. intros H. unfold mbind, PageM_bind. by rewrite H. Qed.

(** The queries and the annotations of a trace. *)
Definition queries_of (tr : list event) : list str :=
  omap (fun e => match e with SearchFor q => Some q | _ => None end) tr.

Definition highlights_of (tr : list event) : list Highlight :=
  omap (fun e => match e with AddHighlight h => Some h | _ => None end) tr.

Lemma queries_of_app tr1 tr2 :
  queries_of (tr1 ++ tr2) = queries_of tr1 ++ queries_of tr2.
Proof. apply omap_app. Qed.

Lemma highlights_of_app tr1 tr2 :
  highlights_of (tr1 ++ tr2) = highlights_of tr1 ++ highlights_of tr2.
Proof. apply omap_app. Qed.

Lemma queries_of_searches qs : queries_of (List.map SearchFor qs) = qs.
Proof. induction qs as [|q qs IH]; simpl; [done|]. unfold queries_of in *. simpl. by rewrite IH. Qed.

Lemma highlights_of_searches qs : highlights_of (List.map SearchFor qs) = [].
Proof. induction qs as [|q qs IH]; [done|]. exact IH. Qed.

Section PageFacts.
Variable search_for : str → list Rect.
Variable cfg : Config.

Local Abbreviation min_length := (min_meaningful_text_length cfg).

(** The texts of a list that are long enough to be searched. *)
Definition searched (texts : list str) : list str :=
  List.filter (fun t => longer_than t min_length) texts.

(** A loop that searches the long texts of a list and accumulates what it
    finds. *)
Definition accumulates (loop : list Rect → PageM (list Rect))
    (queries : list str) : Prop :=
  ∀ instances tr,
    loop instances tr
    = (Ok (instances ++ flat_map search_for queries),
       tr ++ List.map SearchFor queries).

(** The value of [min_length] after a loop that assigns it in its body,
    if the body has run. *)
Definition bound_after (ran : bool) (bound : option Z) : option Z :=
  if ran then Some (min_meaningful_text_length cfg) else bound.

Lemma sentence_loop_run sentences : ∀ instances bound tr,
  sentence_loop search_for cfg sentences instances bound tr
  = (Ok (instances
         ++ flat_map search_for (searched (List.map strip sentences)),
         bound_after (negb (is_empty sentences)) bound),
     tr ++ List.map SearchFor (searched (List.map strip sentences))).
Proof.
  unfold searched.
  induction sentences as [|sentence sentences IH];
    intros instances bound tr; simpl.
  - unfold mret, PageM_ret. by rewrite !app_nil_r.
  - destruct (longer_than (strip sentence) min_length) eqn:Hlong.
    + erewrite bind_Ok by reflexivity.
      rewrite IH. simpl. rewrite <- !app_assoc.
      by destruct sentences.
    + rewrite IH. by destruct sentences.
Qed.

Lemma chunk_loop_run chunks :
  accumulates
    (fun instances =>
       chunk_loop search_for chunks instances
                  (Some (min_meaningful_text_length cfg)))
    (searched chunks).
Proof.
  unfold accumulates, searched.
  induction chunks as [|chunk chunks IH]; intros instances tr; simpl.
  - unfold mret, PageM_ret. by rewrite !app_nil_r.
  - destruct (longer_than chunk min_length); [|apply IH].
    erewrite bind_Ok by reflexivity.
    rewrite IH. simpl. by rewrite <- !app_assoc.
Qed.

(** The queries of the paragraph tier for one paragraph: the paragraph,
    and its long sentences if the paragraph is not found. *)
Definition paragraph_queries (paragraph : str) : list str :=
  let paragraph := strip paragraph in
  if is_empty paragraph then []
  else if negb (is_empty (search_for paragraph)) then [paragraph]
  else paragraph :: searched (List.map strip (Re.split_sentences paragraph)).

(** A paragraph that is not blank and not found: its sentence loop
    runs. *)
Definition not_found (paragraph : str) : bool :=
  negb (is_empty (strip paragraph))
  && is_empty (search_for (strip paragraph)).

(** The paragraph tier goes through every paragraph, whatever it has
    found so far, and [min_length] is bound after it if some paragraph
    was not found. *)
Lemma paragraph_loop_run paragraphs : ∀ instances bound tr,
  paragraph_loop search_for cfg paragraphs instances bound tr
  = (Ok (instances
         ++ flat_map search_for (flat_map paragraph_queries paragraphs),
         bound_after (existsb not_found paragraphs) bound),
     tr ++ List.map SearchFor (flat_map paragraph_queries paragraphs)).
Proof.
  induction paragraphs as [|paragraph paragraphs IH];
    intros instances bound tr; simpl.
  - unfold mret, PageM_ret. by rewrite !app_nil_r.
  - unfold paragraph_queries at 1 3. unfold not_found at 1.
    destruct (is_empty (strip paragraph)); [apply IH|].
    erewrite bind_Ok by reflexivity.
    destruct (search_for (strip paragraph)) as [|r rs] eqn:Hsearch; simpl.
    + erewrite bind_Ok by apply sentence_loop_run.
      rewrite IH. rewrite !flat_map_app, !List.map_app. simpl.
      rewrite Hsearch. simpl. rewrite <- !app_assoc.
      assert (is_empty (Re.split_sentences (strip paragraph)) = false) as ->.
      { pose proof (split_sentences_from_nonempty (strip paragraph)
                      false false []) as Hne.
        unfold Re.split_sentences. by destruct (Re.split_sentences_from _ _ _ _). }
      simpl. by destruct (existsb not_found paragraphs).
    + rewrite IH. rewrite Hsearch. simpl.
      by rewrite <- !app_assoc.
Qed.

(** When the paragraph tier has found nothing in a text that is not
    blank, some paragraph was not found. *)
Lemma nothing_found_not_found text :
  strip text ≠ [] →
  flat_map search_for (flat_map paragraph_queries (split [NL; NL] text)) = [] →
  existsb not_found (split [NL; NL] text) = true.
Proof.
  intros Htext Hnone.
  apply split_not_blank in Htext.
  apply existsb_exists in Htext as (p & Hp & Hblank).
  apply existsb_exists. exists p. split; [done|].
  unfold not_found. rewrite Hblank. simpl.
  destruct (search_for (strip p)) as [|r rs] eqn:Hsearch; [done|].
  exfalso.
  assert (Hin : In r (flat_map search_for
                        (flat_map paragraph_queries (split [NL; NL] text)))).
  { apply in_flat_map. exists (strip p). split.
    - apply in_flat_map. exists p. split; [done|].
      unfold paragraph_queries.
      destruct (is_empty (strip p)); [done|].
      rewrite Hsearch. simpl. by left.
    - rewrite Hsearch. by left. }
  by rewrite Hnone in Hin.
Qed.
End PageFacts.

(* ===================================================================== *)
(** * The chunks of the fuzzy tier *)
(* ===================================================================== *)

(** The consecutive windows of [c] elements of a list that fit in it
    entirely: window [k] starts at index [k * c]. *)
Definition windows {A} (c : nat) (l : list A) : list (list A) :=
  List.map (fun k => slice l (k * c) (k * c + c)) (seq 0 (length l / c)).

Lemma filter_map_comm {A B} (g : B → bool) (h : A → B) l :
  List.filter g (List.map h l) = List.map h (List.filter (fun x => g (h x)) l).
Proof.
  induction l as [|x l IH]; simpl; [done|].
  destruct (g (h x)); simpl; by rewrite IH.
Qed.

Lemma filter_seq_below (g : nat → bool) count m :
  m ≤ count →
  (∀ k, k < count → g k = (k <? m)) →
  List.filter g (seq 0 count) = seq 0 m.
Proof.
  intros Hm Hg.
  replace count with (m + (count - m)) by lia.
  rewrite seq_app, List.filter_app.
  assert (List.filter g (seq 0 m) = seq 0 m) as ->.
  { apply forallb_filter_id, forallb_forall. intros k Hk.
    apply in_seq in Hk. rewrite Hg by lia. apply Nat.ltb_lt. lia. }
  assert (List.filter g (seq (0 + m) (count - m)) = []) as ->.
  { induction (seq (0 + m) (count - m)) as [|k l IH] eqn:Hl; [done|].
    clear IH.
    assert (Hall : ∀ x, In x (k :: l) → g x = false).
    { intros x Hx. rewrite <- Hl in Hx. apply in_seq in Hx.
      rewrite Hg by lia. apply Nat.ltb_ge. lia. }
    clear Hl. induction (k :: l) as [|x l' IH]; simpl; [done|].
    rewrite Hall by by left. apply IH. intros y Hy. apply Hall. by right. }
  by rewrite app_nil_r.
Qed.

Lemma window_fits c n k :
  0 < c → (k * c + c ≤ n ↔ k < n / c).
Proof.
  intros Hc. split.
  - intros H. apply (Nat.div_le_lower_bound n c (S k)); lia.
  - intros H. pose proof (Nat.Div0.mul_div_le n c). nia.
Qed.

(** The comprehension of the source builds the full windows of
    [chunk_size] words, joined by spaces. *)
Lemma chunks_of_windows words chunk_size :
  (0 < chunk_size)%Z →
  chunks_of words chunk_size
  = Ok (List.map (join [SP]) (windows (Z.to_nat chunk_size) words)).
Proof.
  intros Hpos. unfold chunks_of, py_range, windows.
  assert ((chunk_size =? 0)%Z = false) as -> by lia.
  assert ((0 <? chunk_size)%Z = true) as -> by lia.
  f_equal. set (c := Z.to_nat chunk_size). set (n := length words).
  assert (Hc : 0 < c) by lia.
  rewrite filter_map_comm.
  rewrite (filter_seq_below _ _ (n / c)).
  - rewrite !List.map_map. apply List.map_ext. intros k.
    unfold slice. do 3 f_equal; lia.
  - apply Nat2Z.inj_le. rewrite Nat2Z.inj_div, Z2Nat.id.
    + unfold c. rewrite Z2Nat.id by lia.
      apply Z.div_le_mono; lia.
    + apply Z.div_pos; lia.
  - intros k _.
    destruct (k <? n / c) eqn:Hk.
    + apply Nat.ltb_lt, (window_fits c n k Hc) in Hk. apply Z.leb_le. lia.
    + apply Nat.ltb_ge in Hk. apply Z.leb_gt.
      assert (¬ k * c + c ≤ n) by (rewrite (window_fits c n k Hc); lia).
      lia.
Qed.

Lemma windows_lookup {A} c (l : list A) k w :
  0 < c →
  windows c l !! k = Some w →
  k * c + c ≤ length l ∧ w = slice l (k * c) (k * c + c) ∧ length w = c.
Proof.
  intros Hc Hk. unfold windows in Hk.
  change ((((fun k => slice l (k * c) (k * c + c))
            <$> seq 0 (length l / c)) !! k) = Some w) in Hk.
  rewrite list_lookup_fmap in Hk.
  destruct (seq 0 (length l / c) !! k) as [k'|] eqn:Hseq; [|done].
  injection Hk as <-.
  apply lookup_seq in Hseq as [-> Hlt]. simpl.
  apply (window_fits c (length l) k Hc) in Hlt.
  repeat split; [done|].
  unfold slice. rewrite length_take, length_drop. lia.
Qed.

Section FuzzyTier.
Variable search_for : str → list Rect.
Variable cfg : Config.

(** The queries of the fuzzy tier: for each sentence longer than 20
    characters, its full windows of words that are long enough. *)
Definition fuzzy_queries (sentences : list str) : list str :=
  flat_map
    (fun sentence =>
       let sentence := strip sentence in
       if longer_than sentence 20
       then searched cfg
              (List.map (join [SP])
                 (windows (Z.to_nat (fuzzy_chunk_size cfg)) (words sentence)))
       else [])
    sentences.

Lemma fuzzy_loop_run sentences :
  (0 < fuzzy_chunk_size cfg)%Z →
  accumulates search_for
    (fun instances =>
       fuzzy_loop search_for cfg sentences instances
                  (Some (min_meaningful_text_length cfg)))
    (fuzzy_queries sentences).
Proof.
  intros Hpos. unfold accumulates.
  induction sentences as [|sentence sentences IH]; intros instances tr; simpl.
  - unfold mret, PageM_ret. by rewrite !app_nil_r.
  - destruct (longer_than (strip sentence) 20); [|apply IH].
    rewrite chunks_of_windows by done.
    erewrite bind_Ok by apply chunk_loop_run.
    rewrite IH. rewrite !flat_map_app, !List.map_app.
    by rewrite <- !app_assoc.
Qed.
End FuzzyTier.

Section FindText.
Variable search_for : str → list Rect.
Variable cfg : Config.

(** The queries of the paragraph tier and of the fuzzy tier for a text. *)
Definition tier2_queries (text : str) : list str :=
  flat_map (paragraph_queries search_for cfg) (split [NL; NL] (strip text)).

Definition tier3_queries (text : str) : list str :=
  fuzzy_queries cfg (Re.split_sentences (strip text)).

(** [find_text_on_page], tier by tier. *)
Lemma find_text_on_page_run text fuzzy tr :
  (0 < fuzzy_chunk_size cfg)%Z →
  find_text_on_page search_for cfg text fuzzy tr =
  if is_empty (strip text) then (Ok [], tr)
  else if negb (is_empty (search_for (strip text)))
  then (Ok (search_for (strip text)), tr ++ [SearchFor (strip text)])
  else
    let instances := flat_map search_for (tier2_queries text) in
    if fuzzy && is_empty instances
    then (Ok (instances ++ flat_map search_for (tier3_queries text)),
          tr ++ [SearchFor (strip text)]
             ++ List.map SearchFor (tier2_queries text)
             ++ List.map SearchFor (tier3_queries text))
    else (Ok instances,
          tr ++ [SearchFor (strip text)]
             ++ List.map SearchFor (tier2_queries text)).
Proof.
  intros Hpos. unfold find_text_on_page.
  destruct (is_empty (strip text)) eqn:Htext; [done|].
  erewrite bind_Ok by reflexivity.
  destruct (negb (is_empty (search_for (strip text)))); [done|].
  erewrite bind_Ok by apply paragraph_loop_run.
  fold (tier2_queries text). cbv zeta. cbn [fst snd]. simpl app at 1.
  destruct (fuzzy && _) eqn:Hfuzzy.
  - apply andb_prop in Hfuzzy as [_ Hnone].
    rewrite (nothing_found_not_found search_for cfg (strip text)).
    + unfold bound_after.
      rewrite (fuzzy_loop_run search_for cfg _ Hpos).
      fold (tier3_queries text). by rewrite <- !app_assoc.
    + rewrite PreprocessFacts.strip_idempotent. by destruct (strip text).
    + fold (tier2_queries text).
      by destruct (flat_map search_for (tier2_queries text)).
  - unfold mret, PageM_ret. by rewrite <- !app_assoc.
Qed.
End FindText.

(** C8. With a positive chunk size, when neither the whole text nor the
    paragraph tier finds anything and fuzzy matching is on,
    [find_text_on_page] goes on to the fuzzy tier, whose queries are, for
    each sentence longer than 20 characters, those of its full windows of
    [fuzzy_chunk_size] words that are longer than the minimum; with fuzzy
    matching off it makes none of these queries, and on a text for which
    an earlier tier finds something it does the same with fuzzy matching
    on as with fuzzy matching off. Window [k] of a list of
    words exists only when [k * chunk_size + chunk_size] is at most the
    number of words; it starts at word [k * chunk_size] and holds
    [chunk_size] words. *)
Theorem fuzzy_tier_searches_full_windows search_for cfg text tr :
  (0 < fuzzy_chunk_size cfg)%Z →
  strip text ≠ [] →
  search_for (strip text) = [] →
  flat_map search_for (tier2_queries search_for cfg text) = [] →
  let c := Z.to_nat (fuzzy_chunk_size cfg) in
  find_text_on_page search_for cfg text true tr
  = (Ok (flat_map search_for (tier3_queries cfg text)),
     tr ++ [SearchFor (strip text)]
        ++ List.map SearchFor (tier2_queries search_for cfg text)
        ++ List.map SearchFor (tier3_queries cfg text))
  ∧ find_text_on_page search_for cfg text false tr
    = (Ok [],
       tr ++ [SearchFor (strip text)]
          ++ List.map SearchFor (tier2_queries search_for cfg text))
  ∧ tier3_queries cfg text
    = flat_map
        (fun sentence =>
           if longer_than (strip sentence) 20
           then searched cfg
                  (List.map (join [SP]) (windows c (words (strip sentence))))
           else [])
        (Re.split_sentences (strip text))
  ∧ (∀ (sentence_words : list str) k w,
       windows c sentence_words !! k = Some w →
       k * c + c ≤ length sentence_words
       ∧ w = slice sentence_words (k * c) (k * c + c)
       ∧ length w = c)
  ∧ ∀ text' tr',
      search_for (strip text') ≠ []
      ∨ flat_map search_for (tier2_queries search_for cfg text') ≠ [] →
      find_text_on_page search_for cfg text' true tr'
      = find_text_on_page search_for cfg text' false tr'.
Proof.
  intros Hpos Htext Hwhole Htier2 c.
  assert (Hne : is_empty (strip text) = false)
    by by destruct (strip text).
  split; [|split; [|split; [|split]]].
  - rewrite find_text_on_page_run by done.
    by rewrite Hne, Hwhole, Htier2.
  - rewrite find_text_on_page_run by done.
    by rewrite Hne, Hwhole, Htier2.
  - done.
  - intros sentence_words k w. apply windows_lookup. lia.
  - intros text' tr' Hfound.
    rewrite !find_text_on_page_run by done.
    destruct (is_empty (strip text')); [done|].
    destruct (search_for (strip text')) as [|r rs] eqn:Hsearch; [|done].
    destruct Hfound as [Hfound | Hfound]; [done|]. simpl.
    by destruct (flat_map search_for (tier2_queries search_for cfg text')).
Qed.

(** C8 at the input of scenario D: of the eight words, only the first
    window of five is a query of the fuzzy tier. *)
Lemma fuzzy_tier_searches_full_windows_witness :
  run (find_text_on_page no_hit comparison_config eight_words true)
  = (Ok [],
     [SearchFor eight_words; SearchFor eight_words; SearchFor eight_words;
      SearchFor (s "alpha beta gamma delta epsilon")])
  ∧ tier3_queries comparison_config eight_words
    = [s "alpha beta gamma delta epsilon"]
  ∧ windows 5 (words eight_words)
    = [[s "alpha"; s "beta"; s "gamma"; s "delta"; s "epsilon"]].
Proof.
  pose proof (fuzzy_tier_searches_full_windows no_hit comparison_config
                eight_words []) as H.
  destruct H as (H1 & _ & H3 & _ & _).
  - reflexivity.
  - vm_compute. discriminate.
  - reflexivity.
  - vm_compute. reflexivity.
  - split; [|split].
    + etrans; [exact H1|]. vm_compute. reflexivity.
    + etrans; [exact H3|]. vm_compute. reflexivity.
    + vm_compute. reflexivity.
Defined.

(* ===================================================================== *)
(** * The line tier of [highlight_text_on_page] *)
(* ===================================================================== *)

(** The annotation that [add_highlight] leaves on the page. *)
Definition highlight_for (rect : Rect) (color : str) : Highlight :=
  if bool_decide (color = s "red")
  then mkHighlight rect (Some (1, 0, 0)%Z) (Some (1 # 2))
  else if bool_decide (color = s "green")
  then mkHighlight rect (Some (0, 1, 0)%Z) (Some (1 # 2))
  else mkHighlight rect None None.

Lemma add_highlight_run rect color tr :
  add_highlight rect color tr
  = (Ok (), tr ++ [AddHighlight (highlight_for rect color)]).
Proof. reflexivity. Qed.

Section LineTier.
Variable search_for : str → list Rect.
Variable cfg : Config.

(** A line that the line tier passes over: too short to be searched, or
    searched and not found. *)
Definition passed_over (line : str) : Prop :=
  longer_than (strip line) (min_meaningful_text_length cfg) = false
  ∨ search_for (strip line) = [].

Lemma line_rect_loop_run line_instances rect rects color tr :
  line_instances ≠ [] →
  line_rect_loop line_instances (rect :: rects) color tr
  = (Ok (Some true), tr ++ [AddHighlight (highlight_for rect color)]).
Proof.
  intros Hne. simpl.
  erewrite bind_Ok by apply add_highlight_run.
  by destruct line_instances.
Qed.

Lemma rect_loop_run rects color : ∀ tr,
  rect_loop rects color tr
  = (Ok (), tr ++ List.map (fun r => AddHighlight (highlight_for r color)) rects).
Proof.
  induction rects as [|r rects IH]; intros tr; simpl.
  - unfold mret, PageM_ret. by rewrite app_nil_r.
  - erewrite bind_Ok by apply add_highlight_run.
    rewrite IH. by rewrite <- app_assoc.
Qed.

Lemma line_loop_miss lines color : ∀ tr,
  Forall passed_over lines →
  line_loop search_for cfg lines color tr
  = (Ok None, tr ++ List.map SearchFor (searched cfg (List.map strip lines))).
Proof.
  induction lines as [|line lines IH]; intros tr Hall; simpl.
  - unfold mret, PageM_ret. by rewrite app_nil_r.
  - apply Forall_cons in Hall as [Hline Hall].
    destruct (longer_than (strip line) _) eqn:Hlong; [|by apply IH].
    destruct Hline as [Hshort | Hnone]; [congruence|].
    erewrite bind_Ok by reflexivity. rewrite Hnone. simpl.
    erewrite bind_Ok by reflexivity.
    rewrite IH by done. simpl. by rewrite <- app_assoc.
Qed.

(** The line tier up to and including the first line that is found. *)
Lemma line_loop_hit pre line post rect rects color : ∀ tr,
  Forall passed_over pre →
  longer_than (strip line) (min_meaningful_text_length cfg) = true →
  search_for (strip line) = rect :: rects →
  line_loop search_for cfg (pre ++ line :: post) color tr
  = (Ok (Some true),
     tr ++ List.map SearchFor (searched cfg (List.map strip pre))
        ++ [SearchFor (strip line);
            AddHighlight (highlight_for rect color)]).
Proof.
  induction pre as [|l pre IH]; intros tr Hpre Hlong Hhit; simpl.
  - rewrite Hlong.
    erewrite bind_Ok by reflexivity. rewrite Hhit.
    erewrite bind_Ok by by apply line_rect_loop_run.
    unfold mret, PageM_ret. by rewrite <- app_assoc.
  - apply Forall_cons in Hpre as [Hl Hpre].
    destruct (longer_than (strip l) _) eqn:Hlong'; [|by apply IH].
    destruct Hl as [Hshort | Hnone]; [congruence|].
    erewrite bind_Ok by reflexivity. rewrite Hnone. simpl.
    erewrite bind_Ok by reflexivity.
    rewrite IH by done. simpl. by rewrite <- app_assoc.
Qed.

(** [highlight_text_on_page] when [find_text_on_page] has found nothing
    and some line is found. *)
Lemma highlight_line_tier text color fuzzy tr tr1 pre line post rect rects :
  strip text ≠ [] →
  find_text_on_page search_for cfg text fuzzy tr = (Ok [], tr1) →
  split [NL] text = pre ++ line :: post →
  Forall passed_over pre →
  longer_than (strip line) (min_meaningful_text_length cfg) = true →
  search_for (strip line) = rect :: rects →
  highlight_text_on_page search_for cfg text color fuzzy tr
  = (Ok true,
     tr1 ++ List.map SearchFor (searched cfg (List.map strip pre))
         ++ [SearchFor (strip line);
             AddHighlight (highlight_for rect color)]).
Proof.
  intros Htext Hfind Hlines Hpre Hlong Hhit.
  unfold highlight_text_on_page.
  assert (is_empty (strip text) = false) as -> by by destruct (strip text).
  erewrite bind_Ok by exact Hfind. simpl.
  rewrite Hlines.
  by erewrite bind_Ok by by eapply line_loop_hit.
Qed.

(** [highlight_text_on_page] when [find_text_on_page] has found
    something: every rectangle is annotated. *)
Lemma highlight_found text color fuzzy tr tr1 rect rects :
  strip text ≠ [] →
  find_text_on_page search_for cfg text fuzzy tr = (Ok (rect :: rects), tr1) →
  highlight_text_on_page search_for cfg text color fuzzy tr
  = (Ok true,
     tr1 ++ List.map (fun r => AddHighlight (highlight_for r color))
                     (rect :: rects)).
Proof.
  intros Htext Hfind. unfold highlight_text_on_page.
  assert (is_empty (strip text) = false) as -> by by destruct (strip text).
  erewrite bind_Ok by exact Hfind. cbn [is_empty].
  erewrite bind_Ok by apply rect_loop_run. done.
Qed.
End LineTier.

(** The input of scenario E: three lines of which the search finds only
    the second, at two places. *)
Definition first_line : str := s "alpha beta gamma delta".
Definition second_line : str := s "epsilon zeta eta theta".
Definition third_line : str := s "iota kappa lambda mu nu".

Definition three_lines : str :=
  first_line ++ [NL] ++ second_line ++ [NL] ++ third_line.

Definition upper_rect : Rect := mkRect 72 100 300 112.
Definition lower_rect : Rect := mkRect 72 400 300 412.

Definition second_line_only (query : str) : list Rect :=
  if bool_decide (query = second_line) then [upper_rect; lower_rect] else [].

(** What [find_text_on_page] asks of the page for [three_lines]: the text
    three times, as a whole, as a paragraph and as a sentence, and the two
    full windows of five of its thirteen words. *)
Definition three_lines_queries : list str :=
  [ three_lines; three_lines; three_lines;
    s "alpha beta gamma delta epsilon"; s "zeta eta theta iota kappa" ].

(** C9. When [find_text_on_page] has found nothing, the lines of the text
    are [pre ++ line :: post], every line of [pre] is too short to be
    searched or is not found, and [line] is long enough and found,
    [highlight_text_on_page] returns [True], and the queries it makes
    after those of [find_text_on_page] are the long lines of [pre], in
    order, and then [line]: no line of [post] is searched. The paragraph
    tier, in contrast, goes through all its paragraphs and accumulates
    what each of them finds. *)
Theorem line_tier_stops_at_first_hit
    search_for cfg text color fuzzy tr tr1 pre line post :
  strip text ≠ [] →
  find_text_on_page search_for cfg text fuzzy tr = (Ok [], tr1) →
  split [NL] text = pre ++ line :: post →
  Forall (passed_over search_for cfg) pre →
  longer_than (strip line) (min_meaningful_text_length cfg) = true →
  search_for (strip line) ≠ [] →
  (∃ tr2,
     highlight_text_on_page search_for cfg text color fuzzy tr = (Ok true, tr2)
     ∧ queries_of tr2
       = queries_of tr1 ++ searched cfg (List.map strip pre) ++ [strip line])
  ∧ ∀ paragraphs instances min_length tr',
      ∃ min_length',
        paragraph_loop search_for cfg paragraphs instances min_length tr'
        = (Ok (instances
               ++ flat_map search_for
                    (flat_map (paragraph_queries search_for cfg) paragraphs),
               min_length'),
           tr' ++ List.map SearchFor
                    (flat_map (paragraph_queries search_for cfg) paragraphs)).
Proof.
  intros Htext Hfind Hlines Hpre Hlong Hhit.
  split; [|intros; eexists; apply paragraph_loop_run].
  destruct (search_for (strip line)) as [|rect rects] eqn:Hsearch; [done|].
  eexists. split.
  - by eapply highlight_line_tier.
  - rewrite !queries_of_app, queries_of_searches. done.
Qed.

(** C9 at the input of scenario E: the third line is never a query. *)
Lemma line_tier_stops_at_first_hit_witness :
  ∃ tr2,
    run (highlight_text_on_page second_line_only comparison_config
           three_lines (s "red") true) = (Ok true, tr2)
    ∧ queries_of tr2 = three_lines_queries ++ [first_line; second_line]
    ∧ third_line ∉ queries_of tr2.
Proof.
  destruct (line_tier_stops_at_first_hit second_line_only comparison_config
              three_lines (s "red") true []
              (List.map SearchFor three_lines_queries)
              [first_line] second_line [third_line])
    as [(tr2 & Hrun & Hqueries) _].
  - vm_compute. discriminate.
  - vm_compute. reflexivity.
  - vm_compute. reflexivity.
  - constructor; [by right|constructor].
  - reflexivity.
  - vm_compute. discriminate.
  - exists tr2. split; [exact Hrun|].
    assert (Hq : queries_of tr2
                 = three_lines_queries ++ [first_line; second_line]).
    { etrans; [exact Hqueries|]. vm_compute. reflexivity. }
    split; [exact Hq|].
    rewrite Hq. intros Hin. vm_compute in Hin.
    repeat (apply elem_of_cons in Hin as [Hin | Hin]; [discriminate Hin|]).
    by apply elem_of_nil in Hin.
Defined.

(** C10. Under the same conditions, when the search of [line] returns the
    rectangles [rect :: rects], the only annotation that
    [highlight_text_on_page] adds is the highlight of [rect]: it is the
    last event of the run, and none of [rects] is annotated. When
    [find_text_on_page] itself finds rectangles, every one of them is
    annotated. *)
Theorem line_tier_highlights_first_rect_only
    search_for cfg text color fuzzy tr tr1 pre line post rect rects :
  strip text ≠ [] →
  find_text_on_page search_for cfg text fuzzy tr = (Ok [], tr1) →
  split [NL] text = pre ++ line :: post →
  Forall (passed_over search_for cfg) pre →
  longer_than (strip line) (min_meaningful_text_length cfg) = true →
  search_for (strip line) = rect :: rects →
  (∃ tr2,
     highlight_text_on_page search_for cfg text color fuzzy tr = (Ok true, tr2)
     ∧ tr2 = tr1 ++ List.map SearchFor (searched cfg (List.map strip pre))
                 ++ [SearchFor (strip line);
                     AddHighlight (highlight_for rect color)]
     ∧ highlights_of tr2
       = highlights_of tr1 ++ [highlight_for rect color])
  ∧ ∀ text' tr' tr1' found more,
      strip text' ≠ [] →
      find_text_on_page search_for cfg text' fuzzy tr'
      = (Ok (found :: more), tr1') →
      highlight_text_on_page search_for cfg text' color fuzzy tr'
      = (Ok true,
         tr1' ++ List.map (fun r => AddHighlight (highlight_for r color))
                          (found :: more)).
Proof.
  intros Htext Hfind Hlines Hpre Hlong Hhit.
  split; [|intros; by apply highlight_found].
  eexists. split; [by eapply highlight_line_tier|]. split; [done|].
  rewrite !highlights_of_app, highlights_of_searches. done.
Qed.

(** C10 at the input of scenario E: of the two rectangles of the second
    line, only the first is annotated. *)
Lemma line_tier_highlights_first_rect_only_witness :
  ∃ tr2,
    run (highlight_text_on_page second_line_only comparison_config
           three_lines (s "red") true) = (Ok true, tr2)
    ∧ highlights_of tr2
      = [mkHighlight upper_rect (Some (1, 0, 0)%Z) (Some (1 # 2))].
Proof.
  destruct (line_tier_highlights_first_rect_only second_line_only
              comparison_config three_lines (s "red") true []
              (List.map SearchFor three_lines_queries)
              [first_line] second_line [third_line] upper_rect [lower_rect])
    as [(tr2 & Hrun & _ & Hhl) _].
  - vm_compute. discriminate.
  - vm_compute. reflexivity.
  - vm_compute. reflexivity.
  - constructor; [by right|constructor].
  - reflexivity.
  - reflexivity.
  - exists tr2. split; [exact Hrun|].
    etrans; [exact Hhl|]. vm_compute. reflexivity.
Defined.

(* ===================================================================== *)
(** * The normal form of a processed text *)
(* ===================================================================== *)

(** X1. In both modes the result of [preprocess_text] has no whitespace at
    either end and no whitespace other than single spaces: stripping it or
    collapsing its whitespace again changes nothing. In the enhanced mode
    it holds none of the five minor punctuation marks and none of the
    ligatures, dashes, ellipsis and zero-width characters that the table
    of replacements rewrites, whatever [str.lower] does. *)
Theorem preprocess_text_normal_form lower cfg text :
  let processed := preprocess_text lower cfg text in
  strip processed = processed
  ∧ Re.sub_spaces processed = processed
  ∧ (enable_enhanced_preprocessing cfg = true →
     Forall (fun c => Re.is_minor_punct c = false ∧ is_single_key c = false)
            processed).
Proof.
  intros processed.
  assert (Hshape : ∃ t, processed = strip (Re.sub_spaces t)).
  { unfold processed.
    destruct (enable_enhanced_preprocessing cfg) eqn:Hmode.
    - rewrite (preprocess_text_enhanced _ _ Hmode). by eexists.
    - rewrite (preprocess_text_basic _ _ Hmode). by eexists. }
  destruct Hshape as [t Ht].
  split; [|split].
  - rewrite Ht. apply PreprocessFacts.strip_idempotent.
  - rewrite Ht. apply PreprocessFacts.sub_spaces_from_fixed.
    eapply PreprocessFacts.strip_spaced.
    apply PreprocessFacts.sub_spaces_from_spaced.
  - intros Hmode. unfold processed.
    rewrite (preprocess_text_enhanced _ _ Hmode).
    eapply Forall_impl.
    + apply (enhanced_clean lower (fun _ => True)).
      * intros x. apply Forall_forall. done.
      * done.
      * apply Forall_forall. intros on _. apply Forall_forall. done.
    + intros c (_ & Hkey & Hpunct). done.
Qed.

(* ===================================================================== *)
(** * The order of the units and the pages of a document *)
(* ===================================================================== *)

(** The pages of a document that starts at page [start], and their
    units. *)
Definition pages_from {A} (start : nat) (l : list A) : list (nat * A) :=
  zip (seq start (length l)) l.

Section UnitsOfPages.
Variable lower : str → str.
Variable cfg : Config.

Definition units_from (start : nat) (text_by_page : list str)
    : list content_unit :=
  flat_map (fun '(page_num, page_text) =>
              flat_map (unit_of lower cfg page_num)
                       (Re.split_blank_lines page_text))
           (pages_from start text_by_page).

(** A unit moved [k] pages further. *)
Definition on_later_page (k : nat) (u : content_unit) : content_unit :=
  (unit_text u, k + unit_page u, unit_original u).

Lemma units_from_cons start page_text text_by_page :
  units_from start (page_text :: text_by_page)
  = flat_map (unit_of lower cfg start) (Re.split_blank_lines page_text)
    ++ units_from (S start) text_by_page.
Proof. reflexivity. Qed.

Lemma extract_content_units_from text_by_page :
  extract_content_units lower cfg text_by_page = units_from 0 text_by_page.
Proof. apply extract_content_units_eq. Qed.

Lemma units_from_app pages1 : ∀ start pages2,
  units_from start (pages1 ++ pages2)
  = units_from start pages1 ++ units_from (start + length pages1) pages2.
Proof.
  induction pages1 as [|p pages1 IH]; intros start pages2.
  - simpl. by rewrite Nat.add_0_r.
  - change ((p :: pages1) ++ pages2) with (p :: (pages1 ++ pages2)).
    rewrite !units_from_cons, IH, <- app_assoc.
    do 3 f_equal. simpl. lia.
Qed.

Lemma unit_of_later k page_num paragraph :
  unit_of lower cfg (k + page_num) paragraph
  = List.map (on_later_page k) (unit_of lower cfg page_num paragraph).
Proof. unfold unit_of. by destruct (_ && _). Qed.

Lemma units_from_later k text_by_page : ∀ start,
  units_from (k + start) text_by_page
  = List.map (on_later_page k) (units_from start text_by_page).
Proof.
  induction text_by_page as [|p text_by_page IH]; intros start; [done|].
  rewrite !units_from_cons, List.map_app.
  rewrite <- IH, Nat.add_succ_r. f_equal.
  induction (Re.split_blank_lines p) as [|paragraph paragraphs IHp]; [done|].
  simpl. by rewrite List.map_app, IHp, unit_of_later.
Qed.

Lemma unit_of_page page_num paragraph u :
  u ∈ unit_of lower cfg page_num paragraph → unit_page u = page_num.
Proof.
  unfold unit_of. destruct (_ && _); [|by intros ?%elem_of_nil].
  by intros ->%list_elem_of_singleton.
Qed.

Lemma units_from_pages text_by_page : ∀ start u,
  u ∈ units_from start text_by_page →
  start ≤ unit_page u < start + length text_by_page.
Proof.
  induction text_by_page as [|p text_by_page IH]; intros start u Hu.
  - by apply elem_of_nil in Hu.
  - rewrite units_from_cons in Hu. apply elem_of_app in Hu as [Hu | Hu].
    + apply list_elem_of_In, in_flat_map in Hu as (paragraph & _ & Hu).
      apply list_elem_of_In, unit_of_page in Hu. simpl. lia.
    + apply IH in Hu. simpl. lia.
Qed.
End UnitsOfPages.

(** A list of page numbers that never goes back. *)
Definition ascending (l : list nat) : Prop :=
  ∀ i j x y, i ≤ j → l !! i = Some x → l !! j = Some y → x ≤ y.

Lemma ascending_app l1 l2 :
  ascending l1 → ascending l2 →
  (∀ x y, x ∈ l1 → y ∈ l2 → x ≤ y) →
  ascending (l1 ++ l2).
Proof.
  intros H1 H2 H12 i j x y Hij Hi Hj.
  apply lookup_app_Some in Hi as [Hi | [Hli Hi]];
    apply lookup_app_Some in Hj as [Hj | [Hlj Hj]].
  - by eapply H1.
  - apply H12; apply list_elem_of_lookup; eauto.
  - apply lookup_lt_Some in Hj. lia.
  - eapply (H2 (i - length l1) (j - length l1)); [lia|done|done].
Qed.

Lemma units_from_ascending lower cfg text_by_page : ∀ start,
  ascending (List.map unit_page (units_from lower cfg start text_by_page)).
Proof.
  induction text_by_page as [|p text_by_page IH]; intros start.
  - intros i j x y _ Hi. done.
  - rewrite units_from_cons, List.map_app. apply ascending_app.
    + intros i j x y _ Hi Hj.
      assert (Hpage : ∀ k z,
                List.map unit_page
                  (flat_map (unit_of lower cfg start)
                            (Re.split_blank_lines p)) !! k = Some z →
                z = start).
      { intros k z Hk.
        apply list_elem_of_lookup_2, list_elem_of_In, in_map_iff in Hk
          as (u & <- & Hu).
        apply in_flat_map in Hu as (paragraph & _ & Hu).
        by apply list_elem_of_In, unit_of_page in Hu. }
      apply Hpage in Hi, Hj. lia.
    + apply IH.
    + intros x y Hx Hy.
      apply list_elem_of_In, in_map_iff in Hx as (u & <- & Hu).
      apply list_elem_of_In, in_map_iff in Hy as (v & <- & Hv).
      apply in_flat_map in Hu as (paragraph & _ & Hu).
      apply list_elem_of_In, unit_of_page in Hu.
      apply list_elem_of_In, units_from_pages in Hv. lia.
Qed.

(** X2. The units that [extract_content_units] returns are in the order
    of the pages: the page index never decreases along the list, and it
    is always the index of a page of the document. *)
Theorem extract_content_units_in_page_order lower cfg text_by_page :
  let units := extract_content_units lower cfg text_by_page in
  (∀ i j u v, i ≤ j → units !! i = Some u → units !! j = Some v →
              unit_page u ≤ unit_page v)
  ∧ Forall (fun u => unit_page u < length text_by_page) units.
Proof.
  intros units. unfold units. rewrite extract_content_units_from. split.
  - intros i j u v Hij Hi Hj.
    apply (units_from_ascending lower cfg text_by_page 0 i j); [done| |].
    + change ((unit_page <$> units_from lower cfg 0 text_by_page) !! i
              = Some (unit_page u)).
      by rewrite list_lookup_fmap, Hi.
    + change ((unit_page <$> units_from lower cfg 0 text_by_page) !! j
              = Some (unit_page v)).
      by rewrite list_lookup_fmap, Hj.
  - apply Forall_forall. intros u Hu.
    apply units_from_pages in Hu. lia.
Qed.

(** X3. Extraction works page by page: the units of two lists of pages
    put one after the other are the units of the first list followed by
    the units of the second, moved further by the number of pages of the
    first. No paragraph is built across a page boundary. *)
Theorem extract_content_units_app lower cfg pages1 pages2 :
  extract_content_units lower cfg (pages1 ++ pages2)
  = extract_content_units lower cfg pages1
    ++ List.map (on_later_page (length pages1))
                (extract_content_units lower cfg pages2).
Proof.
  rewrite !extract_content_units_from, units_from_app.
  f_equal. simpl.
  rewrite <- (units_from_later lower cfg (length pages1) pages2 0).
  by rewrite Nat.add_0_r.
Qed.

(* ===================================================================== *)
(** * What a search of a page returns, and when it raises *)
(* ===================================================================== *)

(** Whether some sentence is long enough for the fuzzy tier. *)
Definition has_long_sentence (sentences : list str) : bool :=
  existsb (fun sentence => longer_than (strip sentence) 20) sentences.

Lemma chunks_of_negative words chunk_size :
  (chunk_size < 0)%Z → chunks_of words chunk_size = Ok [].
Proof.
  intros Hneg. unfold chunks_of, py_range.
  assert ((chunk_size =? 0)%Z = false) as -> by lia.
  assert ((0 <? chunk_size)%Z = false) as -> by lia.
  assert (Z.to_nat ((0 - Z.of_nat (length words) - chunk_size - 1)
                    / - chunk_size) = 0) as ->.
  { assert ((0 - Z.of_nat (length words) - chunk_size - 1) / - chunk_size
            < 1)%Z; [|lia].
    apply Z.div_lt_upper_bound; lia. }
  done.
Qed.

Section FindFacts.
Variable search_for : str → list Rect.
Variable cfg : Config.

(** With a chunk size of 0 the fuzzy tier raises at its first long
    sentence, before any query. *)
Lemma fuzzy_loop_zero sentences :
  fuzzy_chunk_size cfg = 0%Z →
  ∀ instances bound tr,
    fuzzy_loop search_for cfg sentences instances bound tr
    = if has_long_sentence sentences then (Raise ValueError, tr)
      else (Ok instances, tr).
Proof.
  intros Hzero.
  induction sentences as [|sentence sentences IH]; intros instances bound tr;
    simpl; [done|].
  destruct (longer_than (strip sentence) 20); simpl; [|apply IH].
  by rewrite Hzero.
Qed.

(** With a negative chunk size it has no chunk to search. *)
Lemma fuzzy_loop_negative sentences :
  (fuzzy_chunk_size cfg < 0)%Z →
  ∀ instances bound tr,
    fuzzy_loop search_for cfg sentences instances bound tr
    = (Ok instances, tr).
Proof.
  intros Hneg.
  induction sentences as [|sentence sentences IH]; intros instances bound tr;
    simpl; [done|].
  destruct (longer_than (strip sentence) 20); [|apply IH].
  rewrite chunks_of_negative by done. simpl.
  erewrite bind_Ok by reflexivity. apply IH.
Qed.

(** [find_text_on_page] up to the fuzzy tier, for every configuration:
    when the fuzzy tier starts, [min_length] is bound. *)
Lemma find_text_on_page_tiers text fuzzy tr :
  find_text_on_page search_for cfg text fuzzy tr =
  if is_empty (strip text) then (Ok [], tr)
  else if negb (is_empty (search_for (strip text)))
  then (Ok (search_for (strip text)), tr ++ [SearchFor (strip text)])
  else
    let instances :=
      flat_map search_for (tier2_queries search_for cfg text) in
    let tr2 :=
      tr ++ [SearchFor (strip text)]
         ++ List.map SearchFor (tier2_queries search_for cfg text) in
    if fuzzy && is_empty instances
    then fuzzy_loop search_for cfg (Re.split_sentences (strip text))
           instances (Some (min_meaningful_text_length cfg)) tr2
    else (Ok instances, tr2).
Proof.
  unfold find_text_on_page.
  destruct (is_empty (strip text)) eqn:Htext; [done|].
  erewrite bind_Ok by reflexivity.
  destruct (negb (is_empty (search_for (strip text)))); [done|].
  erewrite bind_Ok by apply paragraph_loop_run.
  fold (tier2_queries search_for cfg text). cbv zeta. cbn [fst snd].
  simpl app at 1.
  destruct (fuzzy && _) eqn:Hfuzzy.
  - apply andb_prop in Hfuzzy as [_ Hnone].
    rewrite (nothing_found_not_found search_for cfg (strip text)).
    + unfold bound_after. by rewrite <- !app_assoc.
    + rewrite PreprocessFacts.strip_idempotent. by destruct (strip text).
    + fold (tier2_queries search_for cfg text).
      by destruct (flat_map search_for (tier2_queries search_for cfg text)).
  - unfold mret, PageM_ret. by rewrite <- !app_assoc.
Qed.

(** The queries of a run with a positive chunk size. *)
Definition find_queries (text : str) (fuzzy : bool) : list str :=
  if is_empty (strip text) then []
  else if negb (is_empty (search_for (strip text))) then [strip text]
  else if fuzzy
          && is_empty (flat_map search_for (tier2_queries search_for cfg text))
  then strip text :: tier2_queries search_for cfg text
                  ++ tier3_queries cfg text
  else strip text :: tier2_queries search_for cfg text.

Lemma find_text_on_page_found text fuzzy tr :
  (0 < fuzzy_chunk_size cfg)%Z →
  find_text_on_page search_for cfg text fuzzy tr
  = (Ok (flat_map search_for (find_queries text fuzzy)),
     tr ++ List.map SearchFor (find_queries text fuzzy)).
Proof.
  intros Hpos. rewrite find_text_on_page_run by done. unfold find_queries.
  destruct (is_empty (strip text)); [by rewrite app_nil_r|].
  destruct (search_for (strip text)) as [|r rs] eqn:Hwhole; simpl.
  - destruct (fuzzy && _); simpl; rewrite Hwhole; simpl.
    + by rewrite flat_map_app, List.map_app.
    + done.
  - by rewrite Hwhole, app_nil_r.
Qed.
End FindFacts.

(** X4. With a positive chunk size [find_text_on_page] never raises and
    only searches: it adds its queries to the trace, and no annotation,
    and what it returns is exactly what these queries found, in their
    order. A blank text makes no query and returns the empty list; for
    any other text the first query is the stripped text. *)
Theorem find_text_on_page_returns_what_it_found
    search_for cfg text fuzzy tr :
  (0 < fuzzy_chunk_size cfg)%Z →
  ∃ queries,
    find_text_on_page search_for cfg text fuzzy tr
    = (Ok (flat_map search_for queries), tr ++ List.map SearchFor queries)
    ∧ (strip text = [] → queries = [])
    ∧ (strip text ≠ [] → ∃ later, queries = strip text :: later).
Proof.
  intros Hpos. exists (find_queries search_for cfg text fuzzy).
  split; [by apply find_text_on_page_found|].
  unfold find_queries. split.
  - by intros ->.
  - intros Htext. destruct (strip text) as [|c rest] eqn:Hstrip; [done|].
    cbn [is_empty].
    destruct (negb _); [by eexists|]. destruct (fuzzy && _); by eexists.
Qed.

Lemma find_text_on_page_returns_what_it_found_witness :
  ∃ queries,
    run (find_text_on_page second_line_only comparison_config
           (NL :: second_line ++ [SP]) true)
    = (Ok (flat_map second_line_only queries), List.map SearchFor queries)
    ∧ queries = [second_line].
Proof.
  destruct (find_text_on_page_returns_what_it_found second_line_only
              comparison_config (NL :: second_line ++ [SP]) true [])
    as (queries & Hrun & _ & Hfirst).
  - reflexivity.
  - exists queries. split; [exact Hrun|].
    unfold run in Hrun. vm_compute in Hrun.
    destruct Hfirst as [later Hlater]; [vm_compute; discriminate|].
    rewrite Hlater in Hrun |- *. vm_compute in Hlater.
    destruct later as [|q later]; [vm_compute; reflexivity|].
    vm_compute in Hrun. discriminate Hrun.
Defined.

(** [find_text_on_page] raises only [ValueError], and only with a chunk
    size of 0. *)
Lemma find_text_on_page_raise search_for cfg text fuzzy tr e tr' :
  find_text_on_page search_for cfg text fuzzy tr = (Raise e, tr') →
  e = ValueError ∧ fuzzy_chunk_size cfg = 0%Z.
Proof.
  rewrite find_text_on_page_tiers.
  destruct (is_empty (strip text)); [done|].
  destruct (negb (is_empty (search_for (strip text)))); [done|].
  cbv zeta. destruct (fuzzy && _); [|done].
  destruct (Z.lt_trichotomy (fuzzy_chunk_size cfg) 0) as [Hneg | [Hzero | Hpos]].
  - by rewrite fuzzy_loop_negative.
  - rewrite fuzzy_loop_zero by done.
    destruct (has_long_sentence _); [|done]. by intros [= <- <-].
  - by rewrite (fuzzy_loop_run search_for cfg _ Hpos).
Qed.

(** X5. [find_text_on_page] raises in one situation only: the chunk size
    is 0, fuzzy matching is on, the text is not blank, neither the whole
    text nor the paragraph tier has found anything, and some sentence is
    longer than 20 characters. The exception is then the [ValueError] of
    [range], and the queries of the first two tiers have been made. In
    particular the read of [min_length] in the fuzzy tier never fails:
    the name is bound whenever that tier runs. *)
Theorem find_text_on_page_raises search_for cfg text fuzzy tr e tr' :
  find_text_on_page search_for cfg text fuzzy tr = (Raise e, tr')
  ↔ e = ValueError
    ∧ fuzzy_chunk_size cfg = 0%Z
    ∧ fuzzy = true
    ∧ strip text ≠ []
    ∧ flat_map search_for (strip text :: tier2_queries search_for cfg text)
      = []
    ∧ has_long_sentence (Re.split_sentences (strip text)) = true
    ∧ tr' = tr ++ List.map SearchFor
                    (strip text :: tier2_queries search_for cfg text).
Proof.
  rewrite find_text_on_page_tiers.
  destruct (strip text) as [|c rest] eqn:Hstrip; cbn [is_empty].
  { split; [done|]. by intros (_ & _ & _ & ? & _). }
  rewrite <- Hstrip. cbn [flat_map].
  destruct (search_for (strip text)) as [|r rs] eqn:Hwhole; cbn [is_empty negb].
  2: { split; [done|]. by intros (_ & _ & _ & _ & ? & _). }
  cbv zeta. simpl app at 3.
  destruct fuzzy; cbn [andb].
  2: { split; [done|]. by intros (_ & _ & ? & _). }
  destruct (flat_map search_for (tier2_queries search_for cfg text))
    as [|r rs] eqn:Htier2; cbn [is_empty].
  2: { split; [done|]. by intros (_ & _ & _ & _ & ? & _). }
  destruct (Z.lt_trichotomy (fuzzy_chunk_size cfg) 0) as [Hneg | [Hzero | Hpos]].
  - rewrite fuzzy_loop_negative by done.
    split; [done|]. intros (_ & ? & _). lia.
  - rewrite fuzzy_loop_zero by done.
    destruct (has_long_sentence _).
    + split.
      * intros [= <- <-]. repeat split; try done. by rewrite Hstrip.
      * intros (-> & _ & _ & _ & _ & _ & ->). done.
    + split; [done|]. by intros (_ & _ & _ & _ & _ & ? & _).
  - rewrite (fuzzy_loop_run search_for cfg _ Hpos).
    split; [done|]. intros (_ & ? & _). lia.
Qed.

Lemma find_text_on_page_raises_witness :
  run (find_text_on_page no_hit out_of_range_config eight_words true)
  = (Raise ValueError,
     [SearchFor eight_words; SearchFor eight_words; SearchFor eight_words]).
Proof.
  apply (find_text_on_page_raises no_hit out_of_range_config eight_words
           true [] ValueError).
  repeat split; try reflexivity. vm_compute. discriminate.
Defined.

(* ===================================================================== *)
(** * What [highlight_text_on_page] leaves on the page *)
(* ===================================================================== *)

(** An annotation in the colour asked for, over a rectangle that the
    search of the page returned for one of the queries of a trace. *)
Definition marks_a_hit (search_for : str → list Rect) (color : str)
    (tr : list event) (h : Highlight) : Prop :=
  ∃ rect query,
    h = highlight_for rect color ∧ query ∈ queries_of tr
    ∧ rect ∈ search_for query.

Section HighlightFacts.
Variable search_for : str → list Rect.
Variable cfg : Config.

Lemma line_loop_outcome lines color : ∀ tr,
  ∃ returned tr',
    line_loop search_for cfg lines color tr = (Ok returned, tr ++ tr')
    ∧ ((returned = None ∧ highlights_of tr' = [])
       ∨ (returned = Some true
          ∧ ∃ h, highlights_of tr' = [h]
                 ∧ marks_a_hit search_for color tr' h)).
Proof.
  induction lines as [|line lines IH]; intros tr; simpl.
  - exists None, []. rewrite app_nil_r. split; [done|by left].
  - destruct (longer_than (strip line) _) eqn:Hlong; [|apply IH].
    erewrite bind_Ok by reflexivity.
    destruct (search_for (strip line)) as [|rect rects] eqn:Hsearch.
    + simpl. erewrite bind_Ok by reflexivity.
      destruct (IH (tr ++ [SearchFor (strip line)]))
        as (returned & tr' & Hrun & Hcases).
      exists returned, (SearchFor (strip line) :: tr').
      split; [by rewrite Hrun, <- app_assoc|].
      destruct Hcases as [[-> Hnone] | (-> & h & Hone & rect & q & Hh & Hq & Hr)].
      * by left.
      * right. split; [done|]. exists h. split; [done|].
        exists rect, q. split; [done|]. split; [|done].
        change (q ∈ strip line :: queries_of tr'). by right.
    + erewrite bind_Ok by by apply line_rect_loop_run.
      exists (Some true),
             [SearchFor (strip line); AddHighlight (highlight_for rect color)].
      split; [by rewrite <- app_assoc|].
      right. split; [done|]. eexists. split; [done|].
      exists rect, (strip line). split; [done|]. split.
      * change (strip line ∈ [strip line]). by left.
      * rewrite Hsearch. by left.
Qed.
End HighlightFacts.

Lemma highlights_of_added color rects :
  highlights_of
    (List.map (fun r => AddHighlight (highlight_for r color)) rects)
  = List.map (fun r => highlight_for r color) rects.
Proof.
  induction rects as [|r rects IH]; [done|].
  simpl. unfold highlights_of. simpl. f_equal. exact IH.
Qed.

(** With a positive chunk size [highlight_text_on_page] returns, and
    its annotations are in the colour asked for. *)
Lemma highlight_text_on_page_ok search_for cfg text color fuzzy tr :
  (0 < fuzzy_chunk_size cfg)%Z →
  ∃ found tr',
    highlight_text_on_page search_for cfg text color fuzzy tr
    = (Ok found, tr ++ tr')
    ∧ Forall (fun h => ∃ rect, h = highlight_for rect color)
             (highlights_of tr').
Proof.
  intros Hpos. unfold highlight_text_on_page.
  destruct (is_empty (strip text)).
  { exists false, []. rewrite app_nil_r. by split. }
  erewrite bind_Ok by by apply find_text_on_page_found.
  set (queries := find_queries search_for cfg text fuzzy).
  destruct (is_empty (flat_map search_for queries)).
  - destruct (line_loop_outcome search_for cfg (split [NL] text) color
                (tr ++ List.map SearchFor queries))
      as (returned & tr' & Hrun & Hcases).
    erewrite bind_Ok by exact Hrun.
    exists (match returned with Some b => b | None => false end),
           (List.map SearchFor queries ++ tr').
    split; [destruct returned; by rewrite <- app_assoc|].
    rewrite highlights_of_app, highlights_of_searches. simpl.
    destruct Hcases as [[_ ->] | (_ & h & -> & rect & _ & -> & _)];
      [done|].
    constructor; [by exists rect|done].
  - erewrite bind_Ok by apply rect_loop_run.
    eexists true, (List.map SearchFor queries ++ _).
    split; [by rewrite <- app_assoc|].
    rewrite highlights_of_app, highlights_of_searches, highlights_of_added.
    apply Forall_forall. intros h Hh.
    apply list_elem_of_fmap in Hh as (r & -> & _). by exists r.
Qed.

(** X6. With a positive chunk size [highlight_text_on_page] never raises,
    and it only adds to the trace of the page. It returns [True] exactly
    when it has added at least one annotation. Every annotation it adds
    is in the colour asked for and lies over a rectangle that the search
    of the page returned for a query of this call. A blank text leaves
    the page untouched: no query, no annotation, [False]. *)
Theorem highlight_text_on_page_marks_hits
    search_for cfg text color fuzzy tr :
  (0 < fuzzy_chunk_size cfg)%Z →
  ∃ found tr',
    highlight_text_on_page search_for cfg text color fuzzy tr
    = (Ok found, tr ++ tr')
    ∧ (found = true ↔ highlights_of tr' ≠ [])
    ∧ Forall (marks_a_hit search_for color tr') (highlights_of tr')
    ∧ (strip text = [] → found = false ∧ tr' = []).
Proof.
  intros Hpos. unfold highlight_text_on_page.
  destruct (strip text) as [|c rest] eqn:Hstrip; cbn [is_empty].
  { exists false, []. rewrite app_nil_r. repeat split; try done. }
  erewrite bind_Ok by by apply find_text_on_page_found.
  set (queries := find_queries search_for cfg text fuzzy).
  destruct (flat_map search_for queries) as [|rect rects] eqn:Hfound;
    cbn [is_empty].
  - destruct (line_loop_outcome search_for cfg (split [NL] text) color
                (tr ++ List.map SearchFor queries))
      as (returned & tr' & Hrun & Hcases).
    erewrite bind_Ok by exact Hrun.
    destruct Hcases as [[-> Hnone] | (-> & h & Hone & rect & q & Hh & Hq & Hr)].
    + exists false, (List.map SearchFor queries ++ tr').
      rewrite highlights_of_app, highlights_of_searches, Hnone.
      split; [by rewrite <- app_assoc|]. repeat split; try done.
    + exists true, (List.map SearchFor queries ++ tr').
      rewrite highlights_of_app, highlights_of_searches, Hone.
      split; [by rewrite <- app_assoc|]. repeat split; try done.
      constructor; [|done].
      exists rect, q. split; [done|]. split; [|done].
      rewrite queries_of_app. apply elem_of_app. by right.
  - erewrite bind_Ok by apply rect_loop_run.
    exists true,
      (List.map SearchFor queries
       ++ List.map (fun r => AddHighlight (highlight_for r color))
                   (rect :: rects)).
    rewrite highlights_of_app, highlights_of_searches, highlights_of_added.
    split; [by rewrite <- app_assoc|]. repeat split; try done.
    apply Forall_forall. intros h Hh.
    apply list_elem_of_fmap in Hh as (r & -> & Hr).
    rewrite <- Hfound in Hr.
    apply list_elem_of_In, in_flat_map in Hr as (q & Hq & Hr).
    exists r, q. split; [done|]. split; [|by apply list_elem_of_In].
    rewrite queries_of_app, queries_of_searches. apply elem_of_app. left.
    by apply list_elem_of_In.
Qed.

Lemma highlight_text_on_page_marks_hits_witness :
  ∃ found tr',
    run (highlight_text_on_page second_line_only comparison_config
           three_lines (s "red") true) = (Ok found, tr')
    ∧ found = true
    ∧ highlights_of tr'
      = [mkHighlight upper_rect (Some (1, 0, 0)%Z) (Some (1 # 2))].
Proof.
  destruct (highlight_text_on_page_marks_hits second_line_only
              comparison_config three_lines (s "red") true [])
    as (found & tr' & Hrun & _ & _ & _).
  - reflexivity.
  - exists found, tr'. split; [exact Hrun|].
    unfold run in Hrun. vm_compute in Hrun.
    injection Hrun as <- <-. split; vm_compute; reflexivity.
Defined.

(* ===================================================================== *)
(** * Comparing with a document that has no unit *)
(* ===================================================================== *)

Lemma match_fold_no_candidates cfg rest : ∀ st,
  unmatched_new st = [] →
  fold_left (match_step cfg) rest st
  = {| removed := removed st ++ List.map snd rest;
       matched_pairs := matched_pairs st;
       unmatched_new := [];
       old_matched := old_matched st |}.
Proof.
  induction rest as [|[i u] rest IH]; intros st Hnone; cbn [fold_left].
  - simpl. rewrite app_nil_r, <- Hnone. by destruct st.
  - rewrite IH; rewrite match_step_eq, Hnone; simpl; [|done].
    by rewrite <- app_assoc.
Qed.

(** X7. When the new document has no unit, every old unit is reported
    removed, in order, nothing is added and no pair is recorded; when the
    old document has no unit, every new unit is reported added, in order,
    and nothing is removed. In both cases the three metrics that count
    units are 0. *)
Theorem compare_content_units_empty_side cfg units :
  let gone := compare_content_units cfg units [] in
  let new := compare_content_units cfg [] units in
  (gone.1.1 = units ∧ gone.1.2 = []
   ∧ matched_content_pairs gone.2 = []
   ∧ avg_content_similarity gone.2 = 0%Q
   ∧ document_similarity gone.2 = 0%Q
   ∧ (retention_rate gone.2 == 0)%Q)
  ∧ (new.1.1 = [] ∧ new.1.2 = units
     ∧ matched_content_pairs new.2 = []
     ∧ avg_content_similarity new.2 = 0%Q
     ∧ document_similarity new.2 = 0%Q
     ∧ retention_rate new.2 = 0%Q).
Proof.
  intros gone new. split; [|done].
  assert (Hst : match_units cfg units []
                = {| removed := units; matched_pairs := [];
                     unmatched_new := [];
                     old_matched := replicate (length units) false |}).
  { unfold match_units. rewrite match_fold_no_candidates by done.
    simpl. by rewrite enumerate_snd. }
  unfold gone, compare_content_units. rewrite Hst. simpl.
  repeat split; try done.
  - by rewrite andb_false_r.
  - destruct (0 <? length units); [|done].
    unfold Qdiv. ring.
Qed.

(* ===================================================================== *)
(** * The pairs of a comparison *)
(* ===================================================================== *)

(** What a recorded pair is: an old unit and a candidate, with the ratio
    of their texts, which is at the threshold or above 0.7. *)
Definition pair_of (cfg : Config) (candidates : list content_unit)
    (p : matched_pair) : Prop :=
  pair_new p ∈ candidates
  ∧ pair_similarity p
    = Difflib.ratio (unit_text (pair_old p)) (unit_text (pair_new p))
  ∧ ((exact_match_threshold cfg <= pair_similarity p)%Q
     ∨ (7 # 10 < pair_similarity p)%Q).

Lemma match_step_pairs cfg st i u :
  let st' := match_step cfg st (i, u) in
  matched_pairs st' = matched_pairs st
  ∨ ∃ p, matched_pairs st' = matched_pairs st ++ [p]
         ∧ pair_old p = u ∧ pair_of cfg (unmatched_new st) p.
Proof.
  rewrite match_step_eq.
  destruct (scan cfg (unit_text u) 0 (unmatched_new st) (-1) 0%Q)
    as [j sm | bi bs] eqn:Hscan.
  - apply scan_Break_inv in Hscan
      as (pre & c & post & Hun & -> & -> & Hc & Hpre).
    simpl. right. eexists. split; [done|]. split; [done|].
    rewrite Hun, list_lookup_total_middle by done.
    unfold pair_of, pair_new, pair_old, pair_similarity; simpl.
    split; [set_solver|]. split; [done|]. by left.
  - apply scan_Exhausted_inv in Hscan as [_ Hbest].
    destruct ((0 <=? bi)%Z && Qlt_bool (7 # 10) bs) eqn:Hpartial; simpl;
      [|by left].
    apply andb_prop in Hpartial as [Hbi Hbs]. apply Z.leb_le in Hbi.
    apply Qlt_bool_iff in Hbs.
    destruct Hbest as [[-> ->] | (n & c & Hn & -> & ->)]; [lia|].
    right. eexists. split; [done|]. split; [done|].
    rewrite Nat2Z.id. simpl.
    rewrite (list_lookup_total_correct _ _ _ Hn).
    unfold pair_of, pair_new, pair_old, pair_similarity; simpl.
    split; [apply list_elem_of_lookup; eauto|]. split; [done|]. by right.
Qed.

Lemma pair_of_sublist cfg l1 l2 p :
  l1 `sublist_of` l2 → pair_of cfg l1 p → pair_of cfg l2 p.
Proof.
  intros Hsub (Hin & Hsim & Hhigh). split; [|done].
  by eapply elem_of_sublist.
Qed.

Lemma match_fold_pairs cfg rest : ∀ st,
  ∃ later,
    matched_pairs (fold_left (match_step cfg) rest st)
    = matched_pairs st ++ later
    ∧ List.map pair_old later `sublist_of` List.map snd rest
    ∧ Forall (pair_of cfg (unmatched_new st)) later.
Proof.
  induction rest as [|[i u] rest IH]; intros st; cbn [fold_left].
  - exists []. simpl. by rewrite app_nil_r.
  - destruct (IH (match_step cfg st (i, u))) as (later & Hlater & Hsub & Hall).
    destruct (match_step_later cfg st (i, u)) as [Hun _].
    assert (Hall' : Forall (pair_of cfg (unmatched_new st)) later).
    { eapply Forall_impl; [exact Hall|].
      intros p Hp. by eapply pair_of_sublist. }
    destruct (match_step_pairs cfg st i u) as [Hsame | (p & Hp & Hold & Hpair)].
    + exists later. rewrite Hlater, Hsame.
      split; [done|]. split; [by apply sublist_cons|done].
    + exists (p :: later). rewrite Hlater, Hp, <- app_assoc.
      split; [done|]. split; [|by constructor].
      simpl. rewrite Hold. by apply sublist_skip.
Qed.

(** X8. Every pair of [matched_content_pairs] joins a unit of the old
    document with a unit of the new one and carries the ratio of their
    two processed texts, which is at least the threshold or above 0.7.
    The old units of the pairs are old units of the input in their order,
    each position used at most once: an old unit is never paired twice,
    whereas a new unit can be. *)
Theorem matched_pairs_are_real cfg old_units new_units :
  let pairs :=
    matched_content_pairs (compare_content_units cfg old_units new_units).2 in
  Forall
    (fun p =>
       pair_old p ∈ old_units ∧ pair_new p ∈ new_units
       ∧ pair_similarity p
         = Difflib.ratio (unit_text (pair_old p)) (unit_text (pair_new p))
       ∧ ((exact_match_threshold cfg <= pair_similarity p)%Q
          ∨ (7 # 10 < pair_similarity p)%Q))
    pairs
  ∧ List.map pair_old pairs `sublist_of` old_units.
Proof.
  intros pairs.
  destruct (match_fold_pairs cfg (enumerate old_units)
              (initial_state old_units new_units))
    as (later & Hlater & Hsub & Hall).
  rewrite enumerate_snd in Hsub. simpl in Hlater, Hall.
  assert (Hpairs : pairs = later) by exact Hlater.
  rewrite Hpairs. split; [|done].
  apply Forall_forall. intros p Hp.
  rewrite Forall_forall in Hall. destruct (Hall p Hp) as (Hnew & Hsim & Hhigh).
  repeat split; try done.
  eapply elem_of_sublist; [|exact Hsub].
  apply list_elem_of_fmap. by exists p.
Qed.

(** X9. [document_similarity] is at most 100 whenever the old document
    has no more units than the new one, and whenever every recorded pair
    is a threshold match: it can exceed 100 only through partial matches
    of a longer old document. *)
Theorem document_similarity_at_most_100 cfg old_units new_units :
  let scores := (compare_content_units cfg old_units new_units).2 in
  (length old_units ≤ length new_units →
   (document_similarity scores <= 100)%Q)
  ∧ (exact_pairs cfg (matched_content_pairs scores)
     = matched_content_pairs scores →
     (document_similarity scores <= 100)%Q).
Proof.
  intros scores.
  destruct (match_units_inv cfg old_units new_units)
    as [_ _ _ _ Hnew _ _ Hpl].
  set (st := match_units cfg old_units new_units) in *.
  assert (Hbound : length (matched_pairs st) ≤ length new_units →
                   (document_similarity scores <= 100)%Q).
  { intros Hle. unfold scores, compare_content_units; simpl. fold st.
    destruct (_ && _); [|lra].
    destruct (0 <? _)%Z eqn:Htotal; [|lra].
    apply Z.ltb_lt in Htotal.
    apply percentage_range.
    - unfold Qlt; simpl. lia.
    - unfold Qle; simpl. lia. }
  split.
  - intros Hle. apply Hbound. lia.
  - intros Hexact. apply Hbound.
    change (matched_content_pairs scores) with (matched_pairs st) in Hexact.
    rewrite Hexact in Hnew.
    apply Permutation_length in Hnew.
    rewrite length_app, length_map in Hnew. lia.
Qed.

(** X9 at two inputs: one old paragraph against its three rewrites, and a
    paragraph against itself. *)
Lemma document_similarity_at_most_100_witness :
  (document_similarity
     (compare_content_units comparison_config
        one_paragraph three_rewrites).2 <= 100)%Q
  ∧ (document_similarity
       (compare_content_units comparison_config
          one_paragraph one_paragraph).2 <= 100)%Q.
Proof.
  destruct (document_similarity_at_most_100 comparison_config
              one_paragraph three_rewrites) as [H1 _].
  destruct (document_similarity_at_most_100 comparison_config
              one_paragraph one_paragraph) as [_ H2].
  split.
  - apply H1. simpl. lia.
  - apply H2. vm_compute. reflexivity.
Defined.

(* ===================================================================== *)
(** * Documents, the interface and [compare_pdfs] *)
(* ===================================================================== *)

(** [str(n)] for a natural number [n], as an f-string writes it: its
    decimal digits. *)
Fixpoint digits (u : Decimal.uint) : str :=
  match u with
  | Decimal.Nil => []
  | Decimal.D0 u => 48%N :: digits u
  | Decimal.D1 u => 49%N :: digits u
  | Decimal.D2 u => 50%N :: digits u
  | Decimal.D3 u => 51%N :: digits u
  | Decimal.D4 u => 52%N :: digits u
  | Decimal.D5 u => 53%N :: digits u
  | Decimal.D6 u => 54%N :: digits u
  | Decimal.D7 u => 55%N :: digits u
  | Decimal.D8 u => 56%N :: digits u
  | Decimal.D9 u => 57%N :: digits u
  end.

Definition str_of_nat (n : nat) : str := digits (Nat.to_uint n).

(** A block of the list that [page.get_text] returns in the blocks mode:
    a tuple of a rectangle, the text at index 4, a block number and a
    block type. *)
Record Block := mkBlock {
  block_rect : Rect;
  block_text : str;
  block_no : nat;
  block_type : nat
}.

(** A page of an opened document: its blocks and its search. *)
Record Page := mkPage {
  page_blocks : list Block;
  page_search_for : str → list Rect
}.

(** An opened document ([fitz.open]) is the list of its pages. *)
Definition Document := list Page.

(** The two documents of a comparison. *)
Inductive side := OldDoc | NewDoc.

Definition same_side (x y : side) : bool :=
  match x, y with
  | OldDoc, OldDoc | NewDoc, NewDoc => true
  | _, _ => false
  end.

(** The two functions that [compare_pdfs] hands to [root.after]. *)
Inductive callback :=
  | show_completion
  | show_error (error_msg : exn).

(** What a run of [compare_pdfs] does, in order: a call of
    [update_progress], which sets the progress bar to [value], the
    percentage label to the integer part of [value] and the description
    label to [description]; an event on a page of one of the documents; a
    call of [doc.save]; a call of [root.after]. *)
Inductive app_event :=
  | UpdateProgress (value : Q) (description : str)
  | OnPage (doc : side) (page_num : nat) (e : event)
  | SaveTo (doc : side) (path : str)
  | After (ms : Z) (f : callback).

(** A computation of the application: it extends the log and returns a
    value or raises. *)
Definition AppM (A : Type) : Type :=
  list app_event → outcome A * list app_event.

#[global] Instance AppM_ret : MRet AppM := fun A a log => (Ok a, log).
#[global] Instance AppM_bind : MBind AppM := fun A B f m log =>
  match m log with
  | (Ok a, log') => f a log'
  | (Raise e, log') => (Raise e, log')
  end.

Definition tell (e : app_event) : AppM () := fun log => (Ok (), log ++ [e]).

(** A computation on page [page_num] of a document: its trace goes to the
    log, event by event. *)
Definition on_page {A} (doc : side) (page_num : nat) (m : PageM A)
    : AppM A := fun log =>
  let '(result, tr) := run m in
  (result, log ++ List.map (OnPage doc page_num) tr).

(** The statistics of [self.summary]. *)
Record Summary := mkSummary {
  removed_count : Z;
  added_count : Z;
  total_changes : Z;
  summary_replacements : Z;
  insertions : Z;
  deletions : Z;
  styling_changes : Z;
  summary_similarity : SimilarityScores
}.

(** [int(0.3 * n)] for a count [n]: the product of the float nearest to
    0.3 and [n], rounded and then truncated, is the integer part of
    [3 * n / 10] for every count below 2^45. *)
Definition three_tenths (n : Z) : Z := (3 * n / 10)%Z.

(** The block of [compare_pdfs] that builds [self.summary]. *)
Definition change_statistics (removed added : list content_unit)
    (similarity_scores : SimilarityScores) : Summary :=
  let len_removed := Z.of_nat (length removed) in
  let len_added := Z.of_nat (length added) in
  let replacements := Z.min len_removed len_added in
  let remaining_deletions := (len_removed - replacements)%Z in
  let remaining_insertions := (len_added - replacements)%Z in
  let styling_changes := three_tenths (len_removed + len_added) in
  let total_changes :=
    (replacements + remaining_deletions + remaining_insertions
     + styling_changes)%Z in
  {| removed_count := len_removed;
     added_count := len_added;
     total_changes := total_changes;
     summary_replacements := replacements;
     insertions := remaining_insertions;
     deletions := remaining_deletions;
     styling_changes := styling_changes;
     summary_similarity := similarity_scores |}.

(** The numbers that [generate_comparison_report] computes for its table
    of statistics, from the stored [removed] and [added]. *)
Record ReportStatistics := mkReportStatistics {
  report_total_changes : Z;
  report_replacements : Z;
  report_insertions : Z;
  report_deletions : Z;
  report_styling_changes : Z;
  report_annotation_changes : Z
}.

Definition report_statistics (removed added : list content_unit)
    : ReportStatistics :=
  let removed_count := Z.of_nat (length removed) in
  let added_count := Z.of_nat (length added) in
  let replacements := Z.min removed_count added_count in
  let remaining_deletions := (removed_count - replacements)%Z in
  let remaining_insertions := (added_count - replacements)%Z in
  let styling_changes := three_tenths (removed_count + added_count) in
  let annotation_changes := 0%Z in
  let total_changes :=
    (replacements + remaining_deletions + remaining_insertions
     + styling_changes + annotation_changes)%Z in
  {| report_total_changes := total_changes;
     report_replacements := replacements;
     report_insertions := remaining_insertions;
     report_deletions := remaining_deletions;
     report_styling_changes := styling_changes;
     report_annotation_changes := annotation_changes |}.

(** The attributes of the application that [compare_pdfs] writes; [None]
    is the [None] that [__init__] stores, or an attribute not yet
    created. *)
Record App := mkApp {
  app_old_doc : option Document;
  app_new_doc : option Document;
  app_removed : option (list content_unit);
  app_added : option (list content_unit);
  app_similarity_scores : option SimilarityScores;
  app_summary : option Summary;
  comparison_complete : bool
}.

(** [update_progress]. *)
Definition update_progress (value : Q) (description : str)
    (current_page total_pages : option nat) : AppM () :=
  let description :=
    match current_page, total_pages with
    | Some current_page, Some total_pages =>
        let page_info :=
          s " (Page " ++ str_of_nat current_page ++ s "/"
            ++ str_of_nat total_pages ++ s ")" in
        description ++ page_info
    | _, _ => description
    end in
  tell (UpdateProgress value description).

(** The loop of [extract_text_from_pdf]; [pages] holds the pages still to
    read with their numbers, [doc[page_num]] for the [page_num] of
    [range(total_pages)]. *)
Fixpoint text_loop (is_first_pdf : bool) (total_pages : nat)
    (pages : list (nat * Page))
    (text_by_page : list str) (blocks_by_page : list (list Block))
    : AppM (list str * list (list Block)) :=
  match pages with
  | [] => mret (text_by_page, blocks_by_page)
  | (page_num, page) :: pages =>
      let pdf_label := if is_first_pdf then s "first" else s "second" in
      let base_progress := if is_first_pdf then 0%Q else 20%Q in
      let progress :=
        (base_progress + (Qnat page_num / Qnat total_pages) * 20)%Q in
      update_progress progress
        (s "Extracting text from " ++ pdf_label ++ s " PDF")
        (Some (page_num + 1)) (Some total_pages);;
      let blocks := page_blocks page in
      let blocks_by_page := blocks_by_page ++ [blocks] in
      let page_text := join [NL] (List.map block_text blocks) in
      let text_by_page := text_by_page ++ [page_text] in
      text_loop is_first_pdf total_pages pages text_by_page blocks_by_page
  end.

Definition extract_text_from_pdf (doc : Document) (is_first_pdf : bool)
    : AppM (list str * list (list Block) * Document) :=
  let total_pages := length doc in
  vars ← text_loop is_first_pdf total_pages (enumerate doc) [] [];
  mret (vars.1, vars.2, doc).

Section ComparePdfs.
(** [str.lower], [os.path.join], and the entries of
    [self.comparison_config]: the four that the comparison reads and
    [output_folder]. *)
Variable lower : str → str.
Variable path_join : str → str → str.
Variable cfg : Config.
Variable output_folder : str.

(** The two loops that highlight the units of [removed] in red in the old
    document and the units of [added] in green in the new one. They
    differ in the document [doc], the colour, the description and the
    progress [base] only; [count] is [removed_count] or [added_count]. *)
Fixpoint highlight_loop (which : side) (doc : Document)
    (color description : str) (base : Q) (count : nat)
    (items : list (nat * content_unit)) : AppM () :=
  match items with
  | [] => mret ()
  | (idx, u) :: items =>
      let page_num := unit_page u in
      let original := unit_original u in
      match doc !! page_num with
      | Some page =>
          (* page_num < len(doc) *)
          on_page which page_num
            (highlight_text_on_page (page_search_for page) cfg
               original color true);;
          let current_progress :=
            (base + (Qnat idx / Qnat (Nat.max 1 count)) * 15)%Q in
          update_progress current_progress description
            (Some (page_num + 1)) (Some (length doc));;
          highlight_loop which doc color description base count items
      | None => highlight_loop which doc color description base count items
      end
  end.

(** The body of the [try] statement. *)
Definition compare_pdfs_try (self : App) (pdf1 pdf2 : Document) : AppM App :=
  update_progress 0 (s "Extracting text from first PDF...") None None;;
  old ← extract_text_from_pdf pdf1 true;
  let old_text := old.1.1 in
  let old_doc := old.2 in
  update_progress 20 (s "Extracting text from second PDF...") None None;;
  new ← extract_text_from_pdf pdf2 false;
  let new_text := new.1.1 in
  let new_doc := new.2 in
  update_progress 40 (s "Analyzing content for cross-page comparison...")
    None None;;
  let old_units := extract_content_units lower cfg old_text in
  let new_units := extract_content_units lower cfg new_text in
  update_progress 50 (s "Identifying content differences...") None None;;
  let result := compare_content_units cfg old_units new_units in
  let removed := result.1.1 in
  let added := result.1.2 in
  let similarity_scores := result.2 in
  update_progress 60 (s "Highlighting removed content...") None None;;
  let removed_count := length removed in
  highlight_loop OldDoc old_doc (s "red")
    (s "Highlighting removed content") 60 removed_count
    (enumerate removed);;
  update_progress 75 (s "Highlighting added content...") None None;;
  let added_count := length added in
  highlight_loop NewDoc new_doc (s "green")
    (s "Highlighting added content") 75 added_count
    (enumerate added);;
  update_progress 90 (s "Saving highlighted PDFs...") None None;;
  let old_pdf_path := path_join output_folder (s "OLD_highlighted.pdf") in
  let new_pdf_path := path_join output_folder (s "NEW_highlighted.pdf") in
  tell (SaveTo OldDoc old_pdf_path);;
  tell (SaveTo NewDoc new_pdf_path);;
  let summary := change_statistics removed added similarity_scores in
  update_progress 100 (s "Comparison completed successfully!") None None;;
  tell (After 100 show_completion);;
  mret {| app_old_doc := Some old_doc;
          app_new_doc := Some new_doc;
          app_removed := Some removed;
          app_added := Some added;
          app_similarity_scores := Some similarity_scores;
          app_summary := Some summary;
          comparison_complete := true |}.

(** [compare_pdfs]: the attributes of the application after the call,
    and what the call has done. No attribute is written before the last
    statement that can raise, so that an exception leaves them all as
    they were. *)
Definition compare_pdfs (self : App) (pdf1 pdf2 : Document)
    : App * list app_event :=
  match compare_pdfs_try self pdf1 pdf2 [] with
  | (Ok self', log) => (self', log)
  | (Raise error_msg, log) => (self, log ++ [After 100 (show_error error_msg)])
  end.
End ComparePdfs.

(** Two documents of one page each. *)
Definition old_page : Page :=
  mkPage [ mkBlock (mkRect 72 72 540 100)
             (s "The budget for last year was rejected.") 0 0;
           mkBlock (mkRect 72 120 540 148) [NL] 1 0;
           mkBlock (mkRect 72 168 540 196)
             (s "Nothing else was decided at the meeting.") 2 0 ]
         (fun query =>
            if bool_decide (query = s "The budget for last year was rejected.")
            then [mkRect 72 72 300 84] else []).

Definition new_page : Page :=
  mkPage [ mkBlock (mkRect 72 72 540 100)
             (s "Nothing else was decided at the meeting.") 0 0 ]
         (fun _ => []).

Definition fresh_app : App :=
  {| app_old_doc := None; app_new_doc := None; app_removed := None;
     app_added := None; app_similarity_scores := None; app_summary := None;
     comparison_complete := false |}.

Definition posix_join (folder name : str) : str := folder ++ s "/" ++ name.

(* ===================================================================== *)
(** * Runs of [compare_pdfs] *)
(* ===================================================================== *)

Lemma app_bind_Ok {A B} (m : AppM A) (f : A → AppM B) log a log' :
  m log = (Ok a, log') → (m ≫= f) log = f a log'.
Proof. intros H. unfold mbind, AppM_bind. by rewrite H. Qed.

Lemma app_bind_Raise {A B} (m : AppM A) (f : A → AppM B) log e log' :
  m log = (Raise e, log') → (m ≫= f) log = (Raise e, log').
Proof. intros H. unfold mbind, AppM_bind. by rewrite H. Qed.

Lemma bind_Raise {A B} (m : PageM A) (f : A → PageM B) tr e tr' :
  m tr = (Raise e, tr') → (m ≫= f) tr = (Raise e, tr').
Proof. intros H. unfold mbind, PageM_bind. by rewrite H. Qed.

(** The description that [update_progress] shows. *)
Definition described (description : str)
    (current_page total_pages : option nat) : str :=
  match current_page, total_pages with
  | Some current_page, Some total_pages =>
      description ++ s " (Page " ++ str_of_nat current_page ++ s "/"
                  ++ str_of_nat total_pages ++ s ")"
  | _, _ => description
  end.

Lemma update_progress_run value description current_page total_pages log :
  update_progress value description current_page total_pages log
  = (Ok (), log ++ [UpdateProgress value
                      (described description current_page total_pages)]).
Proof. by destruct current_page, total_pages. Qed.

(** The text of a page and the events of the extraction of a
    document. *)
Definition page_text (page : Page) : str :=
  join [NL] (List.map block_text (page_blocks page)).

Definition extraction_event (is_first_pdf : bool) (total_pages : nat)
    (page_num : nat) : app_event :=
  UpdateProgress
    ((if is_first_pdf then 0 else 20) + Qnat page_num / Qnat total_pages * 20)
    (described
       (s "Extracting text from "
          ++ (if is_first_pdf then s "first" else s "second") ++ s " PDF")
       (Some (page_num + 1)) (Some total_pages)).

Lemma text_loop_run is_first_pdf total_pages pages :
  ∀ text_by_page blocks_by_page log,
    text_loop is_first_pdf total_pages pages text_by_page blocks_by_page log
    = (Ok (text_by_page ++ List.map (fun np => page_text np.2) pages,
           blocks_by_page ++ List.map (fun np => page_blocks np.2) pages),
       log ++ List.map (fun np => extraction_event is_first_pdf total_pages np.1)
                       pages).
Proof.
  induction pages as [|[page_num page] pages IH];
    intros text_by_page blocks_by_page log.
  - simpl. unfold mret, AppM_ret. by rewrite !app_nil_r.
  - cbn [text_loop].
    erewrite app_bind_Ok by apply update_progress_run.
    rewrite IH. cbn [List.map fst snd]. by rewrite <- !app_assoc.
Qed.

Lemma map_enumerate {A B} (f : A → B) (l : list A) :
  List.map (fun np => f np.2) (enumerate l) = List.map f l.
Proof.
  rewrite <- (List.map_map snd f). by rewrite enumerate_snd.
Qed.

Lemma enumerate_fst {A} (l : list A) :
  List.map fst (enumerate l) = seq 0 (length l).
Proof. unfold enumerate. apply fst_zip. by rewrite length_seq. Qed.

Definition extraction_events (is_first_pdf : bool) (doc : Document)
    : list app_event :=
  List.map (extraction_event is_first_pdf (length doc)) (seq 0 (length doc)).

Lemma extract_text_from_pdf_run doc is_first_pdf log :
  extract_text_from_pdf doc is_first_pdf log
  = (Ok (List.map page_text doc, List.map page_blocks doc, doc),
     log ++ extraction_events is_first_pdf doc).
Proof.
  unfold extract_text_from_pdf.
  erewrite app_bind_Ok by apply text_loop_run.
  unfold mret, AppM_ret. cbn [fst snd app].
  rewrite !map_enumerate. unfold extraction_events.
  by rewrite <- enumerate_fst, List.map_map.
Qed.

(** Neither a save nor a callback. *)
Definition quiet (e : app_event) : Prop :=
  match e with
  | SaveTo _ _ | After _ _ => False
  | _ => True
  end.

Lemma quiet_on_page doc page_num tr :
  Forall quiet (List.map (OnPage doc page_num) tr).
Proof. apply Forall_forall. by intros e (ev & -> & _)%list_elem_of_fmap. Qed.

Section HighlightLoop.
Variable cfg : Config.

(** [highlight_text_on_page] raises only where [find_text_on_page]
    does. *)
Lemma highlight_text_on_page_raise search_for text color fuzzy tr e tr' :
  highlight_text_on_page search_for cfg text color fuzzy tr = (Raise e, tr') →
  e = ValueError ∧ fuzzy_chunk_size cfg = 0%Z.
Proof.
  unfold highlight_text_on_page.
  destruct (is_empty (strip text)); [done|].
  destruct (find_text_on_page search_for cfg text fuzzy tr)
    as [[instances | e1] tr1] eqn:Hfind.
  - erewrite bind_Ok by exact Hfind.
    destruct (is_empty instances).
    + destruct (line_loop_outcome search_for cfg (split [NL] text) color tr1)
        as (returned & tr2 & Hrun & _).
      erewrite bind_Ok by exact Hrun. by destruct returned.
    + erewrite bind_Ok by apply rect_loop_run. done.
  - erewrite bind_Raise by exact Hfind. intros [= <- <-].
    by apply find_text_on_page_raise in Hfind.
Qed.

(** The events that one call of [highlight_text_on_page] leaves on a
    page. *)
Definition highlight_trace (search_for : str → list Rect)
    (text color : str) : list event :=
  (run (highlight_text_on_page search_for cfg text color true)).2.

(** What one pass of a highlight loop adds to the log when nothing is
    raised. *)
Definition item_events (which : side) (doc : Document)
    (color description : str) (base : Q) (count : nat)
    (item : nat * content_unit) : list app_event :=
  match doc !! unit_page item.2 with
  | Some page =>
      List.map (OnPage which (unit_page item.2))
        (highlight_trace (page_search_for page) (unit_original item.2) color)
      ++ [UpdateProgress
            (base + Qnat item.1 / Qnat (Nat.max 1 count) * 15)
            (described description (Some (unit_page item.2 + 1))
                       (Some (length doc)))]
  | None => []
  end.

Lemma highlight_loop_run which doc color description base count items :
  (0 < fuzzy_chunk_size cfg)%Z →
  ∀ log,
    highlight_loop cfg which doc color description base count items log
    = (Ok (),
       log ++ flat_map (item_events which doc color description base count)
                       items).
Proof.
  intros Hpos.
  induction items as [|[idx u] items IH]; intros log.
  - simpl. unfold mret, AppM_ret. by rewrite app_nil_r.
  - cbn [highlight_loop flat_map]. unfold item_events at 1. cbn [fst snd].
    destruct (doc !! unit_page u) as [page|]; [|apply IH].
    destruct (highlight_text_on_page_ok (page_search_for page) cfg
                (unit_original u) color true [] Hpos)
      as (found & tr' & Hrun & _).
    assert (Hpage : on_page which (unit_page u)
                      (highlight_text_on_page (page_search_for page) cfg
                         (unit_original u) color true) log
                    = (Ok found,
                       log ++ List.map (OnPage which (unit_page u))
                                (highlight_trace (page_search_for page)
                                   (unit_original u) color))).
    { unfold on_page, highlight_trace, run. by rewrite Hrun. }
    erewrite app_bind_Ok by exact Hpage.
    erewrite app_bind_Ok by apply update_progress_run.
    rewrite IH. by rewrite <- !app_assoc.
Qed.

(** For every configuration a highlight loop adds neither a save nor a
    callback, and it raises only with a chunk size of 0. *)
Lemma highlight_loop_outcome which doc color description base count items :
  ∀ log, ∃ result events,
    highlight_loop cfg which doc color description base count items log
    = (result, log ++ events)
    ∧ Forall quiet events
    ∧ ∀ e, result = Raise e → e = ValueError ∧ fuzzy_chunk_size cfg = 0%Z.
Proof.
  induction items as [|[idx u] items IH]; intros log.
  - exists (Ok ()), []. rewrite app_nil_r. by repeat split.
  - cbn [highlight_loop].
    destruct (doc !! unit_page u) as [page|]; [|apply IH].
    destruct (run (highlight_text_on_page (page_search_for page) cfg
                     (unit_original u) color true))
      as [[found | e] tr] eqn:Hrun.
    + assert (Hpage : on_page which (unit_page u)
                        (highlight_text_on_page (page_search_for page) cfg
                           (unit_original u) color true) log
                      = (Ok found,
                         log ++ List.map (OnPage which (unit_page u)) tr)).
      { unfold on_page. by rewrite Hrun. }
      erewrite app_bind_Ok by exact Hpage.
      erewrite app_bind_Ok by apply update_progress_run.
      destruct (IH ((log ++ List.map (OnPage which (unit_page u)) tr)
                    ++ [UpdateProgress
                          (base + Qnat idx / Qnat (Nat.max 1 count) * 15)
                          (described description (Some (unit_page u + 1))
                                     (Some (length doc)))]))
        as (result & events & Hloop & Hquiet & Hraise).
      exists result, (List.map (OnPage which (unit_page u)) tr
                      ++ UpdateProgress
                           (base + Qnat idx / Qnat (Nat.max 1 count) * 15)
                           (described description (Some (unit_page u + 1))
                                      (Some (length doc)))
                         :: events).
      split; [|split; [|done]].
      * rewrite Hloop. f_equal. rewrite <- !app_assoc. done.
      * apply Forall_app. split; [apply quiet_on_page|].
        by constructor.
    + assert (Hpage : on_page which (unit_page u)
                        (highlight_text_on_page (page_search_for page) cfg
                           (unit_original u) color true) log
                      = (Raise e,
                         log ++ List.map (OnPage which (unit_page u)) tr)).
      { unfold on_page. by rewrite Hrun. }
      erewrite app_bind_Raise by exact Hpage.
      exists (Raise e), (List.map (OnPage which (unit_page u)) tr).
      split; [done|]. split; [apply quiet_on_page|].
      intros e' [= <-]. by eapply highlight_text_on_page_raise.
Qed.
End HighlightLoop.

Section CompareRun.
Variable lower : str → str.
Variable path_join : str → str → str.
Variable cfg : Config.
Variable output_folder : str.

(** The units of a document and the comparison of two documents. *)
Definition units_of (doc : Document) : list content_unit :=
  extract_content_units lower cfg (List.map page_text doc).

Definition comparison (pdf1 pdf2 : Document)
    : list content_unit * list content_unit * SimilarityScores :=
  compare_content_units cfg (units_of pdf1) (units_of pdf2).

(** What a highlight loop adds to the log when nothing is raised. *)
Definition highlight_events (which : side) (doc : Document)
    (color description : str) (base : Q) (units : list content_unit)
    : list app_event :=
  flat_map (item_events cfg which doc color description base (length units))
           (enumerate units).

(** The last four events of a run that completes. *)
Definition completion_events : list app_event :=
  [ SaveTo OldDoc (path_join output_folder (s "OLD_highlighted.pdf"));
    SaveTo NewDoc (path_join output_folder (s "NEW_highlighted.pdf"));
    UpdateProgress 100 (s "Comparison completed successfully!");
    After 100 show_completion ].

(** The events of a run that completes, before these four. *)
Definition work_events (pdf1 pdf2 : Document) : list app_event :=
  [UpdateProgress 0 (s "Extracting text from first PDF...")]
  ++ extraction_events true pdf1
  ++ [UpdateProgress 20 (s "Extracting text from second PDF...")]
  ++ extraction_events false pdf2
  ++ [UpdateProgress 40
        (s "Analyzing content for cross-page comparison...");
      UpdateProgress 50 (s "Identifying content differences...");
      UpdateProgress 60 (s "Highlighting removed content...")]
  ++ highlight_events OldDoc pdf1 (s "red")
       (s "Highlighting removed content") 60 (comparison pdf1 pdf2).1.1
  ++ [UpdateProgress 75 (s "Highlighting added content...")]
  ++ highlight_events NewDoc pdf2 (s "green")
       (s "Highlighting added content") 75 (comparison pdf1 pdf2).1.2
  ++ [UpdateProgress 90 (s "Saving highlighted PDFs...")].

(** The attributes of the application after a run that completes. *)
Definition completed (pdf1 pdf2 : Document) : App :=
  let result := comparison pdf1 pdf2 in
  {| app_old_doc := Some pdf1;
     app_new_doc := Some pdf2;
     app_removed := Some result.1.1;
     app_added := Some result.1.2;
     app_similarity_scores := Some result.2;
     app_summary :=
       Some (change_statistics result.1.1 result.1.2 result.2);
     comparison_complete := true |}.

Lemma tell_run e log : tell e log = (Ok (), log ++ [e]).
Proof. reflexivity. Qed.

Lemma compare_pdfs_run self pdf1 pdf2 :
  (0 < fuzzy_chunk_size cfg)%Z →
  compare_pdfs lower path_join cfg output_folder self pdf1 pdf2
  = (completed pdf1 pdf2, work_events pdf1 pdf2 ++ completion_events).
Proof.
  intros Hpos. unfold compare_pdfs, compare_pdfs_try.
  erewrite app_bind_Ok by apply update_progress_run.
  erewrite app_bind_Ok by apply extract_text_from_pdf_run.
  erewrite app_bind_Ok by apply update_progress_run.
  erewrite app_bind_Ok by apply extract_text_from_pdf_run.
  erewrite app_bind_Ok by apply update_progress_run.
  erewrite app_bind_Ok by apply update_progress_run.
  erewrite app_bind_Ok by apply update_progress_run.
  erewrite app_bind_Ok by by apply highlight_loop_run.
  erewrite app_bind_Ok by apply update_progress_run.
  erewrite app_bind_Ok by by apply highlight_loop_run.
  erewrite app_bind_Ok by apply update_progress_run.
  erewrite app_bind_Ok by apply tell_run.
  erewrite app_bind_Ok by apply tell_run.
  erewrite app_bind_Ok by apply update_progress_run.
  erewrite app_bind_Ok by apply tell_run.
  unfold mret, AppM_ret. cbn [fst snd].
  f_equal. unfold work_events, completion_events, highlight_events,
    comparison, units_of.
  cbn [described]. rewrite <- !app_assoc. reflexivity.
Qed.

(** X10. Whatever the configuration, a run of [compare_pdfs] ends in one
    of two ways. Either it completes: the application holds the two
    documents, the [removed] and [added] lists and the scores of
    [compare_content_units] on the units of the two documents, and the
    summary, [comparison_complete] is set, and the last events are the
    save of the old document, the save of the new one, the progress of
    100 and the completion callback. Or, which takes a chunk size of 0,
    a highlight has raised [ValueError]: the attributes of the
    application are what they were, nothing has been saved, and the last
    event is the error callback. In both cases nothing is saved or
    scheduled before these last events. *)
Theorem compare_pdfs_completes_or_fails self pdf1 pdf2 :
  ∃ before,
    Forall quiet before
    ∧ (compare_pdfs lower path_join cfg output_folder self pdf1 pdf2
       = (completed pdf1 pdf2, before ++ completion_events)
       ∨ (fuzzy_chunk_size cfg = 0%Z
          ∧ compare_pdfs lower path_join cfg output_folder self pdf1 pdf2
            = (self, before ++ [After 100 (show_error ValueError)]))).
Proof.
  unfold compare_pdfs, compare_pdfs_try.
  erewrite app_bind_Ok by apply update_progress_run.
  erewrite app_bind_Ok by apply extract_text_from_pdf_run.
  erewrite app_bind_Ok by apply update_progress_run.
  erewrite app_bind_Ok by apply extract_text_from_pdf_run.
  erewrite app_bind_Ok by apply update_progress_run.
  erewrite app_bind_Ok by apply update_progress_run.
  erewrite app_bind_Ok by apply update_progress_run.
  cbn [fst snd described]. fold (units_of pdf1) (units_of pdf2).
  fold (comparison pdf1 pdf2).
  set (log0 := (((((([] ++ _) ++ _) ++ _) ++ _) ++ _) ++ _) ++ _).
  assert (Hlog0 : Forall quiet log0).
  { unfold log0, extraction_events.
    repeat (apply Forall_app; split);
      try (apply Forall_forall; intros e He;
           first [ apply list_elem_of_fmap in He as (n & -> & _); done
                 | apply list_elem_of_singleton in He as ->; done
                 | by apply elem_of_nil in He ]). }
  destruct (highlight_loop_outcome cfg OldDoc pdf1 (s "red")
              (s "Highlighting removed content") 60
              (length (comparison pdf1 pdf2).1.1)
              (enumerate (comparison pdf1 pdf2).1.1) log0)
    as ([[] | e1] & events1 & Hloop1 & Hquiet1 & Hraise1).
  2: { erewrite app_bind_Raise by exact Hloop1.
       destruct (Hraise1 e1 eq_refl) as [-> Hzero].
       exists (log0 ++ events1). split; [by apply Forall_app|]. by right. }
  erewrite app_bind_Ok by exact Hloop1.
  erewrite app_bind_Ok by apply update_progress_run.
  cbn [described].
  destruct (highlight_loop_outcome cfg NewDoc pdf2 (s "green")
              (s "Highlighting added content") 75
              (length (comparison pdf1 pdf2).1.2)
              (enumerate (comparison pdf1 pdf2).1.2)
              ((log0 ++ events1)
               ++ [UpdateProgress 75 (s "Highlighting added content...")]))
    as ([[] | e2] & events2 & Hloop2 & Hquiet2 & Hraise2).
  2: { erewrite app_bind_Raise by exact Hloop2.
       destruct (Hraise2 e2 eq_refl) as [-> Hzero].
       exists (((log0 ++ events1)
                ++ [UpdateProgress 75 (s "Highlighting added content...")])
               ++ events2).
       split; [|by right].
       rewrite !Forall_app. repeat split; try done. by constructor. }
  erewrite app_bind_Ok by exact Hloop2.
  erewrite app_bind_Ok by apply update_progress_run.
  erewrite app_bind_Ok by apply tell_run.
  erewrite app_bind_Ok by apply tell_run.
  erewrite app_bind_Ok by apply update_progress_run.
  erewrite app_bind_Ok by apply tell_run.
  unfold mret, AppM_ret. cbn [described].
  exists ((((log0 ++ events1)
            ++ [UpdateProgress 75 (s "Highlighting added content...")])
           ++ events2)
          ++ [UpdateProgress 90 (s "Saving highlighted PDFs...")]).
  split.
  - rewrite !Forall_app. repeat split; try done; by constructor.
  - left. f_equal. unfold completion_events. by rewrite <- !app_assoc.
Qed.
End CompareRun.

(** X10 at the two documents above with a chunk size of 0: the only unit
    of the new document is not found on its page, and the fuzzy tier
    raises. *)
Lemma compare_pdfs_completes_or_fails_witness :
  ∃ before,
    Forall quiet before
    ∧ compare_pdfs ascii_lower posix_join out_of_range_config
        (s "comparison_results") fresh_app [old_page] [new_page]
      = (fresh_app, before ++ [After 100 (show_error ValueError)]).
Proof.
  destruct (compare_pdfs_completes_or_fails ascii_lower posix_join
              out_of_range_config (s "comparison_results") fresh_app
              [old_page] [new_page])
    as (before & Hquiet & [Hrun | [_ Hrun]]).
  - exfalso.
    apply (f_equal (fun r => comparison_complete r.1)) in Hrun.
    vm_compute in Hrun. discriminate Hrun.
  - exists before. split; [exact Hquiet|exact Hrun].
Defined.

(* ===================================================================== *)
(** * Where [compare_pdfs] highlights *)
(* ===================================================================== *)

(** The events of a log on the pages of one document. *)
Definition events_on (which : side) (log : list app_event)
    : list (nat * event) :=
  omap (fun e => match e with
                 | OnPage doc page_num ev =>
                     if same_side doc which then Some (page_num, ev) else None
                 | _ => None
                 end) log.

Lemma events_on_app which log1 log2 :
  events_on which (log1 ++ log2)
  = events_on which log1 ++ events_on which log2.
Proof. apply omap_app. Qed.

Lemma events_on_extraction which is_first_pdf doc :
  events_on which (extraction_events is_first_pdf doc) = [].
Proof.
  unfold extraction_events.
  induction (seq 0 (length doc)) as [|n l IH]; [done|]. exact IH.
Qed.

Lemma events_on_page which doc page_num tr :
  events_on which (List.map (OnPage doc page_num) tr)
  = if same_side doc which then List.map (pair page_num) tr else [].
Proof.
  induction tr as [|ev tr IH]; simpl.
  - by destruct (same_side doc which).
  - unfold events_on in *. simpl. rewrite IH.
    by destruct (same_side doc which).
Qed.

(** The search of page [page_num] of a document. *)
Definition search_on (doc : Document) (page_num : nat) : str → list Rect :=
  match doc !! page_num with
  | Some page => page_search_for page
  | None => no_hit
  end.

Section Highlights.
Variable cfg : Config.

(** The events that the highlight of a unit leaves on its page. *)
Definition unit_events (doc : Document) (color : str) (u : content_unit)
    : list (nat * event) :=
  List.map (pair (unit_page u))
    (highlight_trace cfg (search_on doc (unit_page u)) (unit_original u) color).

Lemma events_on_items which other doc color description base count items :
  Forall (fun item => is_Some (doc !! unit_page item.2)) items →
  events_on other
    (flat_map (item_events cfg which doc color description base count) items)
  = if same_side which other
    then flat_map (unit_events doc color) (List.map snd items)
    else [].
Proof.
  induction 1 as [|[idx u] items [page Hpage] Hall IH]; simpl.
  - by destruct (same_side which other).
  - rewrite events_on_app, IH. unfold item_events at 1. simpl in *.
    rewrite Hpage, events_on_app, events_on_page.
    unfold unit_events at 2, search_on. rewrite Hpage.
    destruct (same_side which other); simpl; [|done].
    by rewrite app_nil_r.
Qed.

Lemma events_on_highlight_events which other doc color description base units :
  Forall (fun u => is_Some (doc !! unit_page u)) units →
  events_on other (highlight_events cfg which doc color description base units)
  = if same_side which other
    then flat_map (unit_events doc color) units
    else [].
Proof.
  intros Hall. unfold highlight_events.
  rewrite events_on_items.
  - by rewrite enumerate_snd.
  - apply Forall_forall. intros [idx u] Hin. simpl.
    rewrite Forall_forall in Hall. apply Hall.
    rewrite <- (enumerate_snd units).
    apply list_elem_of_fmap. by exists (idx, u).
Qed.

(** Every annotation of a highlight is in the colour asked for. *)
Lemma highlight_trace_colour search_for text color h :
  (0 < fuzzy_chunk_size cfg)%Z →
  AddHighlight h ∈ highlight_trace cfg search_for text color →
  ∃ rect, h = highlight_for rect color.
Proof.
  intros Hpos Hin.
  destruct (highlight_text_on_page_ok search_for cfg text color true []
              Hpos) as (found & tr' & Hrun & Hall).
  unfold highlight_trace, run in Hin. rewrite Hrun in Hin. simpl in Hin.
  rewrite Forall_forall in Hall. apply Hall.
  unfold highlights_of. apply list_elem_of_omap.
  by exists (AddHighlight h).
Qed.
End Highlights.

Lemma select_Forall (P : content_unit → Prop) flag mask : ∀ units,
  Forall P units → Forall P (select flag mask units).
Proof.
  unfold select.
  induction mask as [|b mask IH]; intros [|u units] Hall; simpl;
    try by constructor.
  apply Forall_cons in Hall as [Hu Hall].
  destruct (Bool.eqb b flag); simpl; [constructor; [done|]|]; by apply IH.
Qed.

Section Placement.
Variable lower : str → str.
Variable cfg : Config.

Lemma units_of_in_range doc :
  Forall (fun u => is_Some (doc !! unit_page u)) (units_of lower cfg doc).
Proof.
  apply Forall_forall. intros u Hu. unfold units_of in Hu.
  rewrite extract_content_units_from in Hu.
  apply units_from_pages in Hu. rewrite length_map in Hu.
  apply lookup_lt_is_Some. lia.
Qed.

(** The units of [removed] are units of the old document and the units
    of [added] units of the new one, so that each has its page. *)
Lemma comparison_in_range pdf1 pdf2 :
  Forall (fun u => is_Some (pdf1 !! unit_page u))
         (comparison lower cfg pdf1 pdf2).1.1
  ∧ Forall (fun u => is_Some (pdf2 !! unit_page u))
           (comparison lower cfg pdf1 pdf2).1.2.
Proof.
  destruct (match_units_inv cfg (units_of lower cfg pdf1)
              (units_of lower cfg pdf2))
    as [_ _ Hrem _ _ Hsub _ _].
  split.
  - change ((comparison lower cfg pdf1 pdf2).1.1)
      with (removed (match_units cfg (units_of lower cfg pdf1)
                       (units_of lower cfg pdf2))).
    rewrite Hrem. apply select_Forall.
    apply Forall_take, units_of_in_range.
  - change ((comparison lower cfg pdf1 pdf2).1.2)
      with (unmatched_new (match_units cfg (units_of lower cfg pdf1)
                             (units_of lower cfg pdf2))).
    apply Forall_forall. intros u Hu.
    pose proof (units_of_in_range pdf2) as Hall.
    rewrite Forall_forall in Hall. apply Hall.
    by eapply elem_of_sublist.
Qed.
End Placement.

(** X11. With a positive chunk size, what a run of [compare_pdfs] does
    to the pages of the old document is, for each unit of [removed] in
    order, one call of [highlight_text_on_page] on the page of the unit,
    with the original text of the unit, in red and with fuzzy matching;
    to the pages of the new document, the same for each unit of [added],
    in green. The guard on the page number never skips a unit: every
    unit has its page in its document. Every annotation on the old
    document has the red stroke and every annotation on the new one the
    green stroke, both at opacity 1/2. *)
Theorem compare_pdfs_highlights
    lower path_join cfg output_folder self pdf1 pdf2 :
  (0 < fuzzy_chunk_size cfg)%Z →
  let result :=
    compare_content_units cfg
      (extract_content_units lower cfg (List.map page_text pdf1))
      (extract_content_units lower cfg (List.map page_text pdf2)) in
  let log :=
    (compare_pdfs lower path_join cfg output_folder self pdf1 pdf2).2 in
  (Forall (fun u => is_Some (pdf1 !! unit_page u)) result.1.1
   ∧ Forall (fun u => is_Some (pdf2 !! unit_page u)) result.1.2)
  ∧ events_on OldDoc log
    = flat_map (unit_events cfg pdf1 (s "red")) result.1.1
  ∧ events_on NewDoc log
    = flat_map (unit_events cfg pdf2 (s "green")) result.1.2
  ∧ (∀ page_num h,
       (page_num, AddHighlight h) ∈ events_on OldDoc log →
       h_stroke h = Some (1, 0, 0)%Z ∧ h_opacity h = Some (1 # 2))
  ∧ (∀ page_num h,
       (page_num, AddHighlight h) ∈ events_on NewDoc log →
       h_stroke h = Some (0, 1, 0)%Z ∧ h_opacity h = Some (1 # 2)).
Proof.
  intros Hpos result log.
  destruct (comparison_in_range lower cfg pdf1 pdf2) as [Hold Hnew].
  assert (Hlog_old : events_on OldDoc log
                     = flat_map (unit_events cfg pdf1 (s "red")) result.1.1).
  { unfold log. rewrite compare_pdfs_run by done. cbn [snd].
    unfold work_events, completion_events.
    rewrite !events_on_app, !events_on_extraction.
    rewrite !events_on_highlight_events by done.
    simpl. by rewrite !app_nil_r. }
  assert (Hlog_new : events_on NewDoc log
                     = flat_map (unit_events cfg pdf2 (s "green")) result.1.2).
  { unfold log. rewrite compare_pdfs_run by done. cbn [snd].
    unfold work_events, completion_events.
    rewrite !events_on_app, !events_on_extraction.
    rewrite !events_on_highlight_events by done.
    simpl. by rewrite !app_nil_r. }
  split; [done|]. split; [done|]. split; [done|].
  split.
  - intros page_num h Hin. rewrite Hlog_old in Hin.
    apply list_elem_of_In, in_flat_map in Hin as (u & _ & Hin).
    apply list_elem_of_In, list_elem_of_fmap in Hin as (ev & [= -> <-] & Hev).
    apply highlight_trace_colour in Hev as [rect ->]; done.
  - intros page_num h Hin. rewrite Hlog_new in Hin.
    apply list_elem_of_In, in_flat_map in Hin as (u & _ & Hin).
    apply list_elem_of_In, list_elem_of_fmap in Hin as (ev & [= -> <-] & Hev).
    apply highlight_trace_colour in Hev as [rect ->]; done.
Qed.

(** X11 at the two documents above: the only removed unit is found as a
    whole on the page of the old document and highlighted in red;
    nothing is added. *)
Lemma compare_pdfs_highlights_witness :
  let log :=
    (compare_pdfs ascii_lower posix_join comparison_config
       (s "comparison_results") fresh_app [old_page] [new_page]).2 in
  events_on OldDoc log
  = [ (0, SearchFor (s "The budget for last year was rejected."));
      (0, AddHighlight
            (mkHighlight (mkRect 72 72 300 84) (Some (1, 0, 0)%Z)
                         (Some (1 # 2)))) ]
  ∧ events_on NewDoc log = [].
Proof.
  intros log.
  destruct (compare_pdfs_highlights ascii_lower posix_join comparison_config
              (s "comparison_results") fresh_app [old_page] [new_page])
    as (_ & Hold & Hnew & _); [reflexivity|].
  split.
  - etrans; [exact Hold|]. vm_compute. reflexivity.
  - etrans; [exact Hnew|]. vm_compute. reflexivity.
Defined.

(* ===================================================================== *)
(** * The progress bar during [compare_pdfs] *)
(* ===================================================================== *)

(** The values that the calls of [update_progress] set, in order. *)
Definition progress_values (log : list app_event) : list Q :=
  omap (fun e => match e with
                 | UpdateProgress value _ => Some value
                 | _ => None
                 end) log.

Lemma progress_values_app log1 log2 :
  progress_values (log1 ++ log2)
  = progress_values log1 ++ progress_values log2.
Proof. apply omap_app. Qed.

Lemma progress_values_on_page doc page_num tr :
  progress_values (List.map (OnPage doc page_num) tr) = [].
Proof. induction tr as [|ev tr IH]; [done|]. exact IH. Qed.

(** A list of values that climbs from [lo] to [hi]: each value is at
    least the one before, the first is at least [lo] and the last at most
    [hi]. *)
Fixpoint climbs (lo hi : Q) (l : list Q) : Prop :=
  match l with
  | [] => (lo <= hi)%Q
  | x :: l => (lo <= x)%Q ∧ climbs x hi l
  end.

Lemma climbs_lower lo lo' hi l :
  (lo' <= lo)%Q → climbs lo hi l → climbs lo' hi l.
Proof.
  destruct l as [|x l]; simpl.
  - intros H1 H2. lra.
  - intros H [Hx Hl]. split; [lra|done].
Qed.

Lemma climbs_app lo mid hi l1 : ∀ l2,
  climbs lo mid l1 → climbs mid hi l2 → climbs lo hi (l1 ++ l2).
Proof.
  revert lo. induction l1 as [|x l1 IH]; intros lo l2 H1 H2; simpl in *.
  - by eapply climbs_lower.
  - destruct H1 as [Hx H1]. split; [done|]. by eapply IH.
Qed.

Lemma climbs_bounds l : ∀ lo hi,
  climbs lo hi l → (lo <= hi)%Q ∧ Forall (fun x => (lo <= x <= hi)%Q) l.
Proof.
  induction l as [|x l IH]; intros lo hi H; simpl in *.
  - by split.
  - destruct H as [Hx H]. destruct (IH _ _ H) as [Hle Hall].
    split; [lra|]. constructor; [split; [done|lra]|].
    eapply Forall_impl; [exact Hall|].
    intros y [Hy1 Hy2]. simpl. split; [lra|done].
Qed.

Lemma climbs_sorted l : ∀ lo hi i j x y,
  climbs lo hi l → i ≤ j → l !! i = Some x → l !! j = Some y → (x <= y)%Q.
Proof.
  induction l as [|a l IH]; intros lo hi i j x y H Hij Hi Hj; [done|].
  destruct H as [Ha H].
  destruct i as [|i], j as [|j]; simpl in *.
  - injection Hi as <-. injection Hj as <-. apply Qle_refl.
  - injection Hi as <-.
    destruct (climbs_bounds _ _ _ H) as [_ Hall].
    rewrite Forall_forall in Hall.
    apply (Hall y). apply list_elem_of_lookup. eauto.
  - lia.
  - eapply (IH a hi i j); [done|lia|done|done].
Qed.

(** The value [base + (k / n) * width] of the two kinds of loops. *)
Definition ramp (base width : Q) (n k : nat) : Q :=
  (base + Qnat k / Qnat n * width)%Q.

Lemma ramp_mono base width n j k :
  0 < n → (0 <= width)%Q → j ≤ k →
  (ramp base width n j <= ramp base width n k)%Q.
Proof.
  intros Hn Hw Hjk. unfold ramp.
  pose proof (Qnat_pos n Hn) as Hpos.
  pose proof (Qnat_le j k Hjk) as Hle.
  assert (Qnat j / Qnat n <= Qnat k / Qnat n)%Q.
  { unfold Qdiv. apply Qmult_le_compat_r; [done|].
    apply Qlt_le_weak, Qinv_lt_0_compat. done. }
  nra.
Qed.

Lemma ramp_top base width n k :
  0 < n → (0 <= width)%Q → k ≤ n →
  (ramp base width n k <= base + width)%Q.
Proof.
  intros Hn Hw Hk. unfold ramp.
  pose proof (Qnat_pos n Hn) as Hpos.
  pose proof (Qnat_le k n Hk) as Hle.
  assert (Qnat k / Qnat n <= 1)%Q by (apply Qle_shift_div_r; lra).
  nra.
Qed.

Lemma ramp_bottom base width n :
  (base <= ramp base width n 0)%Q.
Proof.
  unfold ramp. change (Qnat 0) with 0%Q.
  assert (H : (0 / Qnat n * width == 0)%Q) by (unfold Qdiv; ring).
  lra.
Qed.

Lemma extraction_climbs (is_first_pdf : bool) total_pages len : ∀ start,
  start + len ≤ total_pages →
  let base := if is_first_pdf then 0%Q else 20%Q in
  climbs (ramp base 20 total_pages start) (base + 20)
    (progress_values
       (List.map (extraction_event is_first_pdf total_pages)
                 (seq start len))).
Proof.
  induction len as [|len IH]; intros start Hlen base; simpl.
  - destruct (decide (total_pages = 0)) as [-> | Hne].
    + assert (start = 0) as -> by lia.
      pose proof (ramp_bottom base 20 0) as Hb.
      unfold ramp in *. change (Qnat 0) with 0%Q in *.
      assert (H : (0 / 0 * 20 == 0)%Q) by reflexivity.
      lra.
    + apply ramp_top; [lia|lra|lia].
  - split.
    + unfold ramp, base. destruct is_first_pdf; apply Qle_refl.
    + eapply climbs_lower; [|apply IH; lia].
      unfold base. destruct is_first_pdf;
        (apply ramp_mono; [lia|lra|lia]).
Qed.

Lemma extraction_events_climb (is_first_pdf : bool) doc :
  let base := if is_first_pdf then 0%Q else 20%Q in
  climbs base (base + 20) (progress_values (extraction_events is_first_pdf doc)).
Proof.
  intros base. eapply climbs_lower; [apply ramp_bottom|].
  apply extraction_climbs. lia.
Qed.

Lemma items_climb cfg which doc color description base count us : ∀ start,
  start + length us ≤ Nat.max 1 count →
  climbs (ramp base 15 (Nat.max 1 count) start) (base + 15)
    (progress_values
       (flat_map (item_events cfg which doc color description base count)
                 (pages_from start us))).
Proof.
  induction us as [|u us IH]; intros start Hlen; simpl in *.
  - apply ramp_top; [lia|lra|lia].
  - rewrite progress_values_app.
    assert (Hrest : climbs (ramp base 15 (Nat.max 1 count) start) (base + 15)
                      (progress_values
                         (flat_map
                            (item_events cfg which doc color description
                               base count)
                            (pages_from (S start) us)))).
    { eapply climbs_lower; [|apply IH; lia].
      apply ramp_mono; [lia|lra|lia]. }
    unfold item_events at 1. simpl.
    destruct (doc !! unit_page u) as [page|]; [|exact Hrest].
    rewrite progress_values_app, progress_values_on_page. simpl.
    split; [apply Qle_refl|exact Hrest].
Qed.

Lemma highlight_events_climb cfg which doc color description base units :
  climbs base (base + 15)
    (progress_values
       (highlight_events cfg which doc color description base units)).
Proof.
  eapply climbs_lower; [apply ramp_bottom|].
  unfold highlight_events.
  apply (items_climb cfg which doc color description base (length units)
           units 0). lia.
Qed.

(** X12. With a positive chunk size, the values that a run of
    [compare_pdfs] sets on the progress bar never go back: they start at
    0, end at 100, and each is at least the one before. The values are
    those of the source read as rationals; rounding to floats keeps
    their order. *)
Theorem compare_pdfs_progress_never_goes_back
    lower path_join cfg output_folder self pdf1 pdf2 :
  (0 < fuzzy_chunk_size cfg)%Z →
  let values :=
    progress_values
      (compare_pdfs lower path_join cfg output_folder self pdf1 pdf2).2 in
  (∀ i j x y, i ≤ j → values !! i = Some x → values !! j = Some y →
              (x <= y)%Q)
  ∧ Forall (fun x => (0 <= x <= 100)%Q) values
  ∧ head values = Some 0%Q
  ∧ last values = Some 100%Q.
Proof.
  intros Hpos values.
  assert (Hvalues :
    values
    = [0%Q]
      ++ progress_values (extraction_events true pdf1)
      ++ [20%Q]
      ++ progress_values (extraction_events false pdf2)
      ++ [40%Q; 50%Q; 60%Q]
      ++ progress_values
           (highlight_events cfg OldDoc pdf1 (s "red")
              (s "Highlighting removed content") 60
              (comparison lower cfg pdf1 pdf2).1.1)
      ++ [75%Q]
      ++ progress_values
           (highlight_events cfg NewDoc pdf2 (s "green")
              (s "Highlighting added content") 75
              (comparison lower cfg pdf1 pdf2).1.2)
      ++ [90%Q] ++ [100%Q]).
  { unfold values. rewrite compare_pdfs_run by done. cbn [snd].
    unfold work_events, completion_events.
    rewrite !progress_values_app, <- !app_assoc. reflexivity. }
  assert (Hclimbs : climbs 0 100 values).
  { rewrite Hvalues.
    apply (climbs_app 0 0 100 [0%Q]); [simpl; lra|].
    apply (climbs_app 0 20 100); [apply (extraction_events_climb true)|].
    apply (climbs_app 20 20 100 [20%Q]); [simpl; lra|].
    apply (climbs_app 20 40 100);
      [apply (extraction_events_climb false)|].
    apply (climbs_app 40 60 100 [40%Q; 50%Q; 60%Q]); [simpl; lra|].
    apply (climbs_app 60 75 100); [apply highlight_events_climb|].
    apply (climbs_app 75 75 100 [75%Q]); [simpl; lra|].
    apply (climbs_app 75 90 100); [apply highlight_events_climb|].
    simpl. lra. }
  split; [|split; [|split]].
  - intros i j x y. by apply (climbs_sorted values 0 100).
  - by apply climbs_bounds in Hclimbs as [_ ?].
  - by rewrite Hvalues.
  - rewrite Hvalues, !app_assoc. apply last_snoc.
Qed.

Lemma compare_pdfs_progress_never_goes_back_witness :
  progress_values
    (compare_pdfs ascii_lower posix_join comparison_config
       (s "comparison_results") fresh_app [old_page] [new_page]).2
  = [0; 0; 20; 20; 40; 50; 60; 60; 75; 90; 100]%Q
  ∧ last (progress_values
            (compare_pdfs ascii_lower posix_join comparison_config
               (s "comparison_results") fresh_app [old_page] [new_page]).2)
    = Some 100%Q.
Proof.
  destruct (compare_pdfs_progress_never_goes_back ascii_lower posix_join
              comparison_config (s "comparison_results") fresh_app
              [old_page] [new_page]) as (_ & _ & _ & Hlast);
    [reflexivity|].
  split; [vm_compute; reflexivity|exact Hlast].
Defined.

(* ===================================================================== *)
(** * The statistics of the summary and of the report *)
(* ===================================================================== *)

(** X13. In the summary that [compare_pdfs] stores, the replacements and
    the deletions together are the removed units, the replacements and
    the insertions together are the added units, none of the three is
    negative, and deletions and insertions are never both positive. The
    total is the larger of the two counts plus the styling changes, which
    are three tenths of the sum of the two counts, rounded down: the
    total is 0 exactly when nothing was removed and nothing added. The
    numbers that [generate_comparison_report] computes for the same
    lists are the same, with no annotation change. *)
Theorem change_statistics_account removed added similarity_scores :
  let summary := change_statistics removed added similarity_scores in
  let report := report_statistics removed added in
  ((summary_replacements summary + deletions summary
    = Z.of_nat (length removed))%Z
   ∧ (summary_replacements summary + insertions summary
      = Z.of_nat (length added))%Z
   ∧ (0 <= summary_replacements summary)%Z
   ∧ (0 <= deletions summary)%Z ∧ (0 <= insertions summary)%Z
   ∧ (deletions summary = 0 ∨ insertions summary = 0)%Z)
  ∧ ((total_changes summary
      = Z.max (Z.of_nat (length removed)) (Z.of_nat (length added))
        + styling_changes summary)%Z
     ∧ (0 <= styling_changes summary)%Z
     ∧ (10 * styling_changes summary
        <= 3 * (Z.of_nat (length removed) + Z.of_nat (length added))
        < 10 * styling_changes summary + 10)%Z
     ∧ (total_changes summary = 0%Z ↔ removed = [] ∧ added = []))
  ∧ (report_total_changes report = total_changes summary
     ∧ report_replacements report = summary_replacements summary
     ∧ report_insertions report = insertions summary
     ∧ report_deletions report = deletions summary
     ∧ report_styling_changes report = styling_changes summary
     ∧ report_annotation_changes report = 0%Z).
Proof.
  intros summary report.
  unfold summary, report, change_statistics, report_statistics,
    three_tenths; simpl.
  set (r := Z.of_nat (length removed)).
  set (a := Z.of_nat (length added)).
  assert (Hr : (0 <= r)%Z) by (unfold r; lia).
  assert (Ha : (0 <= a)%Z) by (unfold a; lia).
  assert (Hstyle : (0 <= 3 * (r + a) / 10)%Z
                   ∧ (10 * (3 * (r + a) / 10) <= 3 * (r + a)
                      < 10 * (3 * (r + a) / 10) + 10)%Z).
  { split; [apply Z.div_pos; lia|].
    pose proof (Z.mul_div_le (3 * (r + a)) 10).
    pose proof (Z.mul_succ_div_gt (3 * (r + a)) 10). lia. }
  split; [|split].
  - repeat split; lia.
  - destruct Hstyle as [Hs1 Hs2].
    split; [lia|]. split; [done|]. split; [done|]. split.
    + intros Htotal.
      assert (r = 0 ∧ a = 0)%Z as [Hr0 Ha0] by lia.
      unfold r, a in Hr0, Ha0.
      split; apply length_zero_iff_nil; lia.
    + intros [-> ->]. reflexivity.
  - repeat split; lia.
Qed.

(* ===================================================================== *)
(** * The matcher on two equal texts *)
(* ===================================================================== *)

Module DifflibSelf.
Import Difflib.

Section self.
Variable a : str.

(** An element that [b2j] has kept: it is not popular. *)
Definition visible (x : char) : bool := negb (is_empty (b2j a x)).

(** The number of visible elements in a row just before position [i]:
    the length that the matcher computes on the diagonal. *)
Fixpoint run_to (i : nat) : nat :=
  match i with
  | O => 0
  | S i' =>
      match a !! i' with
      | Some x => if visible x then run_to i' + 1 else 0
      | None => 0
      end
  end.

Lemma run_to_visible i x :
  a !! i = Some x → visible x = true → run_to (S i) = run_to i + 1.
Proof. intros Hx Hv. simpl. by rewrite Hx, Hv. Qed.

Lemma run_to_hidden i x :
  a !! i = Some x → visible x = false → run_to (S i) = 0.
Proof. intros Hx Hv. simpl. by rewrite Hx, Hv. Qed.

Lemma b2j_visible x :
  visible x = true → b2j a x = indices_from 0 x a.
Proof.
  unfold visible, b2j. destruct (_ && _); [done|]. done.
Qed.

(** The lengths of the row before row [i], as row [i] reads them. *)
Definition row_before (i : nat) (j2len : gmap nat nat) : Prop :=
  (∀ j, j2lenget j2len j ≤ run_to i ∧ j2lenget j2len j ≤ run_to j)
  ∧ j2lenget j2len i = run_to i.

(** The best match so far lies on the diagonal and is at least as long
    as every diagonal run that ends before row [i]. *)
Definition diagonal_best (i : nat) (best : Match) : Prop :=
  m_a best = m_b best ∧ ∀ t, t < i → run_to (S t) ≤ m_size best.

(** Row [i] from position [start] on; [rest] is [a] from there. *)
Lemma row_loop_diagonal i x j2len rest : ∀ start newj2len best,
  a !! i = Some x → visible x = true →
  row_before i j2len →
  drop start a = rest →
  (∀ j k, newj2len !! j = Some k → k ≤ run_to (S i) ∧ k ≤ run_to (S j)) →
  (i < start → newj2len !! i = Some (run_to (S i))) →
  diagonal_best i best →
  (i < start → run_to (S i) ≤ m_size best) →
  let result :=
    row_loop 0 (length a) i (indices_from start x rest) j2len newj2len best in
  (∀ j k, result.1 !! j = Some k → k ≤ run_to (S i) ∧ k ≤ run_to (S j))
  ∧ result.1 !! i = Some (run_to (S i))
  ∧ diagonal_best (S i) result.2.
Proof.
  induction rest as [|y rest IH];
    intros start newj2len best Hx Hv [HA HB] Hdrop Hnew Hdone Hbest Hsize.
  - simpl.
    assert (Hlen : length a ≤ start).
    { apply (f_equal length) in Hdrop. rewrite length_drop in Hdrop.
      simpl in Hdrop. lia. }
    apply lookup_lt_Some in Hx as Hi.
    split; [done|]. split; [apply Hdone; lia|].
    destruct Hbest as [Hd Hall]. split; [done|].
    intros t Ht. destruct (decide (t = i)) as [-> | Hne].
    + apply Hsize. lia.
    + apply Hall. lia.
  - assert (Hy : a !! start = Some y).
    { pose proof (lookup_drop a start 0) as H.
      rewrite Hdrop, Nat.add_0_r in H. by symmetry. }
    assert (Hdrop' : drop (S start) a = rest).
    { rewrite (drop_S _ y start Hy) in Hdrop. by injection Hdrop. }
    apply lookup_lt_Some in Hy as Hstart.
    cbn [indices_from].
    destruct (x =? y)%N eqn:Hxy.
    + apply N.eqb_eq in Hxy as <-.
      cbn [row_loop].
      assert ((start <? 0) = false) as -> by done.
      assert ((length a <=? start) = false) as -> by (apply Nat.leb_gt; lia).
      destruct (HA start) as [HA1 HA2].
      pose proof (run_to_visible i x Hx Hv) as Hri.
      pose proof (run_to_visible start x Hy Hv) as Hrs.
      apply IH; try done.
      * intros j k. destruct (decide (j = start)) as [-> | Hne].
        -- rewrite lookup_insert_eq. intros [= <-]. lia.
        -- rewrite lookup_insert_ne by done. apply Hnew.
      * intros Hlt. destruct (decide (i = start)) as [-> | Hne].
        -- rewrite lookup_insert_eq. f_equal. lia.
        -- rewrite lookup_insert_ne by done. apply Hdone. lia.
      * destruct Hbest as [Hd Hall].
        destruct (m_size best <? j2lenget j2len start + 1) eqn:Hk; [|done].
        apply Nat.ltb_lt in Hk.
        destruct (lt_eq_lt_dec start i) as [[Hlt | ->] | Hgt].
        -- specialize (Hall start Hlt). lia.
        -- split; [done|]. cbn [m_size]. intros t Ht.
           specialize (Hall t Ht). lia.
        -- specialize (Hsize Hgt). lia.
      * intros Hlt.
        destruct (m_size best <? j2lenget j2len start + 1) eqn:Hk.
        -- apply Nat.ltb_lt in Hk. cbn [m_size].
           destruct (decide (i = start)) as [-> | Hne]; [lia|].
           assert (i < start) as Hlt' by lia. specialize (Hsize Hlt'). lia.
        -- apply Nat.ltb_ge in Hk.
           destruct (decide (i = start)) as [-> | Hne]; [lia|].
           apply Hsize. lia.
    + apply N.eqb_neq in Hxy.
      apply IH; try done.
      * intros Hlt. apply Hdone.
        destruct (decide (i = start)) as [-> | Hne]; [congruence|lia].
      * intros Hlt. apply Hsize.
        destruct (decide (i = start)) as [-> | Hne]; [congruence|lia].
Qed.

Lemma j2lenget_empty j : j2lenget ∅ j = 0.
Proof. destruct j; [done|]. simpl. by rewrite lookup_empty. Qed.

(** The rows from [start] on keep the best match on the diagonal. *)
Lemma rows_loop_diagonal n : ∀ start j2len best,
  start + n = length a →
  row_before start j2len →
  diagonal_best start best →
  m_a (rows_loop a a 0 (length a) (seq start n) j2len best)
  = m_b (rows_loop a a 0 (length a) (seq start n) j2len best).
Proof.
  induction n as [|n IH]; intros start j2len best Hlen Hrow Hbest; simpl.
  - by destruct Hbest.
  - destruct (a !! start) as [x|] eqn:Hx; [|by destruct Hbest].
    destruct (visible x) eqn:Hv.
    + rewrite (b2j_visible x Hv).
      destruct (row_loop_diagonal start x j2len a 0 ∅ best)
        as (HN1 & HN2 & Hbest'); try done.
      * lia.
      * lia.
      * destruct (row_loop 0 (length a) start (indices_from 0 x a) j2len ∅ best)
          as [newj2len best'] eqn:Hloop.
        simpl in *. apply IH; [lia| |done].
        split.
        -- intros [|j]; simpl; [lia|].
           destruct (newj2len !! j) as [k|] eqn:Hj; simpl; [|lia].
           by apply HN1.
        -- simpl. by rewrite HN2.
    + assert (b2j a x = []) as ->.
      { unfold visible in Hv. by destruct (b2j a x). }
      simpl. apply IH; [lia| |].
      * pose proof (run_to_hidden start x Hx Hv) as Hzero.
        split.
        -- intros j. rewrite j2lenget_empty. lia.
        -- rewrite j2lenget_empty. lia.
      * destruct Hbest as [Hd Hall]. split; [done|].
        intros t Ht. destruct (decide (t = start)) as [-> | Hne].
        -- rewrite (run_to_hidden start x Hx Hv). lia.
        -- apply Hall. lia.
Qed.

Lemma same_at_diagonal i : i < length a → same_at a a i i = true.
Proof.
  intros Hi. unfold same_at.
  destruct (a !! i) as [x|] eqn:Hx; [apply N.eqb_refl|].
  apply lookup_ge_None in Hx. unfold char in *. lia.
Qed.

Lemma extend_left_diagonal i : ∀ bestsize,
  i ≤ length a →
  extend_left a a 0 0 i i bestsize = mkMatch 0 0 (bestsize + i).
Proof.
  induction i as [|i IH]; intros bestsize Hi; simpl.
  - by rewrite Nat.add_0_r.
  - rewrite same_at_diagonal by lia. simpl.
    rewrite IH by lia. f_equal. lia.
Qed.

Lemma extend_right_diagonal fuel : ∀ bestsize,
  bestsize + fuel = length a →
  extend_right a a (length a) (length a) fuel 0 0 bestsize
  = mkMatch 0 0 (length a).
Proof.
  induction fuel as [|fuel IH]; intros bestsize Hlen; simpl.
  - f_equal. lia.
  - assert ((bestsize <? length a) = true) as -> by (apply Nat.ltb_lt; lia).
    rewrite same_at_diagonal by lia. simpl. apply IH. lia.
Qed.

(** On the whole of two equal texts the longest match is the whole
    text. *)
Lemma find_longest_match_self :
  find_longest_match a a 0 (length a) 0 (length a) = mkMatch 0 0 (length a).
Proof.
  unfold find_longest_match. rewrite Nat.sub_0_r.
  set (best := rows_loop a a 0 (length a) (seq 0 (length a)) ∅
                 (mkMatch 0 0 0)).
  assert (Hdiag : m_a best = m_b best).
  { apply rows_loop_diagonal; [lia| |].
    - split; [intros j|]; rewrite j2lenget_empty; simpl; lia.
    - split; [done|]. intros t Ht. lia. }
  assert (Hin : DifflibFacts.inside 0 0 (length a) (length a) best).
  { apply (DifflibFacts.rows_loop_ok a a 0 (length a) 0 (length a));
      [lia|lia|lia|lia| |].
    - intros j k. by rewrite lookup_empty.
    - unfold DifflibFacts.inside; simpl. lia. }
  destruct Hin as (_ & Hend & _ & _).
  rewrite <- Hdiag, extend_left_diagonal by lia. simpl.
  apply extend_right_diagonal. lia.
Qed.

Lemma found_blocks_self :
  DifflibFacts.total_size (found_blocks a a) = length a.
Proof.
  unfold found_blocks.
  replace (2 * length a + 1) with (S (2 * length a)) by lia.
  cbn [blocks_loop]. rewrite find_longest_match_self. cbn [m_a m_b m_size].
  destruct (length a) as [|n] eqn:Hlen.
  - simpl. done.
  - assert ((S n =? 0) = false) as -> by done.
    assert ((0 <? 0) = false) as -> by done.
    assert ((0 + S n <? S n) = false) as -> by (apply Nat.ltb_ge; lia).
    simpl andb. cbn iota.
    replace (2 * S n) with (S (S (2 * n))) by lia.
    cbn [blocks_loop]. simpl. unfold DifflibFacts.total_size. simpl. lia.
Qed.

(** A text has ratio 1 with itself. *)
Lemma ratio_self : (ratio a a == 1)%Q.
Proof.
  unfold ratio. rewrite DifflibFacts.matches_found, found_blocks_self.
  unfold calculate_ratio.
  destruct (length a + length a) as [|n] eqn:Hlen; [done|].
  unfold Qeq; cbn [Qnum Qden].
  rewrite <- Pos.of_nat_succ, Zpos_P_of_succ_nat. lia.
Qed.
End self.
End DifflibSelf.

(* ===================================================================== *)
(** * Comparing a document with itself *)
(* ===================================================================== *)

(** The pair of a unit with itself. *)
Definition self_pair (u : content_unit) : matched_pair :=
  (u, u, Difflib.ratio (unit_text u) (unit_text u)).

Lemma match_fold_self cfg rest : ∀ k st,
  (exact_match_threshold cfg <= 1)%Q →
  unmatched_new st = rest →
  let st' := fold_left (match_step cfg) (zip (seq k (length rest)) rest) st in
  removed st' = removed st
  ∧ unmatched_new st' = []
  ∧ matched_pairs st' = matched_pairs st ++ List.map self_pair rest.
Proof.
  induction rest as [|u rest IH]; intros k st Hthr Hun; cbn [fold_left].
  - simpl. by rewrite app_nil_r.
  - cbn [length seq zip zip_with fold_left].
    assert (Hstep : match_step cfg st (k, u)
                    = {| removed := removed st;
                         matched_pairs := matched_pairs st ++ [self_pair u];
                         unmatched_new := rest;
                         old_matched := <[k := true]> (old_matched st) |}).
    { rewrite match_step_eq, Hun.
      pose proof (scan_break cfg (unit_text u) [] u rest 0 (-1)%Z 0%Q) as Hs.
      cbn [app length] in Hs. rewrite Hs.
      - done.
      - constructor.
      - unfold reaches, sim.
        pose proof (DifflibSelf.ratio_self (unit_text u)) as H1. lra. }
    rewrite Hstep.
    destruct (IH (S k)
                {| removed := removed st;
                   matched_pairs := matched_pairs st ++ [self_pair u];
                   unmatched_new := rest;
                   old_matched := <[k := true]> (old_matched st) |}
                Hthr eq_refl)
      as (Hr & Hu & Hp).
    simpl in *. rewrite Hr, Hu, Hp. by rewrite <- app_assoc.
Qed.

Lemma fold_similarity_ones pairs : ∀ total,
  Forall (fun p => (pair_similarity p == 1)%Q) pairs →
  (fold_left (fun total p => total + pair_similarity p) pairs total
   == total + Qnat (length pairs))%Q.
Proof.
  induction pairs as [|p pairs IH]; intros total Hall; simpl.
  - change (Qnat 0) with 0%Q. ring.
  - apply Forall_cons in Hall as [Hp Hall].
    rewrite (IH _ Hall), Hp, (Qnat_S (length pairs)). ring.
Qed.

Lemma match_units_self cfg units :
  (exact_match_threshold cfg <= 1)%Q →
  removed (match_units cfg units units) = []
  ∧ unmatched_new (match_units cfg units units) = []
  ∧ matched_pairs (match_units cfg units units) = List.map self_pair units.
Proof.
  intros Hthr.
  apply (match_fold_self cfg units 0 (initial_state units units) Hthr eq_refl).
Qed.

(** X14. With a threshold of at most 1, the comparison of a list of
    units with itself reports no difference: nothing is removed, nothing
    is added, every unit is paired with itself, in order, at similarity
    1, and [text_similarity] is 100, as are the other three metrics when
    there is a unit at all. *)
Theorem compare_content_units_self cfg units :
  (exact_match_threshold cfg <= 1)%Q →
  let result := compare_content_units cfg units units in
  result.1.1 = [] ∧ result.1.2 = []
  ∧ matched_content_pairs result.2 = List.map self_pair units
  ∧ Forall (fun p => (pair_similarity p == 1)%Q)
           (matched_content_pairs result.2)
  ∧ (text_similarity result.2 == 100)%Q
  ∧ (units ≠ [] →
     (avg_content_similarity result.2 == 100)%Q
     ∧ (document_similarity result.2 == 100)%Q
     ∧ (retention_rate result.2 == 100)%Q).
Proof.
  intros Hthr result.
  destruct (match_units_self cfg units Hthr) as (Hr & Hu & Hp).
  assert (Hones : Forall (fun p => (pair_similarity p == 1)%Q)
                         (List.map self_pair units)).
  { apply Forall_forall. intros p Hp'.
    apply list_elem_of_fmap in Hp' as (u & -> & _).
    apply DifflibSelf.ratio_self. }
  unfold result, compare_content_units. cbn [fst snd].
  rewrite Hr, Hu, Hp. cbn [matched_content_pairs text_similarity
    avg_content_similarity document_similarity retention_rate].
  split; [done|]. split; [done|]. split; [done|]. split; [done|].
  split.
  - rewrite DifflibSelf.ratio_self. reflexivity.
  - intros Hne.
    assert (Hlen : 0 < length units) by (destruct units; [done|simpl; lia]).
    pose proof (Qnat_pos _ Hlen) as Hpos.
    rewrite length_map.
    assert (is_empty (List.map self_pair units) = false) as ->
      by (destruct units; done).
    assert ((0 <? length units) = true) as -> by by apply Nat.ltb_lt.
    cbn [negb andb length].
    assert ((0 <? Z.of_nat (length units) + Z.of_nat (length units)
                  - Z.of_nat (length units))%Z = true) as -> by lia.
    replace (Z.of_nat (length units) + Z.of_nat (length units)
             - Z.of_nat (length units))%Z
      with (Z.of_nat (length units)) by lia.
    fold (Qnat (length units)).
    split; [|split].
    + assert (Hsum : (total_similarity (List.map self_pair units)
                      == Qnat (length units))%Q).
      { unfold total_similarity.
        rewrite (fold_similarity_ones _ 0%Q Hones), length_map. ring. }
      rewrite Hsum. field. lra.
    + field. lra.
    + change (Qnat 0) with 0%Q. field. lra.
Qed.

Lemma compare_content_units_self_witness :
  (compare_content_units comparison_config three_rewrites three_rewrites).1
  = ([], [])
  ∧ (avg_content_similarity
       (compare_content_units comparison_config
          three_rewrites three_rewrites).2 == 100)%Q.
Proof.
  destruct (compare_content_units_self comparison_config three_rewrites)
    as (Hremoved & Hadded & _ & _ & _ & Hfull).
  - apply Qle_bool_iff. reflexivity.
  - split.
    + apply injective_projections; [exact Hremoved|exact Hadded].
    + destruct Hfull as (Havg & _); [discriminate|exact Havg].
Defined.

(** X15. With a positive chunk size and a threshold of at most 1, a run
    of [compare_pdfs] on two documents whose pages have the same text
    touches no page of either document: it makes no search and adds no
    annotation. It completes, with empty [removed] and [added] lists and
    a summary of 0 changes. *)
Theorem compare_pdfs_same_text
    lower path_join cfg output_folder self pdf1 pdf2 :
  (0 < fuzzy_chunk_size cfg)%Z →
  (exact_match_threshold cfg <= 1)%Q →
  List.map page_text pdf1 = List.map page_text pdf2 →
  let run := compare_pdfs lower path_join cfg output_folder self pdf1 pdf2 in
  events_on OldDoc run.2 = [] ∧ events_on NewDoc run.2 = []
  ∧ app_removed run.1 = Some [] ∧ app_added run.1 = Some []
  ∧ total_changes <$> app_summary run.1 = Some 0%Z
  ∧ comparison_complete run.1 = true.
Proof.
  intros Hpos Hthr Htext run.
  unfold run. rewrite compare_pdfs_run by done. cbn [fst snd].
  assert (Hunits : units_of lower cfg pdf1 = units_of lower cfg pdf2)
    by (unfold units_of; by rewrite Htext).
  destruct (match_units_self cfg (units_of lower cfg pdf2) Hthr)
    as (Hr & Ha & _).
  assert (Hremoved : (comparison lower cfg pdf1 pdf2).1.1 = [])
    by (unfold comparison; by rewrite Hunits).
  assert (Hadded : (comparison lower cfg pdf1 pdf2).1.2 = [])
    by (unfold comparison; by rewrite Hunits).
  unfold work_events, completion_events, completed.
  rewrite Hremoved, Hadded.
  rewrite !events_on_app, !events_on_extraction.
  repeat split; reflexivity.
Qed.

(** X15 at a document compared with itself. *)
Lemma compare_pdfs_same_text_witness :
  let run :=
    compare_pdfs ascii_lower posix_join comparison_config
      (s "comparison_results") fresh_app [old_page] [old_page] in
  events_on OldDoc run.2 = [] ∧ events_on NewDoc run.2 = []
  ∧ total_changes <$> app_summary run.1 = Some 0%Z.
Proof.
  destruct (compare_pdfs_same_text ascii_lower posix_join comparison_config
              (s "comparison_results") fresh_app [old_page] [old_page])
    as (Hold & Hnew & _ & _ & Htotal & _).
  - reflexivity.
  - apply Qle_bool_iff. reflexivity.
  - reflexivity.
  - split; [exact Hold|]. split; [exact Hnew|exact Htotal].
Defined.

(* ===================================================================== *)
(** * The tables of [extract_tables_from_pdf] *)
(* ===================================================================== *)

(** A column label or a value of a data frame: an integer, as the labels
    that a new frame gets, or a string. *)
Inductive cell :=
  | IntCell (n : Z)
  | StrCell (text : str).

#[global] Instance cell_eq_dec : EqDecision cell.
Proof. solve_decision. Defined.

(** [str(n)] for an integer. *)
Definition str_of_Z (n : Z) : str :=
  if (n <? 0)%Z then s "-" ++ str_of_nat (Z.abs_nat n)
  else str_of_nat (Z.to_nat n).

(** [str(c)]. *)
Definition str_of_cell (c : cell) : str :=
  match c with
  | IntCell n => str_of_Z n
  | StrCell text => text
  end.

(** A data frame: its column labels and its rows, each a list of
    values. *)
Record DataFrame := mkDataFrame {
  columns : list cell;
  rows : list (list cell)
}.

(** [df.empty]: one of the two axes has length 0. *)
Definition df_empty (df : DataFrame) : bool :=
  is_empty (columns df) || is_empty (rows df).

(** [df.columns = new_headers], which raises when the number of labels
    is not the number of columns. *)
Definition set_columns (df : DataFrame) (new_headers : list cell)
    : outcome DataFrame :=
  if length new_headers =? length (columns df)
  then Ok {| columns := new_headers; rows := rows df |}
  else Raise ValueError.

(** The loop that sets [numeric_headers]: every label, stripped, is the
    decimal writing of its position. *)
Definition numeric_headers (df : DataFrame) : bool :=
  forallb (fun jc => bool_decide (strip (str_of_cell jc.2) = str_of_nat jc.1))
          (enumerate (columns df)).

(** The list [new_headers] of the names [Column_1], [Column_2], ... *)
Definition column_names (df : DataFrame) : list cell :=
  List.map (fun j => StrCell (s "Column_" ++ str_of_nat (j + 1)))
           (seq 0 (length (columns df))).

(** The body of the loop over the tables, from the copy of the frame
    on. *)
Definition clean_table (table_df : DataFrame) : outcome DataFrame :=
  let df := table_df in
  if numeric_headers df then
    if negb (df_empty df) then
      let new_headers := column_names df in
      match rows df with
      | potential_headers :: second :: _ =>
          (* len(df) > 1 *)
          if bool_decide (potential_headers ≠ second) then
            let new_headers :=
              List.map (fun h => StrCell (strip (str_of_cell h)))
                       potential_headers in
            let df := {| columns := columns df; rows := tail (rows df) |} in
            set_columns df new_headers
          else set_columns df new_headers
      | _ => set_columns df new_headers
      end
    else Ok df
  else Ok df.

(** A table that the loop skips. *)
Definition skipped (table_df : DataFrame) : bool :=
  df_empty table_df
  || (length (rows table_df) <=? 1) && (length (columns table_df) <=? 1).

Definition lift {A} (o : outcome A) : AppM A := fun log => (o, log).

Section Tables.
(** [camelot.read_pdf] on the file, by flavor, with the options that the
    source passes for that flavor; the entry [extraction_method] of
    [self.table_extraction_config]; and the text of the message of the
    [except] branch for an exception. *)
Variable read_pdf : str → list DataFrame.
Variable extraction_method : str.
Variable error_message : exn → str.

Fixpoint tables_loop (is_first_pdf : bool) (total : nat)
    (tables : list (nat * DataFrame)) (processed_tables : list DataFrame)
    : AppM (list DataFrame) :=
  match tables with
  | [] => mret processed_tables
  | (i, table_df) :: tables =>
      if skipped table_df
      then tables_loop is_first_pdf total tables processed_tables
      else
        let pdf_label := if is_first_pdf then s "first" else s "second" in
        let progress :=
          ((if is_first_pdf then 30 else 60)
           + Qnat i / Qnat (Nat.max 1 total) * 10)%Q in
        update_progress progress
          (s "Processing table " ++ str_of_nat (i + 1) ++ s "/"
             ++ str_of_nat total ++ s " from " ++ pdf_label ++ s " PDF")
          None None;;
        df ← lift (clean_table table_df);
        tables_loop is_first_pdf total tables (processed_tables ++ [df])
  end.

(** The body of the [try] statement. *)
Definition extract_tables_try (is_first_pdf : bool) : AppM (list DataFrame) :=
  let pdf_label := if is_first_pdf then s "first" else s "second" in
  update_progress (if is_first_pdf then 10 else 40)
    (s "Extracting tables from " ++ pdf_label ++ s " PDF using "
       ++ extraction_method ++ s " method...")
    None None;;
  let tables :=
    if bool_decide (extraction_method = s "lattice")
    then read_pdf (s "lattice")
    else if bool_decide (extraction_method = s "stream")
    then read_pdf (s "stream")
    else read_pdf (s "hybrid") in
  update_progress (if is_first_pdf then 30 else 60)
    (s "Found " ++ str_of_nat (length tables) ++ s " tables in "
       ++ pdf_label ++ s " PDF")
    None None;;
  tables_loop is_first_pdf (length tables) (enumerate tables) [].

(** [extract_tables_from_pdf]: the tables returned and what the call has
    done. *)
Definition extract_tables_from_pdf (is_first_pdf : bool)
    : list DataFrame * list app_event :=
  match extract_tables_try is_first_pdf [] with
  | (Ok processed_tables, log) => (processed_tables, log)
  | (Raise e, log) =>
      ([], log ++ [UpdateProgress (if is_first_pdf then 30 else 60)
                     (error_message e)])
  end.
End Tables.

(** A frame as [camelot] and [pandas] build it: every row has one value
    for each column. *)
Definition well_formed (df : DataFrame) : Prop :=
  Forall (fun row => length row = length (columns df)) (rows df).

(** What the loop makes of a table that it keeps. *)
Definition cleaned (df : DataFrame) : DataFrame :=
  if numeric_headers df then
    match rows df with
    | potential_headers :: second :: others =>
        if bool_decide (potential_headers ≠ second)
        then {| columns :=
                  List.map (fun h => StrCell (strip (str_of_cell h)))
                           potential_headers;
                rows := second :: others |}
        else {| columns := column_names df; rows := rows df |}
    | _ => {| columns := column_names df; rows := rows df |}
    end
  else df.

Lemma length_column_names df :
  length (column_names df) = length (columns df).
Proof. unfold column_names. by rewrite length_map, length_seq. Qed.

Lemma clean_table_run df :
  well_formed df → skipped df = false → clean_table df = Ok (cleaned df).
Proof.
  intros Hwf Hkept. unfold clean_table, cleaned.
  destruct (numeric_headers df); [|done].
  assert (df_empty df = false) as ->.
  { unfold skipped in Hkept. by destruct (df_empty df). }
  cbn [negb]. unfold set_columns.
  destruct (rows df) as [|potential_headers [|second others]] eqn:Hrows;
    cbn [columns rows tail].
  - by rewrite length_column_names, Nat.eqb_refl.
  - by rewrite length_column_names, Nat.eqb_refl.
  - destruct (bool_decide (potential_headers ≠ second)).
    + unfold well_formed in Hwf. rewrite Hrows in Hwf.
      apply Forall_cons in Hwf as [Hfirst _].
      by rewrite length_map, Hfirst, Nat.eqb_refl.
    + by rewrite length_column_names, Nat.eqb_refl.
Qed.

Lemma tables_loop_run is_first_pdf total tables :
  Forall (fun it => well_formed it.2) tables →
  ∀ processed_tables log, ∃ events,
    tables_loop is_first_pdf total tables processed_tables log
    = (Ok (processed_tables
           ++ List.map cleaned
                (List.filter (fun df => negb (skipped df))
                             (List.map snd tables))),
       log ++ events)
    ∧ Forall quiet events.
Proof.
  induction 1 as [|[i df] tables Hwf Hall IH]; intros processed_tables log.
  - exists []. simpl. unfold mret, AppM_ret. by rewrite !app_nil_r.
  - cbn [tables_loop List.map snd List.filter]. simpl in Hwf.
    destruct (skipped df) eqn:Hskip; cbn [negb]; [apply IH|].
    erewrite app_bind_Ok by apply update_progress_run.
    unfold lift at 1.
    erewrite app_bind_Ok
      by (rewrite (clean_table_run df Hwf Hskip); reflexivity).
    edestruct (IH (processed_tables ++ [cleaned df]))
      as (events & Hrun & Hquiet).
    eexists (_ :: events). split.
    + rewrite Hrun. cbn [List.map]. by rewrite <- !app_assoc.
    + by constructor.
Qed.

(** The tables of a file that the loop keeps. *)
Definition kept_tables (read_pdf : str → list DataFrame)
    (extraction_method : str) : list DataFrame :=
  List.filter (fun df => negb (skipped df))
    (if bool_decide (extraction_method = s "lattice")
     then read_pdf (s "lattice")
     else if bool_decide (extraction_method = s "stream")
     then read_pdf (s "stream")
     else read_pdf (s "hybrid")).

(** X16. When every table that [camelot] returns is a well-formed frame,
    [extract_tables_from_pdf] does not take its [except] branch, and it
    returns, in order, one table for each table that is neither empty
    nor of at most one row and one column. A returned table has the
    columns of its source, as many as before, and it is well formed. Its
    rows are the rows of the source, or, when the labels of the source
    were the positions 0, 1, 2, ... and the first two rows differ, the
    rows after the first, whose stripped values are then the labels: no
    other row is ever dropped. *)
Theorem extract_tables_from_pdf_keeps_the_data
    read_pdf extraction_method error_message is_first_pdf :
  (∀ flavor, Forall well_formed (read_pdf flavor)) →
  let kept := kept_tables read_pdf extraction_method in
  let result :=
    extract_tables_from_pdf read_pdf extraction_method error_message
      is_first_pdf in
  result.1 = List.map cleaned kept
  ∧ Forall quiet result.2
  ∧ Forall
      (fun df =>
         length (columns (cleaned df)) = length (columns df)
         ∧ well_formed (cleaned df)
         ∧ (rows (cleaned df) = rows df
            ∨ ∃ first,
                rows df = first :: rows (cleaned df)
                ∧ rows (cleaned df) ≠ []
                ∧ columns (cleaned df)
                  = List.map (fun h => StrCell (strip (str_of_cell h)))
                             first))
      kept.
Proof.
  intros Hwf kept result.
  set (tables := if bool_decide (extraction_method = s "lattice")
                 then read_pdf (s "lattice")
                 else if bool_decide (extraction_method = s "stream")
                 then read_pdf (s "stream")
                 else read_pdf (s "hybrid")).
  assert (Htables : Forall well_formed tables).
  { unfold tables. by repeat case_bool_decide. }
  assert (Hitems : Forall (fun it : nat * DataFrame => well_formed it.2)
                          (enumerate tables)).
  { apply Forall_forall. intros [i df] Hin. simpl.
    rewrite Forall_forall in Htables. apply Htables.
    rewrite <- (enumerate_snd tables).
    apply list_elem_of_fmap. by exists (i, df). }
  assert (Hrun : result.1 = List.map cleaned kept ∧ Forall quiet result.2).
  { unfold result, extract_tables_from_pdf, extract_tables_try.
    erewrite app_bind_Ok by apply update_progress_run.
    erewrite app_bind_Ok by apply update_progress_run.
    fold tables.
    edestruct (tables_loop_run is_first_pdf (length tables)
                 (enumerate tables) Hitems [])
      as (events & Hloop & Hquiet).
    rewrite Hloop. cbn [fst snd app]. rewrite enumerate_snd.
    split; [done|]. by repeat constructor. }
  destruct Hrun as [Hresult Hlog].
  split; [done|]. split; [done|].
  apply Forall_forall. intros df Hdf.
    apply list_elem_of_In, filter_In in Hdf as [Hin Hkept].
    rewrite Forall_forall in Htables.
    apply list_elem_of_In, Htables in Hin.
    unfold cleaned.
    destruct (numeric_headers df); [|by repeat split; [|left]].
    destruct (rows df) as [|first [|second others]] eqn:Hrows;
      cbn [columns rows].
    + split; [apply length_column_names|]. split; [|by left].
      unfold well_formed. cbn [rows columns]. constructor.
    + split; [apply length_column_names|]. split; [|by left].
      unfold well_formed in *. cbn [rows columns].
      rewrite Hrows in Hin. by rewrite length_column_names.
    + unfold well_formed in Hin. rewrite Hrows in Hin.
      apply Forall_cons in Hin as [Hfirst Hrest].
      destruct (bool_decide (first ≠ second)); cbn [columns rows].
      * split; [by rewrite length_map|]. split.
        -- unfold well_formed. cbn [rows columns]. by rewrite length_map, Hfirst.
        -- right. exists first. by repeat split.
      * split; [apply length_column_names|]. split; [|by left].
        unfold well_formed. cbn [rows columns].
        rewrite length_column_names. by constructor.
Qed.

(** A table of three rows whose first row holds the headings, and a
    table of one value, which is skipped. *)
Definition priced_items : DataFrame :=
  {| columns := [IntCell 0; IntCell 1];
     rows := [ [StrCell (s " Item "); StrCell (s "Price")];
               [StrCell (s "Pen"); StrCell (s "2")];
               [StrCell (s "Ink"); StrCell (s "7")] ] |}.

Definition lone_value : DataFrame :=
  {| columns := [IntCell 0]; rows := [[StrCell (s "n/a")]] |}.

Lemma extract_tables_from_pdf_keeps_the_data_witness :
  (extract_tables_from_pdf (fun _ => [lone_value; priced_items])
     (s "lattice") (fun _ => s "Error") true).1
  = [ {| columns := [StrCell (s "Item"); StrCell (s "Price")];
         rows := [ [StrCell (s "Pen"); StrCell (s "2")];
                   [StrCell (s "Ink"); StrCell (s "7")] ] |} ].
Proof.
  destruct (extract_tables_from_pdf_keeps_the_data
              (fun _ => [lone_value; priced_items]) (s "lattice")
              (fun _ => s "Error") true) as (Hresult & _ & _).
  - intros _. repeat constructor.
  - etrans; [exact Hresult|]. vm_compute. reflexivity.
Defined.
